(** * molcraft: key-value attention cache, causal masks, SMILES tokenizer
      and the autoregressive sampler

    A shallow embedding of the decode-time core of [molcraft]
    ([layers.py], [tokenizers.py], [samplers.py]) together with the
    properties of its specification.

    Conventions of the embedding:
    - a dense tensor of rank 2 or 3 is a nested list; a [tf.RaggedTensor]
      is a list of rows of different lengths;
    - [int32] tensor entries are [Z]; row ids and local ranks, which the
      code derives from row lengths, are [nat];
    - floating-point logits are idealised as rationals [Q]; the one
      place where the range of [float32] is modelled is the quotient
      [logits / temperature], which is an infinity beyond that range;
    - a Python call that can raise returns a [result];
    - TensorFlow operations the code calls on out-of-range indices
      ([tf.gather_nd], [tf.tensor_scatter_nd_update]) fail, as they do on
      the CPU kernels: the embedding returns [None] there. *)

From Stdlib Require Import ZArith QArith Strings.String Strings.Ascii List Bool Lia.
From stdpp Require Import base list option strings.

Open Scope Z_scope.

(** ** Python values and outcomes *)

Module Py.

(** The exception classes the embedding tells apart; the last two are
    [tf.errors.InvalidArgumentError] and
    [tf.errors.FailedPreconditionError]. *)
Inductive exn : Type :=
| ValueError
| TypeError
| InvalidArgumentError
| FailedPreconditionError.

(** The outcome of a call: a value, an exception, or -- for the loops
    the embedding runs on fuel -- no outcome within the fuel given. *)
Inductive result (A : Type) : Type :=
| Ok (a : A)
| Raise (e : exn)
| OutOfFuel.
Arguments Ok {A} a.
Arguments Raise {A} e.
Arguments OutOfFuel {A}.

Definition is_raise {A} (r : result A) : bool :=
  match r with Raise _ => true | _ => false end.

Definition and_then {A B} (m : result A) (f : A → result B) : result B :=
  match m with
  | Ok a => f a
  | Raise e => Raise e
  | OutOfFuel => OutOfFuel
  end.

(** The work a call performs, in the order it happens. *)
Inductive event : Type :=
| CreateVocab
| CreateLookupTables
| Tokenize
| InitializeAttentionCache
| ModelCall
| NextToken
| Detokenize.

#[global] Instance event_eq_dec : EqDecision event.
Proof. solve_decision. Defined.

(** A computation with its outcome and the trace of the work done up to
    the outcome. *)
Record M (A : Type) : Type := mkM { outcome : result A; trace : list event }.
Arguments mkM {A} outcome trace.
Arguments outcome {A} m.
Arguments trace {A} m.

Definition ret {A} (a : A) : M A := mkM (Ok a) [].
Definition bind {A B} (m : M A) (f : A → M B) : M B :=
  match outcome m with
  | Ok a => let m' := f a in mkM (outcome m') (trace m ++ trace m')
  | Raise e => mkM (Raise e) (trace m)
  | OutOfFuel => mkM OutOfFuel (trace m)
  end.

Definition raise {A} (e : exn) : M A := mkM (Raise e) [].
Definition tell (ev : event) : M unit := mkM (Ok ()) [ev].
Definition lift {A} (r : result A) : M A := mkM r [].

Definition when_ (b : bool) (m : M unit) : M unit := if b then m else ret ().

(** The arguments a caller may hand to a parameter annotated [int]:
    Python does not enforce the annotation. *)
Inductive obj : Type :=
| PyNone
| PyBool (b : bool)
| PyInt (z : Z)
| PyFloat (q : Q)
| PyStr (s : string).

(** [bool(x)] *)
Definition truthy (x : obj) : bool :=
  match x with
  | PyNone => false
  | PyBool b => b
  | PyInt z => negb (z =? 0)
  | PyFloat q => negb (Qeq_bool q 0)
  | PyStr s => negb (String.eqb s "")
  end.

(** [isinstance(x, int)]: [bool] is a subclass of [int]. *)
Definition isinstance_int (x : obj) : bool :=
  match x with
  | PyBool _ | PyInt _ => true
  | _ => false
  end.

(** Truthiness of an attribute that is a string or [None]. *)
Definition truthy_str (x : option string) : bool :=
  match x with
  | None => false
  | Some s => negb (String.eqb s "")
  end.

End Py.

Notation "'let?' x ':=' m 'in' k" := (Py.and_then m (λ x, k))
  (at level 10, x name, m at level 100, k at level 200, only parsing).
Notation "'let*' x ':=' m 'in' k" := (Py.bind m (λ x, k))
  (at level 10, x name, m at level 100, k at level 200, only parsing).

(** ** Tensors at the Python boundary *)

Module Tf.

Inductive dtype : Type := string_t | int32_t | float32_t.

(** A rank-1 tensor by element type; only string tensors are looked
    into. *)
Inductive tensor : Type :=
| StringTensor (v : list string)
| Int32Tensor (v : list Z)
| Float32Tensor (v : list Q).

Definition dtype_of (t : tensor) : dtype :=
  match t with
  | StringTensor _ => string_t
  | Int32Tensor _ => int32_t
  | Float32Tensor _ => float32_t
  end.

Definition is_string (t : tensor) : bool :=
  match t with StringTensor _ => true | _ => false end.

(** [keras.ops.shape(t)[0]] *)
Definition shape0 (t : tensor) : nat :=
  match t with
  | StringTensor v => length v
  | Int32Tensor v => length v
  | Float32Tensor v => length v
  end.

(** A [float32] value that arithmetic has produced: inside the range a
    finite value is the exact rational (rounding is left out), beyond
    the range it is an infinity, and [0 / 0] is not a number. *)
Inductive float32 : Type :=
| Finite (q : Q)
| Inf (negative : bool)
| NaN.

(** [tf.math.is_finite] *)
Definition is_finite (x : float32) : bool :=
  match x with Finite _ => true | _ => false end.

(** From here on [float32] rounds to an infinity: halfway between its
    largest finite value [2^128 - 2^104] and [2^128]. *)
Definition FLOAT32_OVERFLOW : Q := inject_Z (2 ^ 128 - 2 ^ 103).

(** [x / y] in [float32], for a finite [x]. *)
Definition float32_div (x y : Q) : float32 :=
  if Qeq_bool y 0 then
    if Qeq_bool x 0 then NaN else Inf (negb (Qle_bool 0 x))
  else
    let q := (x / y)%Q in
    if Qle_bool FLOAT32_OVERFLOW q then Inf false
    else if Qle_bool q (- FLOAT32_OVERFLOW) then Inf true
    else Finite q.

(** An argument of a function that takes "a tensor": a [tf.Tensor], or
    another Python value (a list, an array) together with the tensor
    [keras.ops.convert_to_tensor] makes of it. *)
Inductive arg : Type :=
| Tensor (t : tensor)
| Value (converted : tensor).

Definition is_tensor (x : arg) : bool :=
  match x with Tensor _ => true | Value _ => false end.

Definition convert_to_tensor (x : arg) : tensor :=
  match x with Tensor t => t | Value t => t end.

End Tf.

(** ** layers.py *)

Module Layers.

(** A cache update index is a dense [tf.Tensor] of shape [(batch, n)]
    or a [tf.RaggedTensor] with one row of positions per batch row. *)
Inductive CacheIndex : Type :=
| DenseIndex (rows : list (list Z))
| RaggedIndex (rows : list (list Z)).

(** [tf.RaggedTensor.from_tensor] for a dense index, identity otherwise. *)
Definition as_ragged (index : CacheIndex) : list (list Z) :=
  match index with
  | DenseIndex rows => rows
  | RaggedIndex rows => rows
  end.

(** [RaggedTensor.value_rowids]: the row id of every flat value. *)
Fixpoint value_rowids_from {A} (b : nat) (rows : list (list A)) : list nat :=
  match rows with
  | [] => []
  | r :: rs => replicate (length r) b ++ value_rowids_from (S b) rs
  end.

Definition value_rowids {A} (rows : list (list A)) : list nat :=
  value_rowids_from 0 rows.

Definition row_lengths {A} (rows : list (list A)) : list nat :=
  length <$> rows.

(** [tf.ragged.range(lengths)] *)
Definition ragged_range (lengths : list nat) : list (list nat) :=
  seq 0 <$> lengths.

Definition flat_values {A} (rows : list (list A)) : list A :=
  concat rows.

Section CacheUpdate.
Context {V : Type}.

(** One key (or value) cache of a layer is a [list (list V)]: [batch]
    rows of [max_length] slots; a slot [V] stands for the
    [heads x head_dim] block. *)

(** The slot of row [b] at position [p]. *)
Definition cache_at (c : list (list V)) (b : nat) (p : Z) : option V :=
  row ← c !! b;
  if decide (0 ≤ p) then row !! Z.to_nat p else None.

(** [tf.gather_nd(update, gather_index)] *)
Definition gather_nd (update : list (list V)) (ix : list (nat * nat))
  : option (list V) :=
  mapM (λ bk, row ← update !! bk.1; row !! bk.2) ix.

Definition scatter_one (c : list (list V)) (b : nat) (p : Z) (v : V)
  : option (list (list V)) :=
  row ← c !! b;
  if decide (0 ≤ p < Z.of_nat (length row))
  then Some (<[b := <[Z.to_nat p := v]> row]> c)
  else None.

(** [keras.ops.scatter_update(cache, scatter_index, update)] *)
Fixpoint scatter_update (c : list (list V)) (ix : list (nat * Z))
    (vals : list V) : option (list (list V)) :=
  match ix, vals with
  | [], [] => Some c
  | (b, p) :: ix', v :: vals' =>
      c' ← scatter_one c b p v; scatter_update c' ix' vals'
  | _, _ => None
  end.

Definition gather_index (rows : list (list Z)) : list (nat * nat) :=
  zip (value_rowids rows) (flat_values (ragged_range (row_lengths rows))).

Definition scatter_index (rows : list (list Z)) : list (nat * Z) :=
  zip (value_rowids rows) (flat_values rows).

Definition _cache_update (cache : list (list V)) (index : CacheIndex)
    (update : list (list V)) : option (list (list V)) :=
  let index := as_ragged index in
  update ← gather_nd update (gather_index index);
  scatter_update cache (scatter_index index) update.

End CacheUpdate.

(** *** Attention masks *)

(** [RaggedTensor.to_tensor(default_value)]: every row is padded on the
    right to the length of the longest row. *)
Definition to_tensor {A} (default_value : A) (rows : list (list A))
  : list (list A) :=
  let n := max_list (length <$> rows) in
  (λ r, r ++ replicate (n - length r) default_value) <$> rows.

(** [keras.ops.arange(n)] *)
Definition arange (n : nat) : list Z := Z.of_nat <$> seq 0 n.

Definition _compute_causal_mask (batch_size input_length output_length : nat)
    (cache_index : option CacheIndex) : list (list (list bool)) :=
  let i :=
    match cache_index with
    | None =>
        (* zeros((batch_size, 1)) + arange(output_length) *)
        (λ z : Z, Z.add z <$> arange output_length) <$> replicate batch_size 0
    | Some (RaggedIndex rows) => to_tensor (-1) rows
    | Some (DenseIndex rows) => rows
    end in
  let j := arange input_length in
  (* i[..., None] >= j[None, None, :] *)
  (λ row : list Z, (λ iq : Z, (λ jk : Z, iq >=? jk) <$> j) <$> row) <$> i.

(** A mask is a boolean tensor, or an [int32] tensor once it went
    through [keras.ops.cast(..., "int32")]. *)
Inductive Mask : Type :=
| BoolMask (m : list (list (list bool)))
| IntMask (m : list (list (list Z))).

(** Whether query [q] of row [b] may attend to key [j]: a non-zero
    entry. *)
Definition permits (m : Mask) (b q j : nat) : option bool :=
  match m with
  | BoolMask m => row ← m !! b; r ← row !! q; r !! j
  | IntMask m => row ← m !! b; r ← row !! q; negb ∘ Z.eqb 0 <$> r !! j
  end.

Definition cast_int32 (m : list (list (list bool))) : list (list (list Z)) :=
  (λ row : list (list bool), (λ r : list bool, Z.b2z <$> r) <$> row) <$> m.

(** [keras.ops.expand_dims(mask, axis=1)] *)
Definition expand_dims_1 {A} (m : list (list A)) : list (list (list A)) :=
  (λ r, [r]) <$> m.

(** Broadcasting of one axis: equal sizes pair up, a size-1 axis is
    repeated, anything else is a shape error. *)
Definition broadcast {A B C} (f : A → B → option C)
    (xs : list A) (ys : list B) : option (list C) :=
  if decide (length xs = length ys) then mapM (λ p, f p.1 p.2) (zip xs ys)
  else match xs, ys with
       | [x], _ => mapM (f x) ys
       | _, [y] => mapM (λ x, f x y) xs
       | _, _ => None
       end.

(** [keras.ops.minimum] on rank-3 tensors. *)
Definition minimum (x y : list (list (list Z))) : option (list (list (list Z))) :=
  broadcast (broadcast (broadcast (λ a b, Some (Z.min a b)))) x y.

(** What the mask computations read off the decoder (or encoder)
    sequence: its first two dimensions and the mask Keras attached to
    it, if any. *)
Record Sequence : Type := {
  seq_batch : nat;
  seq_length : nat;
  _keras_mask : option (list (list bool));
}.

Definition _merge_padding_and_attention_mask (inputs : Sequence)
    (padding_mask : option (list (list bool)))
    (attention_mask : option (list (list (list bool))))
  : Py.result (option (list (list (list Z)))) :=
  let mask := padding_mask in
  let mask := match mask with None => _keras_mask inputs | Some _ => mask end in
  let mask := cast_int32 ∘ expand_dims_1 <$> mask in
  match attention_mask with
  | Some attention_mask =>
      let attention_mask := cast_int32 attention_mask in
      match mask with
      | None => Py.Ok (Some attention_mask)
      | Some mask =>
          match minimum mask attention_mask with
          | Some m => Py.Ok (Some m)
          | None => Py.Raise Py.InvalidArgumentError
          end
      end
  | None => Py.Ok mask
  end.

(** [keras.ops.shape(self_attention_cache)[2]] of a layer cache of shape
    [(batch, 2, max_length, heads, head_dim)], given as its key and
    value parts. *)
Definition cache_max_length {V} (cache : list (list V) * list (list V)) : nat :=
  match cache.1 with
  | row :: _ => length row
  | [] => 0
  end.

Definition _compute_self_attention_mask {V} (decoder_sequence : Sequence)
    (decoder_padding_mask : option (list (list bool)))
    (decoder_attention_mask : option (list (list (list bool))))
    (use_causal_mask : bool)
    (self_attention_cache : option (list (list V) * list (list V)))
    (self_attention_cache_update_index : option CacheIndex)
  : Py.result (option Mask) :=
  let? decoder_mask :=
    _merge_padding_and_attention_mask
      decoder_sequence decoder_padding_mask decoder_attention_mask in
  if use_causal_mask then
    let batch_size := seq_batch decoder_sequence in
    let output_length := seq_length decoder_sequence in
    let input_length :=
      match self_attention_cache with
      | Some cache => cache_max_length cache
      | None => output_length
      end in
    let causal_mask :=
      _compute_causal_mask batch_size input_length output_length
        self_attention_cache_update_index in
    match decoder_mask with
    | Some decoder_mask =>
        match minimum decoder_mask (cast_int32 causal_mask) with
        | Some m => Py.Ok (Some (IntMask m))
        | None => Py.Raise Py.InvalidArgumentError
        end
    | None => Py.Ok (Some (BoolMask causal_mask))
    end
  else Py.Ok (IntMask <$> decoder_mask).

End Layers.

(** ** tokenizers.py *)

Module Tokenizers.

#[local] Open Scope string_scope.

Definition PAD_TOKEN : string := "[pad]".
Definition PAD_TOKEN_ID : Z := 0.
Definition OOV_TOKEN : string := "[oov]".
Definition OOV_TOKEN_ID : Z := 1.
Definition BOS_TOKEN : string := "[bos]".
Definition EOS_TOKEN : string := "[eos]".
Definition SEP_TOKEN : string := "[sep]".

(** *** Regular expressions

    A compiled pattern is represented by its anchored matcher: the
    length of the leftmost-first match that starts at the head of the
    text, if there is one.  No pattern of this module matches the empty
    string. *)

Definition matcher : Type := string → option nat.

Definition full_match (m : matcher) (s : string) : bool :=
  match m s with
  | Some n => Nat.eqb n (String.length s)
  | None => false
  end.

Definition emit (tok : string) (rest : list string) : list string :=
  if String.eqb tok "" then rest else tok :: rest.

(** [tf_text.regex_split(input, delim_regex_pattern,
    keep_delim_regex_pattern)]: the text is cut at every delimiter match;
    the non-empty pieces between delimiters are tokens, and so is every
    delimiter that fully matches the keep pattern.  [pending] counts the
    characters of the current delimiter not yet read, [tok] is the piece
    read so far. *)
Fixpoint regex_split_from (delim keep : matcher) (pending : nat) (tok : string)
    (s : string) : list string :=
  match s with
  | EmptyString => emit tok []
  | String c r =>
      let '(pre, pending, tok) :=
        match pending with
        | S _ => ([], pending, tok)
        | O =>
            match delim s with
            | Some (S k) => (emit tok [], S k, "")
            | _ => ([], O, tok)
            end
        end in
      let tok := tok ++ String c "" in
      match pending with
      | O => (pre ++ regex_split_from delim keep O tok r)%list
      | S O =>
          (pre ++ (if full_match keep tok then [tok] else [])
               ++ regex_split_from delim keep O "" r)%list
      | S (S k) => (pre ++ regex_split_from delim keep (S k) tok r)%list
      end
  end.

Definition regex_split (delim keep : matcher) (s : string) : list string :=
  regex_split_from delim keep 0 "" s.

(** [tf.strings.regex_replace(input, pattern, '')]: every match is
    deleted, scanning from the left without overlaps. *)
Fixpoint regex_replace_from (m : matcher) (pending : nat) (s : string) : string :=
  match s with
  | EmptyString => ""
  | String c r =>
      match pending with
      | S k => regex_replace_from m k r
      | O =>
          match m s with
          | Some (S k) => regex_replace_from m k r
          | _ => String c (regex_replace_from m O r)
          end
      end
  end.

Definition regex_replace (m : matcher) (s : string) : string :=
  regex_replace_from m 0 s.

Definition is_digit (c : ascii) : bool :=
  (48 <=? nat_of_ascii c)%nat && (nat_of_ascii c <=? 57)%nat.

Definition is_one_of (chars : string) (c : ascii) : bool :=
  existsb (Ascii.eqb c) (list_ascii_of_string chars).

(** The number of characters before the first ["]"]. *)
Fixpoint find_close (s : string) : option nat :=
  match s with
  | EmptyString => None
  | String c r => if Ascii.eqb c "]" then Some O else S <$> find_close r
  end.

Definition next_is (c : ascii) (s : string) : bool :=
  match s with
  | String c' _ => Ascii.eqb c' c
  | EmptyString => false
  end.

(** [SMILES_REGEX_PATTERN], alternative by alternative:
    [\[[^\]]+]], [Br?], [Cl?], the one-character tokens, [>>?], [\*],
    [\$], [\%[0-9]{2}] and [[0-9]]. *)
Definition SMILES_REGEX_PATTERN : matcher := λ s,
  match s with
  | EmptyString => None
  | String c r =>
      if Ascii.eqb c "[" then
        match find_close r with
        | Some (S n) => Some (n + 3)%nat
        | _ => None
        end
      else if Ascii.eqb c "B" then Some (if next_is "r" r then 2 else 1)%nat
      else if Ascii.eqb c "C" then Some (if next_is "l" r then 2 else 1)%nat
      else if is_one_of "NOSPFIbcnosp().=#-+\/:~@?" c then Some 1%nat
      else if Ascii.eqb c ">" then Some (if next_is ">" r then 2 else 1)%nat
      else if is_one_of "*$" c then Some 1%nat
      else if Ascii.eqb c "%" then
        match r with
        | String d1 (String d2 _) =>
            if is_digit d1 && is_digit d2 then Some 3%nat else None
        | _ => None
        end
      else if is_digit c then Some 1%nat
      else None
  end.

(** The length of the longest prefix without a newline: what [.*]
    matches. *)
Fixpoint line_length (s : string) : nat :=
  match s with
  | EmptyString => O
  | String c r => if Ascii.eqb c "010" then O else S (line_length r)
  end.

Fixpoint string_drop (n : nat) (s : string) : string :=
  match n, s with
  | O, _ => s
  | S n, String _ r => string_drop n r
  | S _, EmptyString => ""
  end.

(** [REGEX_PATTERN_CLEANUP]: [\[pad\]|\[bos\]|\[eos\].*] *)
Definition REGEX_PATTERN_CLEANUP : matcher := λ s,
  if String.prefix PAD_TOKEN s then Some (String.length PAD_TOKEN)
  else if String.prefix BOS_TOKEN s then Some (String.length BOS_TOKEN)
  else if String.prefix EOS_TOKEN s then
    Some (String.length EOS_TOKEN
          + line_length (string_drop (String.length EOS_TOKEN) s))%nat
  else None.

(** *** The tokenizer *)

Inductive PaddingMode : Type := PadLeft | PadRight.

Record Tokenizer : Type := {
  sequence_length : Py.obj;
  padding_mode : PaddingMode;
  pad_token : string;
  bos_token : option string;
  eos_token : option string;
  oov_token : string;
  sep_token : option string;
  pad_token_id : Z;
  oov_token_id : Z;
  bos_token_id : option Z;
  eos_token_id : Z;
  _special_tokens : list string;
  (** [_vocabulary], from which both lookup tables are built; [None]
      until [_create_lookup_tables] ran. *)
  _vocabulary : option (list string);
}.

(** [MutableHashTable.insert(keys, values)]: a later value replaces an
    earlier one of the same key. *)
Fixpoint table_insert (table : list (string * Z)) (k : string) (v : Z)
  : list (string * Z) :=
  match table with
  | [] => [(k, v)]
  | (k', v') :: rest =>
      if String.eqb k' k then (k, v) :: rest else (k', v') :: table_insert rest k v
  end.

Definition table_remove (table : list (string * Z)) (keys : list string)
  : list (string * Z) :=
  filter (λ kv, ¬ kv.1 ∈ keys) table.

(** The order of [np.lexsort((vocab, counts))[::-1]]: by decreasing
    count, ties by decreasing token. *)
Definition before (x y : string * Z) : bool :=
  (y.2 <? x.2)%Z || ((y.2 =? x.2)%Z && String.ltb y.1 x.1).

Fixpoint sort_insert (x : string * Z) (l : list (string * Z)) : list (string * Z) :=
  match l with
  | [] => [x]
  | y :: l' => if before x y then x :: l else y :: sort_insert x l'
  end.

Definition sort_table (l : list (string * Z)) : list (string * Z) :=
  foldr sort_insert [] l.

Definition _create_vocab (special_tokens : list string)
    (adapted_table : list (string * Z)) : list string :=
  let adapted_table := table_remove adapted_table special_tokens in
  let vocab := fst <$> sort_table adapted_table in
  (special_tokens ++ vocab)%list.

(** [tf.lookup.StaticHashTable] refuses an initializer that lists a key
    twice, with a [tf.errors.FailedPreconditionError]. *)
Definition _create_lookup_tables (vocabulary : list string)
  : Py.result (list string) :=
  if decide (NoDup vocabulary) then Py.Ok vocabulary
  else Py.Raise Py.FailedPreconditionError.

Definition Tokenizer_init (vocabulary : option (list string))
    (sequence_length : Py.obj) (add_bos add_eos : bool) (oov_token : string)
    (sep_token : option string) (padding_mode : string) : Py.M Tokenizer :=
  let* _ := Py.when_ (Py.truthy sequence_length && negb (Py.isinstance_int sequence_length))
        (Py.raise Py.ValueError) in
  let padding_mode := if String.eqb padding_mode "left" then PadLeft else PadRight in
  let bos_token := if add_bos then Some BOS_TOKEN else None in
  let eos_token := if add_eos then Some EOS_TOKEN else None in
  let bos_token_id := if Py.truthy_str bos_token then Some 2%Z else None in
  let eos_token_id := if Py.truthy_str eos_token then Some 3%Z else None in
  (* self.eos_token_id -= 1 if not self.bos_token else 0 *)
  let* eos_token_id := match eos_token_id with
                 | Some id =>
                     Py.ret (id - (if negb (Py.truthy_str bos_token) then 1 else 0))%Z
                 | None => Py.raise Py.TypeError
                 end in
  let special_tokens :=
    ([PAD_TOKEN]
     ++ (if negb (String.eqb oov_token "") then [oov_token] else [])
     ++ (if Py.truthy_str bos_token then from_option (λ t, [t]) [] bos_token else [])
     ++ (if Py.truthy_str eos_token then from_option (λ t, [t]) [] eos_token else []))%list in
  let* vocab := match vocabulary with
          | Some ((_ :: _) as vocabulary) =>
              let n := Z.of_nat (length vocabulary) in
              let adapted_table :=
                foldl (λ table kv, table_insert table kv.1 kv.2) []
                      (zip vocabulary ((λ i, n - Z.of_nat i)%Z <$> seq 0 (length vocabulary))) in
              let* _ := Py.tell Py.CreateVocab in
              let v := _create_vocab special_tokens adapted_table in
              let* _ := Py.tell Py.CreateLookupTables in
              let* v := Py.lift (_create_lookup_tables v) in
              Py.ret (Some v)
          | _ => Py.ret None
          end in
  Py.ret {| sequence_length := sequence_length;
          padding_mode := padding_mode;
          pad_token := PAD_TOKEN;
          bos_token := bos_token;
          eos_token := eos_token;
          oov_token := oov_token;
          sep_token := sep_token;
          pad_token_id := PAD_TOKEN_ID;
          oov_token_id := OOV_TOKEN_ID;
          bos_token_id := bos_token_id;
          eos_token_id := eos_token_id;
          _special_tokens := special_tokens;
          _vocabulary := vocab |}.

(** *** Tokenizing and detokenizing *)

Definition pretokenize (inputs : list string) : list (list string) :=
  regex_split SMILES_REGEX_PATTERN SMILES_REGEX_PATTERN <$> inputs.

(** [_lookup_table.lookup]: the id of a token is its place in the
    vocabulary. *)
Definition lookup_table (vocabulary : list string) (default : Z) (token : string) : Z :=
  match list_find (λ t, t = token) vocabulary with
  | Some (i, _) => Z.of_nat i
  | None => default
  end.

(** [_lookup_table_reverse.lookup] *)
Definition lookup_table_reverse (vocabulary : list string) (default : string)
    (id : Z) : string :=
  if decide (0 ≤ id)%Z then
    match vocabulary !! Z.to_nat id with
    | Some token => token
    | None => default
    end
  else default.

Definition token_to_id (self : Tokenizer) (token : list (list string))
  : Py.result (list (list Z)) :=
  match _vocabulary self with
  | None => Py.Raise Py.ValueError
  | Some v => Py.Ok ((λ row : list string, lookup_table v (oov_token_id self) <$> row) <$> token)
  end.

Definition id_to_token (self : Tokenizer) (index : list (list Z))
  : Py.result (list (list string)) :=
  match _vocabulary self with
  | None => Py.Raise Py.ValueError
  | Some v => Py.Ok ((λ row : list Z, lookup_table_reverse v (oov_token self) <$> row) <$> index)
  end.

Definition or_empty (token : option string) : string :=
  match token with Some t => t | None => "" end.

(** The second dimension of [to_tensor(shape=(None, n))]. *)
Definition as_dimension (n : Py.obj) : Py.result nat :=
  match n with
  | Py.PyInt z => if (0 <=? z)%Z then Py.Ok (Z.to_nat z) else Py.Raise Py.ValueError
  | Py.PyBool b => Py.Ok (if b then 1 else 0)%nat
  | _ => Py.Raise Py.TypeError
  end.

(** A row of [to_tensor(shape=(None, n), default_value)]: cut or padded
    on the right to [n] entries. *)
Definition fit_row {A} (n : nat) (default_value : A) (row : list A) : list A :=
  (take n row ++ replicate (n - length row) default_value)%list.

(** The dense branch of [tokenize]: for left padding the rows are
    reversed, cut or padded on the right, and reversed back. *)
Definition dense_token_ids (self : Tokenizer) (token_ids : list (list Z))
  : Py.result (list (list Z)) :=
  let? n := as_dimension (sequence_length self) in
  let token_ids : list (list Z) :=
    match padding_mode self with
    | PadLeft => reverse <$> token_ids
    | PadRight => token_ids
    end in
  let token_ids : list (list Z) := fit_row n (pad_token_id self) <$> token_ids in
  let token_ids : list (list Z) :=
    match padding_mode self with
    | PadLeft => reverse <$> token_ids
    | PadRight => token_ids
    end in
  Py.Ok token_ids.

Definition tokenize (self : Tokenizer) (inputs : Tf.tensor) (ragged : bool)
  : Py.result (list (list Z)) :=
  match inputs with
  | Tf.StringTensor inputs =>
      (* tf.strings.join([self.bos_token or '', inputs, self.eos_token or '']) *)
      let inputs :=
        (λ s, or_empty (bos_token self) ++ s ++ or_empty (eos_token self)) <$> inputs in
      let tokens := pretokenize inputs in
      let? token_ids := token_to_id self tokens in
      if negb (Py.truthy (sequence_length self)) || ragged then Py.Ok token_ids
      else dense_token_ids self token_ids
  | _ => Py.Raise Py.TypeError
  end.

(** [tf.strings.reduce_join(tokens, axis=-1)] *)
Definition reduce_join (tokens : list string) : string :=
  foldr String.append "" tokens.

Definition detokenize (self : Tokenizer) (inputs : list (list Z))
  : Py.result (list string) :=
  let? tokens := id_to_token self inputs in
  let sequences := reduce_join <$> tokens in
  Py.Ok (regex_replace REGEX_PATTERN_CLEANUP <$> sequences).

(** [pad(inputs, sequence_length, pad_value='auto')] with
    [sequence_length] given as ['auto'] ([None] here) or as a value. *)
Definition pad (self : Tokenizer) (inputs : list (list Z))
    (sequence_length_arg : option Py.obj) : Py.result (list (list Z)) :=
  let n := match sequence_length_arg with
           | None => sequence_length self
           | Some n => n
           end in
  match n with
  | Py.PyNone => Py.Ok (Layers.to_tensor (pad_token_id self) inputs)
  | _ => let? n := as_dimension n in Py.Ok (fit_row n (pad_token_id self) <$> inputs)
  end.

End Tokenizers.

(** ** samplers.py *)

Module Samplers.

Import Layers Tokenizers.

(** How the next token is chosen: the base [Sampler] draws from the
    temperature-scaled distribution, [TopKSampler] from its [k] best
    entries. *)
Inductive Policy : Type :=
| Categorical
| TopK (k : nat).

(** What [TransformerDecoder.call] returns: the logits alone, with the
    self-attention cache, or with both caches. *)
Inductive ModelOutput (Cache : Type) : Type :=
| Out1 (logits : list (list (list Q)))
| Out2 (logits : list (list (list Q))) (self_attention_cache : option Cache)
| Out3 (logits : list (list (list Q)))
       (self_attention_cache cross_attention_cache : option Cache).
Arguments Out1 {Cache} logits.
Arguments Out2 {Cache} logits self_attention_cache.
Arguments Out3 {Cache} logits self_attention_cache cross_attention_cache.

(** [x is not None] *)
Definition is_not_None {A} (x : option A) : bool :=
  match x with Some _ => true | None => false end.

Section Sampler.

(** The attention cache tensor
    [(batch, layers, 2, max_length, heads, head_dim)], and the state of
    the random generator [tf.random.categorical] draws from. *)
Variables (Cache Rng : Type).

(** [tf.random.categorical(logits, num_samples, dtype='int32')]: one
    row of [num_samples] class ids per row of [float32] logits. *)
Variable random_categorical :
  Rng → list (list Tf.float32) → nat → list (list Z) * Rng.

(** The floating-point kernels of the probability bookkeeping. *)
Variable log_softmax : list Q → list Q.
Variable exp : Q → Q.

(** The decoder stack: embeddings, decoder layers and output
    projection, as a function from the token ids, the caches and their
    update indices to the logits [(batch, length, vocabulary)] and the
    updated caches. *)
Record TransformerDecoder : Type := {
  model_sequence_length : nat;
  decoder_stack :
    list (list Z) → option Cache → option CacheIndex → option Tf.tensor →
    option Cache → option CacheIndex →
    list (list (list Q)) * option Cache * option Cache;
  initialize_attention_cache : nat → nat → Cache;
}.

Definition TransformerDecoder_call (self : TransformerDecoder)
    (decoder_sequence : list (list Z))
    (self_attention_cache : option Cache)
    (self_attention_cache_update_index : option CacheIndex)
    (encoder_output : option Tf.tensor)
    (cross_attention_cache : option Cache)
    (cross_attention_cache_update_index : option CacheIndex)
  : ModelOutput Cache :=
  let self_attention_caching := is_not_None self_attention_cache in
  let cross_attention_caching := is_not_None cross_attention_cache in
  let '(x, self_attention_cache, cross_attention_cache) :=
    decoder_stack self decoder_sequence
      self_attention_cache self_attention_cache_update_index
      encoder_output cross_attention_cache cross_attention_cache_update_index in
  if negb self_attention_caching && negb cross_attention_caching then Out1 x
  else if self_attention_caching && negb cross_attention_caching then
    Out2 x self_attention_cache
  else Out3 x self_attention_cache cross_attention_cache.

Record Sampler : Type := {
  model : TransformerDecoder;
  tokenizer : Tokenizer;
  temperature : Q;
  run_eagerly : bool;
  policy : Policy;
}.

Definition Sampler_init (model : TransformerDecoder) (tokenizer : Tokenizer)
    (temperature : Q) (run_eagerly : bool) : Py.M Sampler :=
  let* _ := Py.when_ (negb (Py.truthy_str (bos_token tokenizer)
                            && Py.truthy_str (eos_token tokenizer)))
              (Py.raise Py.ValueError) in
  Py.ret {| model := model;
            tokenizer := tokenizer;
            temperature := temperature;
            run_eagerly := run_eagerly;
            policy := Categorical |}.

Definition with_policy (self : Sampler) (policy : Policy) : Sampler :=
  {| model := model self;
     tokenizer := tokenizer self;
     temperature := temperature self;
     run_eagerly := run_eagerly self;
     policy := policy |}.

Definition TopKSampler_init (model : TransformerDecoder) (tokenizer : Tokenizer)
    (k : nat) (temperature : Q) (run_eagerly : bool) : Py.M Sampler :=
  let* self := Sampler_init model tokenizer temperature run_eagerly in
  Py.ret (with_policy self (TopK k)).

(** *** Choosing the next token *)

(** [logits / self.temperature], a [float32] tensor. *)
Definition scale (temperature : Q) (logits : list (list Q))
  : list (list Tf.float32) :=
  (λ row : list Q, (λ x, Tf.float32_div x temperature) <$> row) <$> logits.

(** [Sampler.get_next_token] *)
Definition Sampler_get_next_token (temperature : Q) (rng : Rng)
    (logits : list (list Q)) : list (list Z) * Rng :=
  random_categorical rng (scale temperature logits) 1.

(** The first largest entry of an indexed row. *)
Definition argmax (row : list (nat * Q)) : option (nat * Q) :=
  match row with
  | [] => None
  | p :: rest =>
      Some (foldl (λ best q, if Qlt_le_dec best.2 q.2 then q else best) p rest)
  end.

(** The [k] largest entries of a row with their places, largest first;
    among equal entries the lower place comes first. *)
Fixpoint top_k_row (k : nat) (row : list (nat * Q)) : option (list (nat * Q)) :=
  match k with
  | O => Some []
  | S k =>
      best ← argmax row;
      rest ← top_k_row k (filter (λ p, p.1 ≠ best.1) row);
      Some (best :: rest)
  end.

(** [keras.ops.top_k(x, k, sorted=False)]: values and indices. *)
Definition top_k (x : list (list Q)) (k : nat)
  : Py.result (list (list Q) * list (list Z)) :=
  match mapM (λ row : list Q, top_k_row k (imap (λ i v, (i, v)) row)) x with
  | Some best =>
      Py.Ok ((λ row : list (nat * Q), snd <$> row) <$> best,
             (λ row : list (nat * Q), Z.of_nat ∘ fst <$> row) <$> best)
  | None => Py.Raise Py.InvalidArgumentError
  end.

(** The place an index of [take_along_axis] stands for in a row of
    [n] entries: a negative index counts from the end. *)
Definition wrap_index (n : nat) (i : Z) : option nat :=
  let j := if decide (0 ≤ i)%Z then i else (i + Z.of_nat n)%Z in
  if decide (0 ≤ j)%Z then Some (Z.to_nat j) else None.

(** [keras.ops.take_along_axis(x, indices, axis=-1)] *)
Definition take_along_axis {A} (x : list (list A)) (indices : list (list Z))
  : Py.result (list (list A)) :=
  match mapM (λ p : list A * list Z,
                mapM (λ i : Z, j ← wrap_index (length p.1) i; p.1 !! j) p.2)
             (zip x indices) with
  | Some r => if decide (length x = length indices) then Py.Ok r
              else Py.Raise Py.InvalidArgumentError
  | None => Py.Raise Py.InvalidArgumentError
  end.

(** [TopKSampler.get_next_token] *)
Definition TopKSampler_get_next_token (k : nat) (temperature : Q) (rng : Rng)
    (logits : list (list Q)) : Py.result (list (list Z) * Rng) :=
  let? top := top_k logits k in
  let '(logits, indices) := top in
  let '(sample, rng) := Sampler_get_next_token temperature rng logits in
  let? token := take_along_axis indices sample in
  Py.Ok (token, rng).

(** [self.get_next_token], by the class of [self]. *)
Definition get_next_token (self : Sampler) (rng : Rng) (logits : list (list Q))
  : Py.result (list (list Z) * Rng) :=
  match policy self with
  | Categorical => Py.Ok (Sampler_get_next_token (temperature self) rng logits)
  | TopK k => TopKSampler_get_next_token k (temperature self) rng logits
  end.

(** *** Priming *)

(** The seven values [_prepare] returns. *)
Record Prepared : Type := {
  prepared_current_token : list Z;
  prepared_decoder_input : list (list Z);
  prepared_self_attention_cache : option Cache;
  prepared_self_attention_cache_update_index : CacheIndex;
  prepared_encoder_output : option Tf.tensor;
  prepared_cross_attention_cache : option Cache;
  prepared_cross_attention_cache_update_index : option CacheIndex;
}.

(** [decoder_input[:, -1:].to_tensor()[:, 0]]: the last token of every
    row, the padding value [0] for an empty row; there is no column
    [0] when no row has a token. *)
Definition last_tokens (rows : list (list Z)) : Py.result (list Z) :=
  let tails := to_tensor 0%Z ((λ row : list Z, drop (length row - 1) row) <$> rows) in
  match mapM (λ row : list Z, row !! 0%nat) tails with
  | Some column => if decide (rows = []) then Py.Raise Py.InvalidArgumentError
                   else Py.Ok column
  | None => Py.Raise Py.InvalidArgumentError
  end.

Definition ragged_range_index (lengths : list nat) : CacheIndex :=
  RaggedIndex ((λ row : list nat, Z.of_nat <$> row) <$> ragged_range lengths).

Definition _prepare (self : Sampler) (decoder_input : Tf.tensor)
    (encoder_output : option Tf.tensor) : Py.M Prepared :=
  let batch_size := Tf.shape0 decoder_input in
  let sequence_length := model_sequence_length (model self) in
  let* _ := Py.tell Py.Tokenize in
  let* decoder_input := Py.lift (tokenize (tokenizer self) decoder_input true) in
  (* decoder_input[:, :-1] *)
  let decoder_input := (λ row : list Z, take (length row - 1) row) <$> decoder_input in
  let sequence_lengths := row_lengths decoder_input in
  let* _ := Py.tell Py.InitializeAttentionCache in
  let self_attention_cache :=
    initialize_attention_cache (model self) batch_size sequence_length in
  let self_attention_cache_update_index := ragged_range_index sequence_lengths in
  let* cross :=
    match encoder_output with
    | Some _ =>
        let* _ := Py.tell Py.InitializeAttentionCache in
        Py.ret (Some (initialize_attention_cache (model self) batch_size sequence_length),
                Some (ragged_range_index sequence_lengths))
    | None => Py.ret (None, None)
    end in
  let '(cross_attention_cache, cross_attention_cache_update_index) := cross in
  let* current_token := Py.lift (last_tokens decoder_input) in
  let* decoder_sequence := Py.lift (pad (tokenizer self) decoder_input (Some Py.PyNone)) in
  let* _ := Py.tell Py.ModelCall in
  let outputs :=
    TransformerDecoder_call (model self) decoder_sequence
      (Some self_attention_cache) (Some self_attention_cache_update_index)
      encoder_output cross_attention_cache cross_attention_cache_update_index in
  (* _, attention_cache = self.model(...) *)
  let* attention_cache :=
    match outputs with
    | Out2 _ attention_cache => Py.ret attention_cache
    | _ => Py.raise Py.ValueError
    end in
  (* with an encoder output the pair could not have been unpacked above *)
  let self_attention_cache := attention_cache in
  let self_attention_cache_update_index :=
    (* ops.zeros(shape=(batch_size, 1), dtype='int32') *)
    DenseIndex (replicate batch_size [0%Z]) in
  Py.ret {| prepared_current_token := current_token;
            prepared_decoder_input := decoder_input;
            prepared_self_attention_cache := self_attention_cache;
            prepared_self_attention_cache_update_index :=
              self_attention_cache_update_index;
            prepared_encoder_output := encoder_output;
            prepared_cross_attention_cache := cross_attention_cache;
            prepared_cross_attention_cache_update_index :=
              cross_attention_cache_update_index |}.

(** *** Stepping *)

(** A [tf.TensorArray] of dynamic size: a place is unset until it is
    written. *)
Definition TensorArray (A : Type) : Type := list (option A).

(** [array.write(index, value)]: the array grows to hold the place
    [index]. *)
Definition TensorArray_write {A} (array : TensorArray A) (index : nat)
    (value : A) : TensorArray A :=
  if decide (index < length array)%nat then <[index := Some value]> array
  else (array ++ replicate (index - length array) None ++ [Some value])%list.

(** The loop variables of [_generate]; [tokens] is the [TensorArray]
    of per-step token vectors, every place of which is written;
    [rng] is the generator state the loop draws from. *)
Record LoopVars : Type := {
  tokens : list (list Z);
  log_probs : option (TensorArray (list Q));
  entropies : option (TensorArray (list Q));
  self_attention_cache : option Cache;
  self_attention_cache_update_index : option CacheIndex;
  encoder_output : option Tf.tensor;
  cross_attention_cache : option Cache;
  cross_attention_cache_update_index : option CacheIndex;
  rng : Rng;
}.

(** The number of columns of [tokens.stack()]. *)
Definition stack_width (stack : list (list Z)) : nat :=
  match stack with
  | row :: _ => length row
  | [] => O
  end.

(** [not all(any(tokens.stack() == stop_token_id, axis=0))] *)
Definition _cond (self : Sampler) (vars : LoopVars) : bool :=
  let stop_token_id := eos_token_id (tokenizer self) in
  let stack := tokens vars in
  negb (forallb
          (λ b, existsb (λ row : list Z,
                           match row !! b with
                           | Some t => Z.eqb t stop_token_id
                           | None => false
                           end) stack)
          (seq 0 (stack_width stack))).

(** [keras.ops.squeeze(x, axis=1)] *)
Definition squeeze_1 {A} (x : list (list A)) : Py.result (list A) :=
  match mapM (λ row : list A, match row with [a] => Some a | _ => None end) x with
  | Some r => Py.Ok r
  | None => Py.Raise Py.InvalidArgumentError
  end.

(** [index + 1] on a cache update index. *)
Definition increment (index : CacheIndex) : CacheIndex :=
  match index with
  | DenseIndex rows => DenseIndex ((λ row : list Z, Z.succ <$> row) <$> rows)
  | RaggedIndex rows => RaggedIndex ((λ row : list Z, Z.succ <$> row) <$> rows)
  end.

(** [_log_prob]: [keras.ops.take_along_axis(log_prob, token, axis=1)]
    with the token ids of rank 1 -- the step has squeezed them -- and
    the log-probabilities of rank 2: the ranks differ, which
    [take_along_axis] refuses. *)
Definition _log_prob (token : list Z) (log_prob : list (list Q)) : Py.result (list Q) :=
  Py.Raise Py.ValueError.

(** [_entropy]: zero-probability terms count as zero. *)
Definition _entropy (log_prob : list (list Q)) : list Q :=
  (λ row : list Q,
     let prob := exp <$> row in
     let log_prob := zip_with (λ p l, if Qeq_bool p 0 then 0%Q else l) prob row in
     Qopp (foldr Qplus 0%Q (zip_with Qmult log_prob prob))) <$> log_prob.

Definition _step (self : Sampler) (vars : LoopVars) : Py.M LoopVars :=
  let index := length (tokens vars) in
  (* tokens.read(index - 1), then expand_dims(axis=1) *)
  let* current_token :=
    match tokens vars !! (index - 1)%nat with
    | Some t => Py.ret t
    | None => Py.raise Py.InvalidArgumentError
    end in
  let current_token := (λ t : Z, [t]) <$> current_token in
  let* _ := Py.tell Py.ModelCall in
  let outputs :=
    TransformerDecoder_call (model self) current_token
      (self_attention_cache vars) (self_attention_cache_update_index vars)
      (encoder_output vars)
      (cross_attention_cache vars) (cross_attention_cache_update_index vars) in
  let '(logits, self_attention_cache, cross_attention_cache) :=
    match outputs with
    | Out1 logits =>
        (logits, self_attention_cache vars, cross_attention_cache vars)
    | Out2 logits self_attention_cache =>
        (logits, self_attention_cache, cross_attention_cache vars)
    | Out3 logits self_attention_cache cross_attention_cache =>
        (logits, self_attention_cache, cross_attention_cache)
    end in
  let* logits := Py.lift (squeeze_1 logits) in
  let* _ := Py.tell Py.NextToken in
  let* next := Py.lift (get_next_token self (rng vars) logits) in
  let '(next_token, rng) := next in
  let* next_token := Py.lift (squeeze_1 next_token) in
  let tokens := tokens vars ++ [next_token] in
  let log_prob := log_softmax <$> logits in
  let* log_probs :=
    match log_probs vars with
    | Some a => let* lp := Py.lift (_log_prob next_token log_prob) in
                Py.ret (Some (TensorArray_write a index lp))
    | None => Py.ret None
    end in
  let entropies :=
    match entropies vars with
    | Some a => Some (TensorArray_write a index (_entropy log_prob))
    | None => None
    end in
  Py.ret {| tokens := tokens;
            log_probs := log_probs;
            entropies := entropies;
            self_attention_cache := self_attention_cache;
            self_attention_cache_update_index :=
              increment <$> self_attention_cache_update_index vars;
            encoder_output := encoder_output vars;
            cross_attention_cache := cross_attention_cache;
            cross_attention_cache_update_index :=
              increment <$> cross_attention_cache_update_index vars;
            rng := rng |}.

(** [keras.ops.while_loop(cond, body, loop_vars)], on fuel: the
    condition is tested before every iteration. *)
Fixpoint while_loop {S} (fuel : nat) (cond : S → bool) (body : S → Py.M S)
    (loop_vars : S) : Py.M S :=
  if cond loop_vars then
    match fuel with
    | O => Py.mkM Py.OutOfFuel []
    | S fuel =>
        let* loop_vars := body loop_vars in
        while_loop fuel cond body loop_vars
    end
  else Py.ret loop_vars.

(** [x or ()] for a loop variable that is a tensor or [None]: [None]
    gives [()], and a tensor of several elements -- an encoder
    output, a cache, the cache indices of a batch -- has no truth
    value. Tensors of one element, which Python keeps or drops by
    their value, are not modelled. *)
Definition or_unit {A} (x : option A) : Py.M (option A) :=
  match x with
  | None => Py.ret None
  | Some _ => Py.raise Py.ValueError
  end.

(** [keras.ops.transpose(array.stack())] *)
Definition _unpack_array (array : list (list Z)) : list (list Z) :=
  (λ b, (λ row : list Z, nth b row 0%Z) <$> array) <$> seq 0 (stack_width array).

(** [_generate] returns the loop variables at the exit of the loop;
    its three results are [_unpack_array] of their [tokens] and their
    [log_probs] and [entropies]. *)
Definition _generate (self : Sampler) (fuel : nat) (rng : Rng)
    (current_token : list Z)
    (log_probs entropies : option (TensorArray (list Q)))
    (self_attention_cache : option Cache)
    (self_attention_cache_update_index : option CacheIndex)
    (encoder_output : option Tf.tensor)
    (cross_attention_cache : option Cache)
    (cross_attention_cache_update_index : option CacheIndex)
  : Py.M LoopVars :=
  let tokens := [current_token] in
  let* encoder_output := or_unit encoder_output in
  let* cross_attention_cache := or_unit cross_attention_cache in
  let* cross_attention_cache_update_index :=
    or_unit cross_attention_cache_update_index in
  while_loop fuel (_cond self) (_step self)
    {| tokens := tokens;
       log_probs := log_probs;
       entropies := entropies;
       self_attention_cache := self_attention_cache;
       self_attention_cache_update_index := self_attention_cache_update_index;
       encoder_output := encoder_output;
       cross_attention_cache := cross_attention_cache;
       cross_attention_cache_update_index := cross_attention_cache_update_index;
       rng := rng |}.

(** *** The public calls *)

(** [keras.ops.concatenate([decoder_input, tokens], axis=1)] *)
Definition concatenate_1 (x y : list (list Z)) : Py.result (list (list Z)) :=
  if decide (length x = length y) then Py.Ok (zip_with app x y)
  else Py.Raise Py.InvalidArgumentError.

Definition Sampler_call (self : Sampler) (fuel : nat) (rng : Rng)
    (decoder_input : Tf.tensor) (encoder_output : option Tf.tensor)
  : Py.M (list string) :=
  let* prepared := _prepare self decoder_input encoder_output in
  let last_token := prepared_current_token prepared in
  let decoder_input := prepared_decoder_input prepared in
  let* final :=
    _generate self fuel rng last_token None None
      (prepared_self_attention_cache prepared)
      (Some (prepared_self_attention_cache_update_index prepared))
      (prepared_encoder_output prepared)
      (prepared_cross_attention_cache prepared)
      (prepared_cross_attention_cache_update_index prepared) in
  let tokens := _unpack_array (tokens final) in
  let* decoder_output := Py.lift (concatenate_1 decoder_input tokens) in
  let* _ := Py.tell Py.Detokenize in
  Py.lift (detokenize (tokenizer self) decoder_output).

Definition sample (self : Sampler) (fuel : nat) (rng : Rng)
    (decoder_sequence : Tf.arg) (encoder_sequence : option Tf.arg)
  : Py.M (list string) :=
  let* decoder_sequence :=
    if negb (Tf.is_tensor decoder_sequence) then
      let decoder_sequence := Tf.convert_to_tensor decoder_sequence in
      if negb (Tf.is_string decoder_sequence) then Py.raise Py.ValueError
      else Py.ret decoder_sequence
    else Py.ret (Tf.convert_to_tensor decoder_sequence) in
  let* encoder_sequence :=
    match encoder_sequence with
    | Some encoder_sequence =>
        if negb (Tf.is_tensor encoder_sequence) then
          let encoder_sequence := Tf.convert_to_tensor encoder_sequence in
          if negb (Tf.is_string encoder_sequence) then Py.raise Py.ValueError
          else Py.ret (Some encoder_sequence)
        else Py.ret (Some (Tf.convert_to_tensor encoder_sequence))
    | None => Py.ret None
    end in
  Sampler_call self fuel rng decoder_sequence encoder_sequence.

End Sampler.

Arguments model_sequence_length {Cache} _.
Arguments decoder_stack {Cache} _.
Arguments initialize_attention_cache {Cache} _.
Arguments TransformerDecoder_call {Cache} self decoder_sequence _ _ _ _ _.
Arguments model {Cache} _.
Arguments tokenizer {Cache} _.
Arguments temperature {Cache} _.
Arguments run_eagerly {Cache} _.
Arguments policy {Cache} _.
Arguments Sampler_init {Cache} model tokenizer temperature run_eagerly.
Arguments with_policy {Cache} self policy.
Arguments TopKSampler_init {Cache} model tokenizer k temperature run_eagerly.
Arguments Sampler_get_next_token {Rng} random_categorical temperature rng logits.
Arguments TopKSampler_get_next_token {Rng} random_categorical k temperature rng logits.
Arguments get_next_token {Cache Rng} random_categorical self rng logits.
Arguments prepared_current_token {Cache} _.
Arguments prepared_decoder_input {Cache} _.
Arguments prepared_self_attention_cache {Cache} _.
Arguments prepared_self_attention_cache_update_index {Cache} _.
Arguments prepared_encoder_output {Cache} _.
Arguments prepared_cross_attention_cache {Cache} _.
Arguments prepared_cross_attention_cache_update_index {Cache} _.
Arguments _prepare {Cache} self decoder_input encoder_output.
Arguments tokens {Cache Rng} _.
Arguments log_probs {Cache Rng} _.
Arguments entropies {Cache Rng} _.
Arguments self_attention_cache {Cache Rng} _.
Arguments self_attention_cache_update_index {Cache Rng} _.
Arguments encoder_output {Cache Rng} _.
Arguments cross_attention_cache {Cache Rng} _.
Arguments cross_attention_cache_update_index {Cache Rng} _.
Arguments rng {Cache Rng} _.
Arguments _cond {Cache Rng} self vars.
Arguments _step {Cache Rng} random_categorical log_softmax exp self vars.
Arguments _generate {Cache Rng} random_categorical log_softmax exp self fuel rng
  current_token log_probs entropies _ _ _ _ _.
Arguments Sampler_call {Cache Rng} random_categorical log_softmax exp self fuel rng
  decoder_input encoder_output.
Arguments sample {Cache Rng} random_categorical log_softmax exp self fuel rng
  decoder_sequence encoder_sequence.

End Samplers.

(** ** The scenario of the specification

    Vocabulary [[pad]=0, [oov]=1, [bos]=2, [eos]=3, A=4, B=5], prompt
    ["A"], and a stub decoder whose logits put all weight on [B] after an
    [A] and on [[eos]] after anything else. *)

Module Scenario.

Import Layers Tokenizers Samplers.

Definition one_hot (size hot : nat) : list Q :=
  (λ i, if Nat.eqb i hot then 1%Q else 0%Q) <$> seq 0 size.

Definition stub_logits (token : Z) : list Q :=
  if Z.eqb token 4 then one_hot 6 5 else one_hot 6 3.

(** The stub keeps no attention state: its cache is [unit]. *)
Definition stub_stack (decoder_sequence : list (list Z))
    (self_attention_cache : option unit) (_ : option CacheIndex)
    (_ : option Tf.tensor) (cross_attention_cache : option unit)
    (_ : option CacheIndex)
  : list (list (list Q)) * option unit * option unit :=
  ((λ row : list Z, stub_logits <$> row) <$> decoder_sequence,
   self_attention_cache, cross_attention_cache).

Definition stub_model : TransformerDecoder unit :=
  {| model_sequence_length := 8;
     decoder_stack := stub_stack;
     initialize_attention_cache := λ _ _, () |}.

(** The classes of a row whose logit is finite: the kernel of
    [tf.random.categorical] gives no weight to the others. *)
Definition finite_classes (row : list Tf.float32) : list nat :=
  fst <$> filter (λ p : nat * Tf.float32, Tf.is_finite p.2 = true)
                 (imap (λ i x, (i, x)) row).

(** A generator that always draws the first class of finite logit; in
    a row without one the kernel finds no class and returns their
    number. *)
Definition first_class (g : unit) (logits : list (list Tf.float32))
    (num_samples : nat) : list (list Z) * unit :=
  ((λ row : list Tf.float32,
      replicate num_samples
        (Z.of_nat (default (length row) (head (finite_classes row)))))
     <$> logits, g).

(** A generator that draws the last class of finite logit of every
    row. *)
Definition last_class (g : unit) (logits : list (list Tf.float32))
    (num_samples : nat) : list (list Z) * unit :=
  ((λ row : list Tf.float32,
      replicate num_samples
        (Z.of_nat (default (length row) (last (finite_classes row)))))
     <$> logits, g).

Definition no_tokenizer : Tokenizer :=
  {| sequence_length := Py.PyNone; padding_mode := PadRight;
     pad_token := PAD_TOKEN; bos_token := None; eos_token := None;
     oov_token := OOV_TOKEN; sep_token := None;
     pad_token_id := PAD_TOKEN_ID; oov_token_id := OOV_TOKEN_ID;
     bos_token_id := None; eos_token_id := 3;
     _special_tokens := []; _vocabulary := None |}.

(** [Tokenizer(vocabulary=['A', 'B'], add_bos=True, add_eos=True)] *)
Definition scenario_tokenizer : Tokenizer :=
  match Py.outcome (Tokenizer_init (Some ["A"; "B"]%string) Py.PyNone true true
                      OOV_TOKEN None "right") with
  | Py.Ok t => t
  | _ => no_tokenizer
  end.

(** [TopKSampler(stub_model, tokenizer, k=1)] *)
Definition scenario_sampler : Sampler unit :=
  match Py.outcome (TopKSampler_init stub_model scenario_tokenizer 1 (7 # 10) false) with
  | Py.Ok s => s
  | _ => {| model := stub_model; tokenizer := no_tokenizer; temperature := 1;
            run_eagerly := false; policy := Categorical |}
  end.

Definition scenario_sample (fuel : nat) : Py.M (list string) :=
  sample first_class (λ l, l) (λ x, x) scenario_sampler fuel ()
    (Tf.Value (Tf.StringTensor ["A"%string])) None.

End Scenario.


(** ** Notions used in the statements *)

Import Layers Tokenizers Samplers Scenario.

(** *** Attention cache and masks *)

(** A flat scatter pair [(row, position)] lies inside the cache. *)
Definition in_range {V} (c : list (list V)) (bp : nat * Z) : Prop :=
  ∃ row, c !! bp.1 = Some row ∧ 0 ≤ bp.2 < Z.of_nat (length row).

(** The flat index lists of [_cache_update] when the first row has id
    [b0]. *)
Definition scatter_index_from (b0 : nat) (rows : list (list Z)) : list (nat * Z) :=
  zip (value_rowids_from b0 rows) (flat_values rows).

Definition gather_index_from (b0 : nat) (rows : list (list Z)) : list (nat * nat) :=
  zip (value_rowids_from b0 rows) (flat_values (ragged_range (row_lengths rows))).

(** The absolute sequence position of query [q] of batch row [b]: its
    place [q] in the decoder sequence when no cache index is given, and
    otherwise the cache index entry of that query -- for a decode step
    the row's scalar index [c] (the single query [0] offset by [c]), for
    priming the entry [q] of the ragged range. *)
Definition query_position (decoder_sequence : Sequence)
    (cache_index : option CacheIndex) (b q : nat) : option Z :=
  match cache_index with
  | None =>
      if decide (b < seq_batch decoder_sequence
                 ∧ q < seq_length decoder_sequence)%nat
      then Some (Z.of_nat q) else None
  | Some index => row ← as_ragged index !! b; row !! q
  end.

(** The decoder sequence of a decode step: one token per row. *)
Definition step_sequence : Sequence :=
  {| seq_batch := 1; seq_length := 1; _keras_mask := None |}.

Close Scope Z_scope.

(** *** Tokenizer *)

(** A delimiter pattern is kept by a keep pattern when each of its
    matches lies inside the text and is fully matched by the keep
    pattern. *)
Definition kept (delim keep : matcher) : Prop :=
  ∀ s n, delim s = Some n →
    (n ≤ String.length s)%nat ∧ full_match keep (substring 0 n s) = true.

(** The text [m] occurs in [s]. *)
Fixpoint occurs (m s : string) : bool :=
  String.prefix m s
  || match s with
     | EmptyString => false
     | String _ r => occurs m r
     end.

(** [s] contains none of the texts the cleanup pattern deletes. *)
Definition no_markers (s : string) : bool :=
  negb (occurs PAD_TOKEN s) && negb (occurs BOS_TOKEN s) && negb (occurs EOS_TOKEN s).

(** Padding text: [n] copies of ["[pad]"]. *)
Definition pads (n : nat) : string := reduce_join (replicate n PAD_TOKEN).

(** The text [tokenize] splits: [s] between the begin and end markers. *)
Definition marked (self : Tokenizer) (s : string) : string :=
  String.append (or_empty (bos_token self))
                (String.append s (or_empty (eos_token self))).

Definition tokens_of (self : Tokenizer) (s : string) : list string :=
  regex_split SMILES_REGEX_PATTERN SMILES_REGEX_PATTERN (marked self s).

(** The tokens of [s] are not cut: the result is ragged, or they fit
    the sequence length. *)
Definition fits (self : Tokenizer) (ragged : bool) (s : string) : Prop :=
  Py.truthy (sequence_length self) = false ∨ ragged = true
  ∨ ∃ n, as_dimension (sequence_length self) = Py.Ok n
       ∧ (length (tokens_of self s) ≤ n)%nat.

(** One row of [detokenize] of a tokenizer with vocabulary [v]. *)
Definition detokenize_row_of (self : Tokenizer) (v : list string) (row : list Z)
  : string :=
  regex_replace REGEX_PATTERN_CLEANUP
    (reduce_join (lookup_table_reverse v (oov_token self) <$> row)).

(** [Tokenizer(vocabulary=['C'], sequence_length=4, add_bos=True,
    add_eos=True)] *)
Definition carbon_tokenizer : Tokenizer :=
  match Py.outcome (Tokenizer_init (Some ["C"%string]) (Py.PyInt 4) true true
                      OOV_TOKEN None "right") with
  | Py.Ok t => t
  | _ => no_tokenizer
  end.

(** *** Sampler *)

(** The argument is not a tensor and its conversion is not a string
    tensor: the case [sample] checks. *)
Definition checked_non_string (x : Tf.arg) : bool :=
  negb (Tf.is_tensor x) && negb (Tf.is_string (Tf.convert_to_tensor x)).

Definition count_event (ev : Py.event) (t : list Py.event) : nat :=
  length (filter (λ e, e = ev) t).

(** Batch element [b] has the end token among the buffered tokens. *)
Definition emitted (eos : Z) (stack : list (list Z)) (b : nat) : Prop :=
  ∃ row, row ∈ stack ∧ row !! b = Some eos.

(** The contract of [tf.random.categorical]: a row of [num_samples]
    class ids for every row of logits. The kernel sums the weights of
    the finite logits of a row and searches the class where the running
    sum exceeds a uniform draw: in a row with a finite logit each id is
    a class of that row, in a row of classes without a finite logit the
    search finds no class and the id is the number of classes. *)
Definition categorical_contract {Rng}
    (random_categorical : Rng → list (list Tf.float32) → nat → list (list Z) * Rng)
  : Prop :=
  ∀ g logits n,
    Forall2 (λ (row : list Tf.float32) (ids : list Z),
               length ids = n
               ∧ (row ≠ [] →
                  if existsb Tf.is_finite row
                  then Forall (λ c, 0 ≤ c < Z.of_nat (length row))%Z ids
                  else Forall (λ c, c = Z.of_nat (length row)) ids))
            logits (random_categorical g logits n).1.

(** A quotient that [float32] division does not turn into an infinity. *)
Definition within_float32 (q : Q) : Prop :=
  (- Tf.FLOAT32_OVERFLOW < q)%Q ∧ (q < Tf.FLOAT32_OVERFLOW)%Q.

(** The place and value of the first largest entry of a row. *)
Definition best (row : list Q) : nat * Q :=
  default (0%nat, 0%Q) (argmax (imap (λ i v, (i, v)) row)).

(** The scenario, call by call. *)
Definition scenario_prepare : Py.M (Prepared unit) :=
  _prepare scenario_sampler (Tf.StringTensor ["A"%string]) None.

Definition scenario_generate (fuel : nat) (prepared : Prepared unit)
  : Py.M (LoopVars unit unit) :=
  _generate first_class (λ l, l) (λ x, x) scenario_sampler fuel ()
    (prepared_current_token prepared) None None
    (prepared_self_attention_cache prepared)
    (Some (prepared_self_attention_cache_update_index prepared))
    (prepared_encoder_output prepared)
    (prepared_cross_attention_cache prepared)
    (prepared_cross_attention_cache_update_index prepared).

Definition scenario_loop_vars : LoopVars unit unit :=
  {| tokens := [[4%Z]]; log_probs := None; entropies := None;
     self_attention_cache := Some ();
     self_attention_cache_update_index := Some (DenseIndex [[0%Z]]);
     encoder_output := None; cross_attention_cache := None;
     cross_attention_cache_update_index := None; rng := () |}.

Definition scenario_final_vars : LoopVars unit unit :=
  {| tokens := [[4]; [5]; [3]]%Z; log_probs := None; entropies := None;
     self_attention_cache := Some ();
     self_attention_cache_update_index := Some (DenseIndex [[2%Z]]);
     encoder_output := None; cross_attention_cache := None;
     cross_attention_cache_update_index := None; rng := () |}.


(** ** Further code of tokenizers.py *)

(** *** Reaction strings: [truncate_product] and [extract_product] *)

(** [s.split(sep)] for a separator that is not empty: the pieces between
    the occurrences of [sep], found from the left without overlaps;
    [pending] counts the characters of the current occurrence not yet
    read, [piece] is the piece read so far. *)
Fixpoint split_from (sep : string) (pending : nat) (piece : string) (s : string)
  : list string :=
  match s with
  | EmptyString => [piece]
  | String c r =>
      match pending with
      | S k => split_from sep k piece r
      | O =>
          if String.prefix sep s
          then piece :: split_from sep (String.length sep - 1) EmptyString r
          else split_from sep 0 (String.append piece (String c EmptyString)) r
      end
  end.

(** [s.split(sep)]: an empty separator is a [ValueError]. *)
Definition str_split (s sep : string) : Py.result (list string) :=
  if String.eqb sep EmptyString then Py.Raise Py.ValueError
  else Py.Ok (split_from sep 0 EmptyString s).

(** [sep.join(pieces)] *)
Definition str_join (sep : string) (pieces : list string) : string :=
  String.concat sep pieces.

(** [list(map(f, l))] for an [f] that may raise: the first error wins. *)
Fixpoint list_map {A B : Type} (f : A -> Py.result B) (l : list A)
  : Py.result (list B) :=
  match l with
  | [] => Py.Ok []
  | x :: l =>
      let? y := f x in
      let? ys := list_map f l in
      Py.Ok (y :: ys)
  end.

(** The argument of [truncate_product] and [extract_product]: a [str] or
    a Python list of [str]. *)
Inductive smiles_arg : Type :=
| Smiles (s : string)
| SmilesList (l : list string).

(** For a list the source evaluates [smiles.__class__()], an empty list,
    then the argument [list(map(..., smiles))], which splits every
    element, and then calls the empty list: a [TypeError]. *)
Definition truncate_product (smiles : smiles_arg) (sep : string)
  : Py.result string :=
  match smiles with
  | Smiles smiles =>
      let? pieces := str_split smiles sep in
      (* sep.join(smiles.split(sep)[:-1]) + sep *)
      Py.Ok (String.append (str_join sep (take (length pieces - 1) pieces)) sep)
  | SmilesList l =>
      let? _ := list_map (fun s => str_split s sep) l in
      Py.Raise Py.TypeError
  end.

(** For a list, [map] is called with the function alone: a [TypeError]. *)
Definition extract_product (smiles : smiles_arg) (sep : string)
  : Py.result string :=
  match smiles with
  | Smiles smiles =>
      let? pieces := str_split smiles sep in
      (* smiles.split(sep)[-1]; [split] returns at least one piece *)
      match last pieces with
      | Some piece => Py.Ok piece
      | None => Py.Raise Py.InvalidArgumentError
      end
  | SmilesList _ => Py.Raise Py.TypeError
  end.

(** *** Adapting to data *)

#[warnings="-abstract-large-number"]
Definition DEFAULT_ADAPT_BATCH_SIZE : nat := 8192.

(** [ds.batch(size)]: consecutive batches of [size] elements, the last
    one possibly smaller; [room] is what the current batch can still
    take. *)
Fixpoint batch_from {A} (size room : nat) (current : list A) (l : list A)
  : list (list A) :=
  match l with
  | [] => match current with [] => [] | _ => [current] end
  | x :: l =>
      match room with
      | S (S room) => batch_from size (S room) (current ++ [x]) l
      | _ => (current ++ [x]) :: batch_from size size [] l
      end
  end.

Definition batch {A} (size : nat) (l : list A) : list (list A) :=
  batch_from size size [] l.

(** [MutableHashTable.lookup] with [default_value=0]. *)
Definition table_lookup (table : list (string * Z)) (k : string) : Z :=
  match list_find (fun kv : string * Z => fst kv = k) table with
  | Some (_, kv) => snd kv
  | None => 0%Z
  end.

(** [tf.unique_with_counts]: the distinct tokens in the order of their
    first occurrence, each with the number of its occurrences. *)
Definition unique_with_counts (tokens : list string) : list (string * Z) :=
  foldl (fun acc t => table_insert acc t (table_lookup acc t + 1)%Z) [] tokens.

(** [adapt_fn]: counts the tokens of one batch into the table and
    returns the length of its longest token row. *)
Definition adapt_fn (adapted_table : list (string * Z)) (inputs : list string)
  : list (string * Z) * nat :=
  let tokens := pretokenize inputs in
  (* tokens.bounding_shape(axis=1) *)
  let max_sequence_length := max_list (length <$> tokens) in
  let tokens := flat_values tokens in
  let unique := unique_with_counts tokens in
  let tokens := fst <$> unique in
  let counts := snd <$> unique in
  (* counts + adapted_table.lookup(tokens) *)
  let counts := zip_with Z.add counts (table_lookup adapted_table <$> tokens) in
  (foldl (fun table kv => table_insert table (fst kv) (snd kv)) adapted_table
     (zip tokens counts),
   max_sequence_length).

(** The argument [data] of [adapt]: a Python list of strings, or a
    [tf.data.Dataset], given by its elements. *)
Inductive adapt_data : Type :=
| DataList (data : list string)
| DataDataset (elements : list (list string)).

(** [adapt] returns the adapted tokenizer, or fails on the local
    variable [ds], which is bound only when [data] is no dataset. *)
Inductive adapt_outcome : Type :=
| UnboundLocalError
| Adapted (r : Py.result Tokenizer).

Definition adapt (self : Tokenizer) (data : adapt_data) (adapt_sequence_length : bool)
  : adapt_outcome :=
  match data with
  | DataDataset _ => UnboundLocalError
  | DataList data =>
      let ds := batch DEFAULT_ADAPT_BATCH_SIZE data in
      let '(adapted_table, global_max_sequence_length) :=
        foldl (fun (state : list (string * Z) * nat) x =>
                 let '(table, max_sequence_length) := adapt_fn (fst state) x in
                 (table, Nat.max (snd state) max_sequence_length))
              ([], O) ds in
      let sequence_length :=
        if adapt_sequence_length then Py.PyInt (Z.of_nat global_max_sequence_length)
        else sequence_length self in
      let vocabulary := _create_vocab (_special_tokens self) adapted_table in
      Adapted
        (let? vocabulary := _create_lookup_tables vocabulary in
         Py.Ok {| sequence_length := sequence_length;
                  padding_mode := padding_mode self;
                  pad_token := pad_token self;
                  bos_token := bos_token self;
                  eos_token := eos_token self;
                  oov_token := oov_token self;
                  sep_token := sep_token self;
                  pad_token_id := pad_token_id self;
                  oov_token_id := oov_token_id self;
                  bos_token_id := bos_token_id self;
                  eos_token_id := eos_token_id self;
                  _special_tokens := _special_tokens self;
                  _vocabulary := Some vocabulary |})
  end.

(** *** Configuration *)

Definition get_vocabulary (self : Tokenizer) : option (list string) :=
  _vocabulary self.

Definition special_token_ids (self : Tokenizer) : list Z :=
  Z.of_nat <$> seq 0 (length (_special_tokens self)).

(** The entries [get_config] adds to the configuration of a layer. *)
Record Config : Type := {
  config_vocabulary : option (list string);
  config_sequence_length : Py.obj;
  config_add_bos : bool;
  config_add_eos : bool;
  config_oov_token : string;
  config_sep_token : option string;
}.

Definition get_config (self : Tokenizer) : Config :=
  {| config_vocabulary := get_vocabulary self;
     config_sequence_length := sequence_length self;
     config_add_bos := is_not_None (bos_token self);
     config_add_eos := is_not_None (eos_token self);
     config_oov_token := oov_token self;
     config_sep_token := sep_token self |}.

(** [from_config(config)] of a layer calls the class with the entries
    of the configuration as keyword arguments: the padding mode is no
    entry of the configuration and takes its default. *)
Definition from_config (config : Config) : Py.M Tokenizer :=
  Tokenizer_init (config_vocabulary config) (config_sequence_length config)
    (config_add_bos config) (config_add_eos config) (config_oov_token config)
    (config_sep_token config) "right".

(** ** Further code of layers.py and models.py: the decoder stack *)

Module Models.

(** The ways a call of the decoder can fail: on a local variable that
  was never bound, on a list index, or with an exception raised by an
  operation. *)
Inductive error : Type :=
| UnboundLocalError
| IndexError
| Raised (e : Py.exn).

Inductive attempt (A : Type) : Type :=
| Returned (a : A)
| Failed (e : error).
Arguments Returned {A} a.
Arguments Failed {A} e.

Definition and_then {A B} (m : attempt A) (f : A -> attempt B) : attempt B :=
match m with
| Returned a => f a
| Failed e => Failed e
end.

Section Decoder.

(** [X]: activations [(batch, length, features)]; [C]: the attention
  cache of one layer [(batch, 2, max_length, heads, head_dim)]. *)
Variables (X C : Type).

(** An attention layer ([KeyValueCachedMultiHeadAttention.call]) with
  the attention mask, residual connection, normalization and dropout
  the decoder layer puts around it: without a cache it returns the
  attention output alone, with a cache the output and the cache
  (updated when an update index is given). The arithmetic is kept
  abstract; any of it may raise. *)
Record AttentionBlock (Value : Type) : Type := {
attend : X -> Value -> attempt X;
attend_cached : X -> Value -> C -> option CacheIndex -> attempt (X * C);
}.
Arguments attend {Value} _.
Arguments attend_cached {Value} _.

(** The attention output, and the cache variable after the call. *)
Definition attention {Value} (block : AttentionBlock Value) (x : X) (value : Value)
  (cache : option C) (cache_update_index : option CacheIndex)
: attempt (X * option C) :=
match cache with
| None =>
    and_then (attend block x value) (fun x => Returned (x, None))
| Some cache =>
    and_then (attend_cached block x value cache cache_update_index)
      (fun xc => Returned (fst xc, Some (snd xc)))
end.

(** [TransformerDecoderLayer]: its self-attention, its cross-attention
  layer if it was built with one, and its feed-forward part. *)
Record TransformerDecoderLayer : Type := {
self_attention_layer : AttentionBlock unit;
cross_attention_layer : option (AttentionBlock (option Tf.tensor));
feedforward : X -> X;
}.

(** What [TransformerDecoderLayer.call] returns: [x],
  [(x, self_attention_cache)] or
  [(x, self_attention_cache, cross_attention_cache)]. *)
Inductive LayerOutput : Type :=
| Alone (x : X)
| WithSelf (x : X) (self_attention_cache : C)
| WithBoth (x : X) (self_attention_cache : C) (cross_attention_cache : option C).

Definition TransformerDecoderLayer_call (self : TransformerDecoderLayer)
  (decoder_sequence : X) (encoder_sequence : option Tf.tensor)
  (self_attention_cache : option C)
  (self_attention_cache_update_index : option CacheIndex)
  (cross_attention_cache : option C)
  (cross_attention_cache_update_index : option CacheIndex)
: attempt LayerOutput :=
and_then
  (attention (self_attention_layer self) decoder_sequence tt
     self_attention_cache self_attention_cache_update_index)
  (fun xs =>
     let x := fst xs in
     let self_attention_cache := snd xs in
     and_then
       (match cross_attention_layer self with
        | Some layer =>
            attention layer x encoder_sequence
              cross_attention_cache cross_attention_cache_update_index
        | None => Returned (x, cross_attention_cache)
        end)
       (fun xc =>
          let x := feedforward self (fst xc) in
          let cross_attention_cache := snd xc in
          match self_attention_cache with
          | Some self_attention_cache =>
              match cross_attention_layer self with
              | Some _ =>
                  Returned (WithBoth x self_attention_cache cross_attention_cache)
              | None => Returned (WithSelf x self_attention_cache)
              end
          | None => Returned (Alone x)
          end)).

(** [TransformerDecoder]: the embeddings (token plus position), the
  decoder layers and the output projection. *)
Record TransformerDecoder : Type := {
embedding : list (list Z) -> option CacheIndex -> attempt X;
decoder_layers : list TransformerDecoderLayer;
dense : X -> list (list (list Q));
}.

(** [cache[:, i, :, :, :, :]] of a cache given by its layers. *)
Definition layer_slice (cache : option (list C)) (i : nat) : attempt (option C) :=
match cache with
| None => Returned None
| Some cache =>
    match cache !! i with
    | Some c => Returned (Some c)
    | None => Failed (Raised Py.InvalidArgumentError)
    end
end.

(** [updated_attention_cache[k]] of the local variable, which is bound
  only once a layer has returned a tuple. *)
Definition cache_item (updated_attention_cache : option (list (option C))) (k : nat)
: attempt (option C) :=
match updated_attention_cache with
| None => Failed UnboundLocalError
| Some items =>
    match items !! k with
    | Some item => Returned item
    | None => Failed IndexError
    end
end.

(** The state of the loop over the layers: [x], the local variable
  [updated_attention_cache], and the two lists of updated caches. *)
Record LoopState : Type := {
loop_x : X;
updated_attention_cache : option (list (option C));
updated_self_attention_cache : list (option C);
updated_cross_attention_cache : list (option C);
}.

Definition layer_step (self_attention_cache cross_attention_cache : option (list C))
  (self_attention_cache_update_index cross_attention_cache_update_index
     : option CacheIndex)
  (encoder_output : option Tf.tensor)
  (state : LoopState) (i : nat) (decoder : TransformerDecoderLayer)
: attempt LoopState :=
let self_attention_caching := is_not_None self_attention_cache in
let cross_attention_caching := is_not_None cross_attention_cache in
and_then (layer_slice self_attention_cache i) (fun self_slice =>
and_then (layer_slice cross_attention_cache i) (fun cross_slice =>
and_then
  (TransformerDecoderLayer_call decoder (loop_x state) encoder_output
     self_slice self_attention_cache_update_index
     cross_slice cross_attention_cache_update_index)
  (fun output =>
     let '(x, updated) :=
       match output with
       | Alone x => (x, updated_attention_cache state)
       | WithSelf x sc => (x, Some [Some sc])
       | WithBoth x sc cc => (x, Some [Some sc; cc])
       end in
     and_then
       (if self_attention_caching
        then and_then (cache_item updated 0)
               (fun item => Returned (updated_self_attention_cache state ++ [item]))
        else Returned (updated_self_attention_cache state))
       (fun updated_self =>
     and_then
       (if cross_attention_caching
        then and_then (cache_item updated 1)
               (fun item => Returned (updated_cross_attention_cache state ++ [item]))
        else Returned (updated_cross_attention_cache state))
       (fun updated_cross =>
          Returned {| loop_x := x;
                      updated_attention_cache := updated;
                      updated_self_attention_cache := updated_self;
                      updated_cross_attention_cache := updated_cross |}))))).

Fixpoint layers_loop (step : LoopState -> nat -> TransformerDecoderLayer -> attempt LoopState)
  (state : LoopState) (i : nat) (layers : list TransformerDecoderLayer)
: attempt LoopState :=
match layers with
| [] => Returned state
| decoder :: layers =>
    and_then (step state i decoder)
      (fun state => layers_loop step state (S i) layers)
end.

(** [keras.ops.stack(caches, axis=1)]: there must be a tensor to stack,
  and every item must be one. *)
Definition stack (caches : list (option C)) : attempt (list C) :=
match caches with
| [] => Failed (Raised Py.ValueError)
| _ =>
    match mapM id caches with
    | Some caches => Returned caches
    | None => Failed (Raised Py.ValueError)
    end
end.

Definition TransformerDecoder_call_layers (self : TransformerDecoder)
  (decoder_sequence : list (list Z))
  (self_attention_cache : option (list C))
  (self_attention_cache_update_index : option CacheIndex)
  (encoder_output : option Tf.tensor)
  (cross_attention_cache : option (list C))
  (cross_attention_cache_update_index : option CacheIndex)
: attempt (ModelOutput (list C)) :=
let self_attention_caching := is_not_None self_attention_cache in
let cross_attention_caching := is_not_None cross_attention_cache in
and_then
  (embedding self decoder_sequence self_attention_cache_update_index)
  (fun x =>
and_then
  (layers_loop
     (layer_step self_attention_cache cross_attention_cache
        self_attention_cache_update_index cross_attention_cache_update_index
        encoder_output)
     {| loop_x := x;
        updated_attention_cache := None;
        updated_self_attention_cache := [];
        updated_cross_attention_cache := [] |}
     0 (decoder_layers self))
  (fun state =>
and_then
  (if self_attention_caching
   then and_then (stack (updated_self_attention_cache state))
          (fun c => Returned (Some c))
   else Returned self_attention_cache)
  (fun self_attention_cache =>
and_then
  (if cross_attention_caching
   then and_then (stack (updated_cross_attention_cache state))
          (fun c => Returned (Some c))
   else Returned cross_attention_cache)
  (fun cross_attention_cache =>
     let x := dense self (loop_x state) in
     if negb self_attention_caching && negb cross_attention_caching
     then Returned (Out1 x)
     else if self_attention_caching && negb cross_attention_caching
     then Returned (Out2 x self_attention_cache)
     else Returned (Out3 x self_attention_cache cross_attention_cache))))).

End Decoder.

Arguments attend {X C Value} _.
Arguments attend_cached {X C Value} _.
Arguments self_attention_layer {X C} _.
Arguments cross_attention_layer {X C} _.
Arguments feedforward {X C} _.
Arguments Alone {X C} x.
Arguments WithSelf {X C} x self_attention_cache.
Arguments WithBoth {X C} x self_attention_cache cross_attention_cache.
Arguments TransformerDecoderLayer_call {X C} self decoder_sequence encoder_sequence _ _ _ _.
Arguments embedding {X C} _.
Arguments decoder_layers {X C} _.
Arguments dense {X C} _.
Arguments loop_x {X C} _.
Arguments updated_attention_cache {X C} _.
Arguments updated_self_attention_cache {X C} _.
Arguments updated_cross_attention_cache {X C} _.
Arguments layer_slice {C} cache i.
Arguments cache_item {C} updated_attention_cache k.
Arguments layer_step {X C} _ _ _ _ _ state i decoder.
Arguments layers_loop {X C} step state i layers.
Arguments stack {C} caches.
Arguments TransformerDecoder_call_layers {X C} self decoder_sequence _ _ _ _ _.

End Models.

(** *** Notions used in the further statements *)

(** The special tokens [__init__] lists for the given [add_bos] and
    [oov_token] (with [add_eos=True], without which it raises). *)
Definition special_tokens_of (add_bos : bool) (oov_token : string) : list string :=
  ([PAD_TOKEN]
   ++ (if negb (String.eqb oov_token EmptyString) then [oov_token] else [])
   ++ (if add_bos then [BOS_TOKEN] else [])
   ++ [EOS_TOKEN])%list.

(** The vocabulary [__init__] builds from the argument [vocabulary]:
    the table filled with the counts [len(vocabulary), ..., 1], then
    [_create_vocab]. *)
Definition vocabulary_of (add_bos : bool) (oov_token : string)
    (vocabulary : list string) : list string :=
  let n := Z.of_nat (length vocabulary) in
  _create_vocab (special_tokens_of add_bos oov_token)
    (foldl (fun table kv => table_insert table (fst kv) (snd kv)) []
       (zip vocabulary ((fun i => (n - Z.of_nat i)%Z) <$> seq 0 (length vocabulary)))).

(** A row cut to [n] entries or filled up to [n] entries with [pad]: on
    the right for right padding, on the left for left padding. *)
Definition cut_and_pad (mode : PaddingMode) (n : nat) (pad : Z) (row : list Z)
  : list Z :=
  match mode with
  | PadRight => (take n row ++ replicate (n - length row) pad)%list
  | PadLeft => (replicate (n - length row) pad ++ drop (length row - n) row)%list
  end.

(** The tokenizer [self] with right padding. *)
Definition with_right_padding (self : Tokenizer) : Tokenizer :=
  {| sequence_length := sequence_length self;
     padding_mode := PadRight;
     pad_token := pad_token self;
     bos_token := bos_token self;
     eos_token := eos_token self;
     oov_token := oov_token self;
     sep_token := sep_token self;
     pad_token_id := pad_token_id self;
     oov_token_id := oov_token_id self;
     bos_token_id := bos_token_id self;
     eos_token_id := eos_token_id self;
     _special_tokens := _special_tokens self;
     _vocabulary := _vocabulary self |}.

(** The number of entries of [row] that are strictly greater than [x]. *)
Definition outranking (row : list Q) (x : Q) : nat :=
  length (filter (fun y => Qle_bool y x = false) row).

(** The tokens of a text, as [pretokenize] splits it. *)
Definition tokens_of_text (s : string) : list string :=
  regex_split SMILES_REGEX_PATTERN SMILES_REGEX_PATTERN s.

(** How often [t] occurs among [tokens]. *)
Definition count_of (t : string) (tokens : list string) : Z :=
  Z.of_nat (length (filter (fun x => x = t) tokens)).

(** How often the token [t] occurs in the data. *)
Definition occurrences (data : list string) (t : string) : Z :=
  count_of t (flat_values (pretokenize data)).

(** The number of entries of an indexed row whose value is strictly
    greater than [x]. *)
Definition count_above (row : list (nat * Q)) (x : Q) : nat :=
  length (filter (fun p : nat * Q => Qle_bool (snd p) x = false) row).

(** A one-layer decoder without cross-attention whose activations are
    numbers and whose layer cache counts the calls that wrote to it. *)
Definition counting_layer : Models.TransformerDecoderLayer Z nat :=
  {| Models.self_attention_layer :=
       {| Models.attend := fun x _ => Models.Returned x;
          Models.attend_cached := fun x _ c _ => Models.Returned (x, S c) |};
     Models.cross_attention_layer := None;
     Models.feedforward := fun x => x |}.

Definition counting_decoder : Models.TransformerDecoder Z nat :=
  {| Models.embedding := fun _ _ => Models.Returned 0%Z;
     Models.decoder_layers := [counting_layer];
     Models.dense := fun _ => [] |}.


(** ** Facts about layers.py *)

Open Scope Z_scope.

Section CacheUpdateFacts.
Context {V : Type}.
Implicit Types (c : list (list V)) (rows : list (list Z)).

Lemma scatter_one_shape c b p v c' :
  scatter_one c b p v = Some c' → length <$> c' = length <$> c.
Proof.
  unfold scatter_one. intros H.
  destruct (c !! b) as [row|] eqn:Hb; simpl in H; [|done].
  case_decide; [|done]. injection H as <-.
  apply list_eq. intros i. rewrite !list_lookup_fmap.
  destruct (decide (i = b)) as [->|Hne].
  - rewrite list_lookup_insert_eq by (by eapply lookup_lt_Some).
    rewrite Hb. simpl. by rewrite length_insert.
  - by rewrite list_lookup_insert_ne.
Qed.

Lemma shape_lookup c c' b :
  length <$> c' = length <$> c →
  length <$> (c' !! b) = length <$> (c !! b).
Proof.
  intros H. rewrite <- !list_lookup_fmap. by rewrite H.
Qed.

Lemma scatter_one_at_eq c b p v c' :
  scatter_one c b p v = Some c' → cache_at c' b p = Some v.
Proof.
  unfold scatter_one, cache_at. intros H.
  destruct (c !! b) as [row|] eqn:Hb; simpl in H; [|done].
  case_decide as Hp; [|done]. injection H as <-.
  rewrite list_lookup_insert_eq by (by eapply lookup_lt_Some). simpl.
  rewrite decide_True by lia.
  apply list_lookup_insert_eq. lia.
Qed.

Lemma scatter_one_at_ne c b p v c' b' p' :
  scatter_one c b p v = Some c' → (b', p') ≠ (b, p) →
  cache_at c' b' p' = cache_at c b' p'.
Proof.
  unfold scatter_one, cache_at. intros H Hne.
  destruct (c !! b) as [row|] eqn:Hb; simpl in H; [|done].
  case_decide as Hp; [|done]. injection H as <-.
  destruct (decide (b' = b)) as [->|Hb'].
  - rewrite list_lookup_insert_eq by (by eapply lookup_lt_Some).
    rewrite Hb. simpl. case_decide; [|done].
    apply list_lookup_insert_ne. intros Heq. apply Hne. f_equal. lia.
  - by rewrite list_lookup_insert_ne.
Qed.

Lemma in_range_shape c c' bp :
  length <$> c' = length <$> c → in_range c bp → in_range c' bp.
Proof.
  intros Hs (row & Hrow & Hp). pose proof (shape_lookup _ _ bp.1 Hs) as Hl.
  rewrite Hrow in Hl. destruct (c' !! bp.1) as [row'|] eqn:Hrow'; [|done].
  exists row'. split; [done|]. simpl in Hl. injection Hl as Hl. by rewrite Hl.
Qed.

Lemma scatter_one_is_Some c b p v :
  in_range c (b, p) → is_Some (scatter_one c b p v).
Proof.
  intros (row & Hrow & Hp). simpl in *. unfold scatter_one. rewrite Hrow. simpl.
  rewrite decide_True by done. eauto.
Qed.

Lemma scatter_update_spec ix : ∀ c vals,
  length ix = length vals →
  Forall (in_range c) ix →
  NoDup ix →
  ∃ c', scatter_update c ix vals = Some c'
    ∧ length <$> c' = length <$> c
    ∧ (∀ n b p v, ix !! n = Some (b, p) → vals !! n = Some v →
         cache_at c' b p = Some v)
    ∧ (∀ b p, (b, p) ∉ ix → cache_at c' b p = cache_at c b p).
Proof.
  induction ix as [|[b p] ix IH]; intros c vals Hlen Hin Hnd.
  - destruct vals; [|done]. exists c. simpl. repeat split; try done.
  - destruct vals as [|v vals]; [done|]. simpl in Hlen.
    apply list.Forall_cons in Hin as [Hbp Hin]. apply list.NoDup_cons in Hnd as [Hfresh Hnd].
    destruct (scatter_one_is_Some c b p v Hbp) as [c1 Hc1].
    pose proof (scatter_one_shape _ _ _ _ _ Hc1) as Hs1.
    destruct (IH c1 vals) as (c' & Hc' & Hs' & Hw & Hf); [lia| |done|].
    { eapply list.Forall_impl; [exact Hin|]. intros bp. by apply in_range_shape. }
    exists c'. simpl. rewrite Hc1. simpl. split; [done|]. split; [congruence|].
    split.
    + intros [|n] b' p' v' Hix Hv; simpl in *.
      * injection Hix as <- <-. injection Hv as <-.
        rewrite Hf by done. by eapply scatter_one_at_eq.
      * by eapply Hw.
    + intros b' p' Hnot. apply not_elem_of_cons in Hnot as [Hne Hnot].
      rewrite Hf by done. by eapply scatter_one_at_ne.
Qed.

Lemma zip_replicate {A} (b : nat) (r : list A) :
  zip (replicate (length r) b) r = (λ x, (b, x)) <$> r.
Proof. induction r as [|x r IH]; simpl; [done|]. by rewrite IH. Qed.

Lemma scatter_index_from_cons b0 r rows :
  scatter_index_from b0 (r :: rows)
  = ((λ p, (b0, p)) <$> r) ++ scatter_index_from (S b0) rows.
Proof.
  unfold scatter_index_from, flat_values. simpl.
  rewrite zip_with_app by (by rewrite length_replicate).
  by rewrite zip_replicate.
Qed.

Lemma gather_index_from_cons b0 r rows :
  gather_index_from b0 (r :: rows)
  = ((λ k, (b0, k)) <$> seq 0 (length r)) ++ gather_index_from (S b0) rows.
Proof.
  unfold gather_index_from, flat_values, ragged_range, row_lengths. simpl.
  rewrite zip_with_app by (by rewrite length_replicate, length_seq).
  pose proof (zip_replicate b0 (seq 0 (length r))) as Hz.
  rewrite length_seq in Hz. by rewrite Hz.
Qed.

Lemma elem_of_scatter_index_from rows : ∀ b0 b p,
  (b, p) ∈ scatter_index_from b0 rows
  ↔ ∃ r, (b0 ≤ b)%nat ∧ rows !! (b - b0)%nat = Some r ∧ p ∈ r.
Proof.
  induction rows as [|r rows IH]; intros b0 b p.
  - split; [by intros ?%elem_of_nil|]. by intros (r & _ & ? & _).
  - rewrite scatter_index_from_cons, elem_of_app, list_elem_of_fmap, IH. split.
    + intros [(x & [= -> ->] & Hx)|(r' & Hle & Hr' & Hp)].
      * exists r. rewrite Nat.sub_diag. eauto.
      * exists r'. split; [lia|]. split; [|done].
        by replace (b - b0)%nat with (S (b - S b0)) by lia.
    + intros (r' & Hle & Hr' & Hp).
      destruct (decide (b = b0)) as [->|Hne].
      * rewrite Nat.sub_diag in Hr'. injection Hr' as ->. left. eauto.
      * right. exists r'. split; [lia|]. split; [|done].
        by replace (b - b0)%nat with (S (b - S b0)) in Hr' by lia.
Qed.

Lemma NoDup_scatter_index_from rows : ∀ b0,
  Forall NoDup rows → NoDup (scatter_index_from b0 rows).
Proof.
  induction rows as [|r rows IH]; intros b0 Hnd.
  - apply NoDup_nil_2.
  - apply list.Forall_cons in Hnd as [Hr Hnd].
    rewrite scatter_index_from_cons. apply list.NoDup_app. split; [|split].
    + apply NoDup_fmap; [|done]. by intros ?? [= ->].
    + intros [b p] (x & [= -> ->] & _)%list_elem_of_fmap
        (r' & Hle & _)%elem_of_scatter_index_from. lia.
    + by apply IH.
Qed.

Lemma index_from_length rows : ∀ b0,
  length (gather_index_from b0 rows) = length (scatter_index_from b0 rows).
Proof.
  induction rows as [|r rows IH]; intros b0; [done|].
  rewrite scatter_index_from_cons, gather_index_from_cons, !length_app,
    !length_fmap, length_seq. by rewrite IH.
Qed.

(** The [n]-th flat scatter pair and the [n]-th flat gather pair speak
    of the same entry [k] of the same row [b]. *)
Lemma index_from_aligned rows : ∀ b0 b r k p,
  rows !! b = Some r → r !! k = Some p →
  ∃ n, scatter_index_from b0 rows !! n = Some ((b0 + b)%nat, p)
     ∧ gather_index_from b0 rows !! n = Some ((b0 + b)%nat, k).
Proof.
  induction rows as [|r0 rows IH]; intros b0 b r k p Hr Hk; [done|].
  rewrite scatter_index_from_cons, gather_index_from_cons.
  destruct b as [|b]; simpl in Hr.
  - injection Hr as ->. exists k.
    pose proof (lookup_lt_Some _ _ _ Hk) as Hlt.
    rewrite !lookup_app_l by (by rewrite length_fmap, ?length_seq).
    rewrite !list_lookup_fmap, Hk, Nat.add_0_r. split; [done|].
    by rewrite (proj2 (lookup_seq 0 (length r) k k)) by (split; [done|lia]).
  - destruct (IH (S b0) b r k p Hr Hk) as (n & Hs & Hg).
    exists (length r0 + n)%nat.
    rewrite !lookup_app_r by (rewrite length_fmap, ?length_seq; lia).
    rewrite !length_fmap, length_seq.
    replace (length r0 + n - length r0)%nat with n by lia.
    by replace (b0 + S b)%nat with (S b0 + b)%nat by lia.
Qed.

Lemma elem_of_gather_index_from rows : ∀ b0 b k,
  (b, k) ∈ gather_index_from b0 rows →
  ∃ r, (b0 ≤ b)%nat ∧ rows !! (b - b0)%nat = Some r ∧ (k < length r)%nat.
Proof.
  induction rows as [|r rows IH]; intros b0 b k.
  - by intros ?%elem_of_nil.
  - rewrite gather_index_from_cons, elem_of_app, list_elem_of_fmap.
    intros [(x & [= -> ->] & Hx%elem_of_seq)|(r' & Hle & Hr' & Hk)%IH].
    + exists r. rewrite Nat.sub_diag. split; [done|]. split; [done|lia].
    + exists r'. split; [lia|]. split; [|done].
      by replace (b - b0)%nat with (S (b - S b0)) by lia.
Qed.
End CacheUpdateFacts.

Section CacheUpdateTheorem.
Context {V : Type}.

Lemma gather_nd_spec (update : list (list V)) (rows : list (list Z)) :
  (∀ b row, rows !! b = Some row →
     ∃ u, update !! b = Some u ∧ (length row ≤ length u)%nat) →
  ∃ vals, gather_nd update (gather_index rows) = Some vals
    ∧ length vals = length (scatter_index rows)
    ∧ ∀ n b k, gather_index rows !! n = Some (b, k) →
        vals !! n = (u ← update !! b; u !! k).
Proof.
  intros Hfit.
  assert (Hall : Forall (is_Some ∘ (λ bk : nat * nat, row ← update !! bk.1; row !! bk.2))
                   (gather_index rows)).
  { apply list.Forall_forall. intros [b k] Hin.
    apply (elem_of_gather_index_from rows 0) in Hin as (r & _ & Hr & Hk).
    rewrite Nat.sub_0_r in Hr. destruct (Hfit _ _ Hr) as (u & Hu & Hlen).
    simpl. rewrite Hu. simpl. apply lookup_lt_is_Some. lia. }
  apply mapM_is_Some in Hall as [vals Hvals]. exists vals.
  split; [done|]. apply mapM_Some in Hvals. split.
  - pose proof Hvals as Hl%Forall2_length. rewrite <- Hl.
    apply (index_from_length rows 0).
  - intros n b k Hn.
    destruct (Forall2_lookup_l _ _ _ _ _ Hvals Hn) as (y & Hy & Hf).
    simpl in Hf. by rewrite Hy, Hf.
Qed.

(** C4. Cache update locality: when the positions of every index row
    are unique and inside the cache and the update tensor has a value
    for each of them, [_cache_update] returns a cache of the same shape
    that holds the update value [update[b][k]] at every written pair
    [(b, index[b][k])] and the value of the prior cache at every other
    row and position. *)
Theorem cache_update_locality
    (cache : list (list V)) (index : CacheIndex) (update : list (list V)) :
  (∀ b row, as_ragged index !! b = Some row → NoDup row) →
  (∀ b row p, as_ragged index !! b = Some row → p ∈ row →
     ∃ slots, cache !! b = Some slots ∧ 0 ≤ p < Z.of_nat (length slots)) →
  (∀ b row, as_ragged index !! b = Some row →
     ∃ u, update !! b = Some u ∧ (length row ≤ length u)%nat) →
  ∃ cache',
    _cache_update cache index update = Some cache'
    ∧ length <$> cache' = length <$> cache
    ∧ (∀ b row k p, as_ragged index !! b = Some row → row !! k = Some p →
         cache_at cache' b p = (u ← update !! b; u !! k))
    ∧ (∀ b p, (∀ row, as_ragged index !! b = Some row → p ∉ row) →
         cache_at cache' b p = cache_at cache b p).
Proof.
  intros Huniq Hrange Hfit. unfold _cache_update.
  set (rows := as_ragged index) in *.
  destruct (gather_nd_spec update rows Hfit) as (vals & Hg & Hlen & Hvals).
  rewrite Hg. simpl.
  destruct (scatter_update_spec (scatter_index rows) cache vals)
    as (c' & Hc' & Hshape & Hw & Hf).
  - done.
  - apply list.Forall_forall. intros [b p] Hin.
    apply (elem_of_scatter_index_from rows 0) in Hin as (r & _ & Hr & Hp).
    rewrite Nat.sub_0_r in Hr. by eapply Hrange.
  - apply (NoDup_scatter_index_from rows 0).
    apply list.Forall_forall. intros r Hr.
    apply list_elem_of_lookup in Hr as [b Hb]. by eapply Huniq.
  - exists c'. split; [done|]. split; [done|]. split.
    + intros b row k p Hrow Hk.
      destruct (index_from_aligned rows 0 b row k p Hrow Hk) as (n & Hs & Hgi).
      simpl in Hs, Hgi. rewrite <- (Hvals n b k Hgi).
      destruct (vals !! n) as [v|] eqn:Hv.
      * by eapply Hw.
      * apply lookup_ge_None in Hv. apply lookup_lt_Some in Hs.
        unfold scatter_index in Hlen. unfold scatter_index_from in Hs. 
        unfold value_rowids in Hlen. lia.
    + intros b p Hnot. apply Hf.
      intros (r & _ & Hr & Hp)%(elem_of_scatter_index_from rows 0).
      rewrite Nat.sub_0_r in Hr. by eapply Hnot.
Qed.
End CacheUpdateTheorem.

Lemma cache_update_locality_witness :
  ∃ cache',
    _cache_update [[0; 0; 0]; [0; 0; 0]] (RaggedIndex [[0; 2]; [1]]) [[7; 8]; [9; 6]]
      = Some cache'
    ∧ length <$> cache' = length <$> [[0; 0; 0]; [0; 0; 0]]
    ∧ cache_at cache' 0 2 = Some 8
    ∧ cache_at cache' 1 0 = Some 0.
Proof.
  destruct (cache_update_locality [[0; 0; 0]; [0; 0; 0]]
              (RaggedIndex [[0; 2]; [1]]) [[7; 8]; [9; 6]])
    as (c' & Hc' & Hs & Hw & Hf).
  - intros [|[|b]] row Hrow; simpl in Hrow; try discriminate;
      injection Hrow as <-; apply (bool_decide_unpack _); reflexivity.
  - intros [|[|b]] row p Hrow Hp; simpl in Hrow; try discriminate;
      injection Hrow as <-; eexists; (split; [reflexivity|]); simpl;
      repeat (apply elem_of_cons in Hp as [-> | Hp]; [lia|]);
      by apply elem_of_nil in Hp.
  - intros [|[|b]] row Hrow; simpl in Hrow; try discriminate;
      injection Hrow as <-; eexists; (split; [reflexivity|]); simpl; lia.
  - exists c'. split; [done|]. split; [done|]. split.
    + by rewrite (Hw 0%nat [0; 2] 1%nat 2).
    + rewrite (Hf 1%nat 0); [done|]. intros row Hrow. injection Hrow as <-.
      intros Hp. apply elem_of_cons in Hp as [Hp | Hp]; [lia|].
      by apply elem_of_nil in Hp.
Defined.

Section Masks.

Lemma lookup_arange n j : (j < n)%nat → arange n !! j = Some (Z.of_nat j).
Proof.
  intros Hj. unfold arange. rewrite list_lookup_fmap.
  by rewrite (proj2 (lookup_seq 0 n j j)) by (split; [done|lia]).
Qed.

Lemma lookup_to_tensor {A} (d : A) rows b row q x :
  rows !! b = Some row → row !! q = Some x →
  (row' ← to_tensor d rows !! b; row' !! q) = Some x.
Proof.
  intros Hb Hq. unfold to_tensor. rewrite list_lookup_fmap, Hb. simpl.
  rewrite lookup_app_l by (by eapply lookup_lt_Some). done.
Qed.

Lemma causal_mask_lookup ds il ci b q j i :
  query_position ds ci b q = Some i → (j < il)%nat →
  (row ← _compute_causal_mask (seq_batch ds) il (seq_length ds) ci !! b;
   r ← row !! q; r !! j) = Some (bool_decide (Z.of_nat j ≤ i)).
Proof.
  intros Hpos Hj. unfold _compute_causal_mask.
  set (I := match ci with None => _ | Some _ => _ end).
  assert (HI : (row ← I !! b; row !! q) = Some i).
  { subst I. unfold query_position in Hpos. destruct ci as [[rows|rows]|]; simpl in *.
    - done.
    - destruct (rows !! b) as [row|] eqn:Hb; [|done]. simpl in Hpos.
      by eapply lookup_to_tensor.
    - case_decide as Hd; [|done]. destruct Hd as [Hb Hq]. injection Hpos as <-.
      rewrite list_lookup_fmap, lookup_replicate_2 by done. simpl.
      rewrite list_lookup_fmap, lookup_arange by done. done. }
  rewrite list_lookup_fmap. destruct (I !! b) as [row|]; [|done]. simpl in *.
  rewrite list_lookup_fmap, HI. simpl.
  rewrite list_lookup_fmap, lookup_arange by done. simpl. f_equal.
  destruct (Z.geb_spec i (Z.of_nat j)).
  - by rewrite bool_decide_eq_true_2 by lia.
  - by rewrite bool_decide_eq_false_2 by lia.
Qed.

Lemma mapM_total {A B} (f : A → option B) (g : A → B) (l : list A) :
  (∀ x, x ∈ l → f x = Some (g x)) → mapM f l = Some (g <$> l).
Proof.
  intros H. apply mapM_Some. apply Forall2_fmap_r, Forall_Forall2_diag.
  by apply list.Forall_forall.
Qed.

Lemma broadcast_same {A B C} (f : A → B → option C) (g : A → B → C) xs ys :
  length xs = length ys →
  (∀ n x y, xs !! n = Some x → ys !! n = Some y → f x y = Some (g x y)) →
  broadcast f xs ys = Some (zip_with g xs ys).
Proof.
  intros Hlen Hf. unfold broadcast. rewrite decide_True by done.
  rewrite (mapM_total _ (λ p, g p.1 p.2)).
  - f_equal. clear Hf. revert ys Hlen.
    induction xs as [|x xs IH]; intros [|y ys] Hlen; simpl in *; try done.
    f_equal. apply IH. lia.
  - intros [x y] Hin. apply list_elem_of_lookup in Hin as [n Hn].
    apply lookup_zip_with_Some in Hn as (x' & y' & [= <- <-] & Hx & Hy).
    simpl. by eapply Hf.
Qed.

Lemma broadcast_one_l {A B C} (f : A → B → option C) (g : A → B → C) x ys :
  (∀ y, y ∈ ys → f x y = Some (g x y)) →
  broadcast f [x] ys = Some (g x <$> ys).
Proof.
  intros Hf. unfold broadcast. case_decide as Hlen.
  - destruct ys as [|y [|??]]; try done. simpl.
    rewrite Hf by apply list_elem_of_here. done.
  - by apply mapM_total.
Qed.

(** The minimum of a padding mask [(batch, 1, T)] and a mask
    [(batch, Q, T)], entry by entry. *)
Lemma minimum_padding (pm : list (list bool)) (cm : list (list (list bool))) T :
  length pm = length cm →
  Forall (λ r, length r = T) pm →
  Forall (Forall (λ r, length r = T)) cm →
  ∃ m, minimum (cast_int32 (expand_dims_1 pm)) (cast_int32 cm) = Some m
    ∧ ∀ b q j pb cb,
        (r ← pm !! b; r !! j) = Some pb →
        (row ← cm !! b; r ← row !! q; r !! j) = Some cb →
        (row ← m !! b; r ← row !! q; r !! j) = Some (Z.min (Z.b2z pb) (Z.b2z cb)).
Proof.
  intros Hlen Hpm Hcm.
  set (g3 := λ (p c : list Z), zip_with Z.min p c).
  set (g2 := λ (p : list (list Z)) (c : list (list Z)),
               match p with [p0] => g3 p0 <$> c | _ => [] end).
  exists (zip_with g2 (cast_int32 (expand_dims_1 pm)) (cast_int32 cm)). split.
  - unfold minimum. apply broadcast_same.
    { unfold cast_int32, expand_dims_1. by rewrite !length_fmap. }
    intros n x y Hx Hy. unfold cast_int32, expand_dims_1 in Hx, Hy.
    rewrite !list_lookup_fmap in Hx. rewrite list_lookup_fmap in Hy.
    destruct (pm !! n) as [p|] eqn:Hp; [|done].
    destruct (cm !! n) as [c|] eqn:Hc; [|done].
    simpl in Hx, Hy. injection Hx as <-. injection Hy as <-.
    simpl. apply (broadcast_one_l _ g3). intros y Hy.
    apply list_elem_of_fmap in Hy as (r & -> & Hr).
    apply broadcast_same; [|done]. rewrite !length_fmap.
    rewrite (list.Forall_forall) in Hpm. rewrite (Hpm p) by (by eapply list_elem_of_lookup_2).
    rewrite list.Forall_forall in Hcm.
    pose proof (Hcm c (list_elem_of_lookup_2 _ _ _ Hc)) as Hc'.
    rewrite list.Forall_forall in Hc'. by rewrite (Hc' r).
  - intros b q j pb cb Hpb Hcb.
    destruct (pm !! b) as [p|] eqn:Hp; [|done].
    destruct (cm !! b) as [c|] eqn:Hc; [|done]. simpl in Hpb, Hcb.
    destruct (c !! q) as [r|] eqn:Hq; [|done]. simpl in Hcb.
    rewrite lookup_zip_with. unfold cast_int32, expand_dims_1.
    rewrite !list_lookup_fmap, Hp, Hc. simpl.
    rewrite !list_lookup_fmap, Hq. simpl.
    unfold g3. rewrite lookup_zip_with, !list_lookup_fmap, Hpb, Hcb. done.
Qed.
End Masks.

Section SelfAttentionMask.
Context {V : Type}.

Lemma causal_mask_shape bs il ol ci :
  Forall (Forall (λ r : list bool, length r = il)) (_compute_causal_mask bs il ol ci).
Proof.
  unfold _compute_causal_mask. apply list.Forall_fmap, list.Forall_forall.
  intros row _. simpl. apply list.Forall_fmap, list.Forall_forall. intros iq _. simpl.
  unfold arange. by rewrite !length_fmap, length_seq.
Qed.

End SelfAttentionMask.


Close Scope Z_scope.


(** ** Facts about tokenizers.py *)

Section Strings.

#[local] Open Scope string_scope.

Lemma append_nil_l (t : string) : "" ++ t = t.
Proof. reflexivity. Qed.

Lemma append_cons (c : ascii) (s t : string) : String c s ++ t = String c (s ++ t).
Proof. reflexivity. Qed.

Lemma append_nil_r (s : string) : s ++ "" = s.
Proof. induction s as [|c s IH]; [done|]. by rewrite append_cons, IH. Qed.

Lemma append_assoc (s t u : string) : (s ++ t) ++ u = s ++ (t ++ u).
Proof. induction s as [|c s IH]; [done|]. by rewrite !append_cons, IH. Qed.

Lemma append_snoc (s : string) (c : ascii) (t : string) :
(s ++ String c "") ++ t = s ++ String c t.
Proof. by rewrite append_assoc. Qed.

Ltac tidy_strings :=
repeat (progress rewrite ?append_nil_l, ?append_cons, ?append_nil_r, ?append_snoc).

Lemma reduce_join_cons (x : string) (l : list string) :
reduce_join (x :: l) = x ++ reduce_join l.
Proof. reflexivity. Qed.

Lemma reduce_join_app (l k : list string) :
reduce_join (l ++ k)%list = reduce_join l ++ reduce_join k.
Proof.
induction l as [|x l IH]; simpl; [done|]. by rewrite IH, append_assoc.
Qed.

Lemma reduce_join_emit tok l : reduce_join (emit tok l) = tok ++ reduce_join l.
Proof.
unfold emit. destruct (String.eqb_spec tok "") as [->|]; done.
Qed.

Lemma substring_S c r n : substring 0 (S n) (String c r) = String c (substring 0 n r).
Proof. done. Qed.

Lemma substring_0_0 (s : string) : substring 0 0 s = "".
Proof. by destruct s. Qed.

Lemma regex_split_from_join delim keep (Hkept : kept delim keep) s :
∀ pending tok,
  (pending ≠ 0%nat →
   (pending ≤ String.length s)%nat
   ∧ full_match keep (tok ++ substring 0 pending s) = true) →
  reduce_join (regex_split_from delim keep pending tok s) = tok ++ s.
Proof.
induction s as [|c r IH]; intros pending tok Hpending.
- simpl. rewrite reduce_join_emit. done.
- destruct pending as [|[|k]].
  + simpl. destruct (delim (String c r)) as [[|[|k]]|] eqn:Hd; simpl.
    * rewrite IH by done. by rewrite append_snoc.
    * destruct (Hkept _ _ Hd) as [Hlen Hfull].
      rewrite substring_S, substring_0_0 in Hfull.
      rewrite append_nil_l, Hfull.
      rewrite !reduce_join_app, reduce_join_emit. simpl.
      rewrite IH by done. by tidy_strings.
    * destruct (Hkept _ _ Hd) as [Hlen Hfull].
      rewrite reduce_join_app, reduce_join_emit. simpl.
      rewrite IH; [by tidy_strings|]. intros _. simpl in Hlen.
      split; [lia|]. rewrite substring_S in Hfull. by tidy_strings.
    * rewrite IH by done. by rewrite append_snoc.
  + destruct (Hpending ltac:(done)) as [Hlen Hfull].
    rewrite substring_S, substring_0_0 in Hfull. simpl.
    rewrite Hfull. simpl.
    rewrite IH by done. by tidy_strings.
  + destruct (Hpending ltac:(done)) as [Hlen Hfull]. simpl.
    rewrite IH; [by rewrite append_snoc|]. intros _. simpl in Hlen.
    split; [lia|]. rewrite substring_S in Hfull. by rewrite append_snoc.
Qed.

Lemma regex_split_join delim keep s :
kept delim keep → reduce_join (regex_split delim keep s) = s.
Proof.
intros Hkept. unfold regex_split. by rewrite regex_split_from_join.
Qed.

Lemma find_close_lt r k : find_close r = Some k → (k < String.length r)%nat.
Proof.
revert k. induction r as [|c r IH]; intros k; simpl; [done|].
destruct (Ascii.eqb c "]"); [intros [= <-]; lia|].
destruct (find_close r) as [k'|]; [|done]. intros [= <-].
specialize (IH k' eq_refl). lia.
Qed.

Lemma find_close_substring r k j :
find_close r = Some k → find_close (substring 0 (S k + j) r) = Some k.
Proof.
revert k. induction r as [|c r IH]; intros k; simpl; [done|].
destruct (Ascii.eqb c "]") eqn:Hc.
- intros [= <-]. simpl. by rewrite ?Hc.
- destruct (find_close r) as [k'|] eqn:Hk'; [|done]. intros [= <-].
  simpl. pose proof (IH k' eq_refl) as IH'. simpl in IH'. by rewrite IH'.
Qed.

Lemma length_substring n s :
(n ≤ String.length s)%nat → String.length (substring 0 n s) = n.
Proof.
revert n. induction s as [|c s IH]; intros [|n]; simpl; try done; try lia.
intros Hn. rewrite IH; lia.
Qed.

Lemma next_is_true c r : next_is c r = true → ∃ r', r = String c r'.
Proof.
destruct r as [|c' r']; simpl; [done|].
intros ->%Ascii.eqb_eq. eauto.
Qed.

Lemma SMILES_kept : kept SMILES_REGEX_PATTERN SMILES_REGEX_PATTERN.
Proof.
intros [|c r] n; [done|]. unfold full_match.
cbn [SMILES_REGEX_PATTERN].
destruct (Ascii.eqb c "[") eqn:H1.
{ destruct (find_close r) as [[|m]|] eqn:Hf; try done. intros [= <-].
  pose proof (find_close_lt _ _ Hf) as Hlt. split; [simpl; lia|].
  replace (m + 3)%nat with (S (S (S m) + 0)) by lia.
  rewrite substring_S. cbn [SMILES_REGEX_PATTERN]. rewrite H1.
  rewrite (find_close_substring _ _ 0 Hf).
  cbn [String.length]. rewrite length_substring by lia.
  apply Nat.eqb_eq. lia. }
destruct (Ascii.eqb c "B") eqn:H2.
{ destruct (next_is "r" r) eqn:Hn; intros [= <-].
  - apply next_is_true in Hn as [r' ->]. split; [simpl; lia|].
    rewrite !substring_S, substring_0_0.
    cbn [SMILES_REGEX_PATTERN]. rewrite H1, H2. done.
  - split; [simpl; lia|]. rewrite substring_S, substring_0_0.
    cbn [SMILES_REGEX_PATTERN]. by rewrite H1, H2. }
destruct (Ascii.eqb c "C") eqn:H3.
{ destruct (next_is "l" r) eqn:Hn; intros [= <-].
  - apply next_is_true in Hn as [r' ->]. split; [simpl; lia|].
    rewrite !substring_S, substring_0_0.
    cbn [SMILES_REGEX_PATTERN]. rewrite H1, H2, H3. done.
  - split; [simpl; lia|]. rewrite substring_S, substring_0_0.
    cbn [SMILES_REGEX_PATTERN]. by rewrite H1, H2, H3. }
destruct (is_one_of _ c) eqn:H4.
{ intros [= <-]. split; [simpl; lia|]. rewrite substring_S, substring_0_0.
  cbn [SMILES_REGEX_PATTERN]. by rewrite H1, H2, H3, H4. }
destruct (Ascii.eqb c ">") eqn:H5.
{ destruct (next_is ">" r) eqn:Hn; intros [= <-].
  - apply next_is_true in Hn as [r' ->]. split; [simpl; lia|].
    rewrite !substring_S, substring_0_0.
    cbn [SMILES_REGEX_PATTERN]. rewrite H1, H2, H3, H4, H5. done.
  - split; [simpl; lia|]. rewrite substring_S, substring_0_0.
    cbn [SMILES_REGEX_PATTERN]. by rewrite H1, H2, H3, H4, H5. }
destruct (is_one_of "*$" c) eqn:H6.
{ intros [= <-]. split; [simpl; lia|]. rewrite substring_S, substring_0_0.
  cbn [SMILES_REGEX_PATTERN]. by rewrite H1, H2, H3, H4, H5, H6. }
destruct (Ascii.eqb c "%") eqn:H7.
{ destruct r as [|d1 [|d2 r]]; try done.
  destruct (is_digit d1 && is_digit d2) eqn:Hd; [|done]. intros [= <-].
  split; [simpl; lia|]. rewrite !substring_S, substring_0_0.
  cbn [SMILES_REGEX_PATTERN]. by rewrite H1, H2, H3, H4, H5, H6, H7, Hd. }
destruct (is_digit c) eqn:H8; [|done].
intros [= <-]. split; [simpl; lia|]. rewrite substring_S, substring_0_0.
cbn [SMILES_REGEX_PATTERN]. by rewrite H1, H2, H3, H4, H5, H6, H7, H8.
Qed.

Lemma pretokenize_join (s : string) :
reduce_join (regex_split SMILES_REGEX_PATTERN SMILES_REGEX_PATTERN s) = s.
Proof. apply regex_split_join, SMILES_kept. Qed.

(** ** Cleanup *)

Ltac expose_chars := repeat rewrite ?append_cons, ?append_nil_l.

Ltac decide_chars :=
repeat (match goal with
        | |- context [ascii_dec ?a ?b] => destruct (ascii_dec a b); try congruence
        | H : context [ascii_dec ?a ?b] |- _ =>
            destruct (ascii_dec a b); try congruence
        end; subst).

(** A marker that starts inside a non-empty text [s] and is a prefix of
  [s] followed by ["[eos]"] lies inside [s]: only the first character
  of a marker is an opening bracket. *)
Lemma marker_prefix_inside (m s t : string) :
m = PAD_TOKEN ∨ m = BOS_TOKEN ∨ m = EOS_TOKEN → s ≠ "" →
String.prefix m (s ++ EOS_TOKEN ++ t) = true → String.prefix m s = true.
Proof.
intros [-> | [-> | ->]] Hs.
all: unfold PAD_TOKEN, BOS_TOKEN, EOS_TOKEN;
  destruct s as [|c1 [|c2 [|c3 [|c4 [|c5 s]]]]]; [done|..];
  expose_chars; cbn [String.prefix]; intros H; decide_chars; try done; by destruct s.
Qed.

Lemma occurs_cons m c r : occurs m (String c r) = false →
String.prefix m (String c r) = false ∧ occurs m r = false.
Proof. simpl. by intros [? ?]%orb_false_elim. Qed.

Lemma no_markers_cons c r : no_markers (String c r) = true →
REGEX_PATTERN_CLEANUP (String c r) = None ∧ no_markers r = true.
Proof.
unfold no_markers. rewrite !andb_true_iff, !negb_true_iff.
intros [[[Hp Hp']%occurs_cons [Hb Hb']%occurs_cons] [He He']%occurs_cons].
split; [|by rewrite Hp', Hb', He'].
unfold REGEX_PATTERN_CLEANUP. by rewrite Hp, Hb, He.
Qed.

Lemma cleanup_none_before_eos c r t :
no_markers (String c r) = true →
REGEX_PATTERN_CLEANUP (String c r ++ EOS_TOKEN ++ t) = None.
Proof.
unfold no_markers. rewrite !andb_true_iff, !negb_true_iff.
intros [[[Hp _]%occurs_cons [Hb _]%occurs_cons] [He _]%occurs_cons].
unfold REGEX_PATTERN_CLEANUP.
destruct (String.prefix PAD_TOKEN (String c r ++ EOS_TOKEN ++ t)) eqn:H1.
{ apply marker_prefix_inside in H1; [congruence|by left|done]. }
destruct (String.prefix BOS_TOKEN (String c r ++ EOS_TOKEN ++ t)) eqn:H2.
{ apply marker_prefix_inside in H2; [congruence|by right; left|done]. }
destruct (String.prefix EOS_TOKEN (String c r ++ EOS_TOKEN ++ t)) eqn:H3.
{ apply marker_prefix_inside in H3; [congruence|by right; right|done]. }
done.
Qed.

Lemma regex_replace_body s t :
no_markers s = true →
regex_replace_from REGEX_PATTERN_CLEANUP 0 (s ++ EOS_TOKEN ++ t)
= s ++ regex_replace_from REGEX_PATTERN_CLEANUP 0 (EOS_TOKEN ++ t).
Proof.
induction s as [|c r IH]; intros Hs; [done|].
pose proof (cleanup_none_before_eos c r t Hs) as Hnone.
apply no_markers_cons in Hs as [_ Hr].
rewrite append_cons in *. cbn [regex_replace_from]. rewrite Hnone.
by rewrite IH.
Qed.

Lemma regex_replace_skip m s : ∀ k,
(String.length s ≤ k)%nat → regex_replace_from m k s = "".
Proof.
induction s as [|c r IH]; intros k Hk; [done|].
destruct k as [|k]; simpl in *; [lia|]. apply IH. lia.
Qed.

Lemma pads_S n : pads (S n) = PAD_TOKEN ++ pads n.
Proof. reflexivity. Qed.

Lemma line_length_pads n : line_length (pads n) = String.length (pads n).
Proof.
induction n as [|n IH]; [done|]. rewrite pads_S.
unfold PAD_TOKEN. expose_chars. cbn. by rewrite IH.
Qed.

Lemma prefix_nil (s : string) : String.prefix "" s = true.
Proof. by destruct s. Qed.

Lemma cleanup_at_pad t : REGEX_PATTERN_CLEANUP (PAD_TOKEN ++ t) = Some 5%nat.
Proof.
unfold REGEX_PATTERN_CLEANUP, PAD_TOKEN. expose_chars.
cbn [String.prefix]. decide_chars. by rewrite prefix_nil.
Qed.

Lemma cleanup_at_bos t : REGEX_PATTERN_CLEANUP (BOS_TOKEN ++ t) = Some 5%nat.
Proof.
unfold REGEX_PATTERN_CLEANUP, PAD_TOKEN, BOS_TOKEN. expose_chars.
cbn [String.prefix]. decide_chars. by rewrite prefix_nil.
Qed.

Lemma cleanup_at_eos t :
REGEX_PATTERN_CLEANUP (EOS_TOKEN ++ t) = Some (5 + line_length t)%nat.
Proof.
unfold REGEX_PATTERN_CLEANUP, PAD_TOKEN, BOS_TOKEN, EOS_TOKEN. expose_chars.
cbn [String.prefix]. decide_chars. by rewrite prefix_nil.
Qed.

(** A match of the length of [a] at the head of [a ++ b] deletes [a]. *)
Lemma regex_replace_match (m : matcher) (a b : string) :
a ≠ "" → m (a ++ b) = Some (String.length a) →
regex_replace_from m 0 (a ++ b) = regex_replace_from m 0 b.
Proof.
destruct a as [|c a]; [done|]. intros _. rewrite append_cons. intros Hm.
cbn [regex_replace_from]. rewrite Hm. cbn [String.length]. clear Hm.
induction a as [|c' a IH]; [done|]. rewrite append_cons. cbn. apply IH.
Qed.

Lemma regex_replace_eos_pads n :
regex_replace_from REGEX_PATTERN_CLEANUP 0 (EOS_TOKEN ++ pads n) = "".
Proof.
pose proof (cleanup_at_eos (pads n)) as Hm. rewrite line_length_pads in Hm.
unfold EOS_TOKEN in *. revert Hm. expose_chars. intros Hm.
cbn [regex_replace_from]. rewrite Hm. apply regex_replace_skip. simpl. lia.
Qed.

Lemma regex_replace_pads n s :
regex_replace_from REGEX_PATTERN_CLEANUP 0 (pads n ++ s)
= regex_replace_from REGEX_PATTERN_CLEANUP 0 s.
Proof.
induction n as [|n IH]; [done|]. rewrite pads_S, append_assoc.
rewrite regex_replace_match; [done|done|apply cleanup_at_pad].
Qed.

Lemma regex_replace_bos s :
regex_replace_from REGEX_PATTERN_CLEANUP 0 (BOS_TOKEN ++ s)
= regex_replace_from REGEX_PATTERN_CLEANUP 0 s.
Proof. rewrite regex_replace_match; [done|done|apply cleanup_at_bos]. Qed.

(** The cleanup of a marked-up and padded text gives the text back. *)
Lemma cleanup_marked (bos : option string) (s : string) (l r : nat) :
bos = None ∨ bos = Some BOS_TOKEN →
no_markers s = true →
regex_replace REGEX_PATTERN_CLEANUP
  (pads l ++ or_empty bos ++ s ++ EOS_TOKEN ++ pads r) = s.
Proof.
intros Hbos Hs. unfold regex_replace. rewrite regex_replace_pads.
assert (regex_replace_from REGEX_PATTERN_CLEANUP 0 (s ++ EOS_TOKEN ++ pads r) = s) as H.
{ rewrite regex_replace_body, regex_replace_eos_pads by done. apply append_nil_r. }
destruct Hbos as [-> | ->]; cbn [or_empty].
- by rewrite append_nil_l.
- by rewrite regex_replace_bos.
Qed.

(** ** Lookup tables *)

Lemma lookup_table_roundtrip (v : list string) (oov_id : Z) (oov : string) (t : string) :
t ∈ v → lookup_table_reverse v oov (lookup_table v oov_id t) = t.
Proof.
intros Hin. unfold lookup_table, lookup_table_reverse.
destruct (list_find (λ x, x = t) v) as [[i x]|] eqn:Hfind.
- apply list_find_Some in Hfind as (Hi & -> & _).
  rewrite decide_True by lia. by rewrite Nat2Z.id, Hi.
- apply list_find_None in Hfind. rewrite list.Forall_forall in Hfind.
  by destruct (Hfind t Hin).
Qed.

Lemma lookup_table_reverse_pad (v : list string) (oov : string) :
v !! 0%nat = Some PAD_TOKEN → lookup_table_reverse v oov 0 = PAD_TOKEN.
Proof.
intros Hv. unfold lookup_table_reverse. rewrite decide_True by lia.
change (Z.to_nat 0) with 0%nat. by rewrite Hv.
Qed.

Lemma reduce_join_roundtrip (v : list string) (oov_id : Z) (oov : string)
  (toks : list string) :
Forall (λ t, t ∈ v) toks →
reduce_join (lookup_table_reverse v oov <$> (lookup_table v oov_id <$> toks))
= reduce_join toks.
Proof.
induction 1 as [|t toks Ht _ IH]; [done|].
rewrite !fmap_cons, !reduce_join_cons. by rewrite lookup_table_roundtrip, IH.
Qed.

Lemma detokenize_row (v : list string) (oov_id : Z) (oov : string)
  (toks : list string) (l r : nat) :
v !! 0%nat = Some PAD_TOKEN → Forall (λ t, t ∈ v) toks →
reduce_join (lookup_table_reverse v oov
               <$> (replicate l 0%Z ++ (lookup_table v oov_id <$> toks)
                      ++ replicate r 0%Z)%list)
= pads l ++ reduce_join toks ++ pads r.
Proof.
intros Hpad Hin. rewrite !fmap_app, !reduce_join_app, !fmap_replicate.
rewrite (lookup_table_reverse_pad _ _ Hpad).
by rewrite reduce_join_roundtrip.
Qed.

Lemma Tokenizer_init_Ok vocabulary sl add_bos add_eos oov sep pm tk :
Py.outcome (Tokenizer_init vocabulary sl add_bos add_eos oov sep pm) = Py.Ok tk →
eos_token tk = Some EOS_TOKEN
∧ (bos_token tk = None ∨ bos_token tk = Some BOS_TOKEN)
∧ pad_token_id tk = 0%Z
∧ sequence_length tk = sl
∧ (∀ v, _vocabulary tk = Some v → v !! 0%nat = Some PAD_TOKEN).
Proof.
unfold Tokenizer_init.
destruct (Py.truthy sl && negb (Py.isinstance_int sl)); [done|].
destruct add_eos; [|done].
destruct vocabulary as [[|t vocabulary]|].
- intros [= <-]. simpl. destruct add_bos; simpl; naive_solver.
- cbn -[_create_vocab foldl zip seq]. unfold _create_lookup_tables.
  case_decide; [|done]. cbn -[_create_vocab foldl zip seq].
  intros [= <-]. cbn -[_create_vocab foldl zip seq].
  destruct add_bos; cbn -[_create_vocab foldl zip seq];
    (split; [done|]); (split; [eauto|]); (split; [done|]); (split; [done|]);
    by intros v [= <-].
- intros [= <-]. simpl. destruct add_bos; simpl; naive_solver.
Qed.

Lemma fmap_fixed {A} (f : A → A) (l : list A) :
Forall (λ x, f x = x) l → f <$> l = l.
Proof. induction 1 as [|x l Hx _ IH]; [done|]. by rewrite fmap_cons, Hx, IH. Qed.

Lemma fit_row_fits {A} (n : nat) (d : A) (row : list A) :
(length row ≤ n)%nat → fit_row n d row = (row ++ replicate (n - length row) d)%list.
Proof. intros H. unfold fit_row. by rewrite take_ge. Qed.

Lemma fit_row_reverse {A} (n : nat) (d : A) (row : list A) :
(length row ≤ n)%nat →
reverse (fit_row n d (reverse row)) = (replicate (n - length row) d ++ row)%list.
Proof.
intros H. rewrite fit_row_fits by (by rewrite length_reverse).
by rewrite reverse_app, reverse_involutive, reverse_replicate, length_reverse.
Qed.

Section Roundtrip.
Variables (tk : Tokenizer) (v : list string).
Hypothesis Heos : eos_token tk = Some EOS_TOKEN.
Hypothesis Hbos : bos_token tk = None ∨ bos_token tk = Some BOS_TOKEN.
Hypothesis Hpad_id : pad_token_id tk = 0%Z.
Hypothesis Hv : _vocabulary tk = Some v.
Hypothesis Hpad : v !! 0%nat = Some PAD_TOKEN.

Lemma detokenize_rows (rows : list (list Z)) :
detokenize tk rows = Py.Ok (detokenize_row_of tk v <$> rows).
Proof.
unfold detokenize, id_to_token. rewrite Hv. simpl.
by rewrite <- !list_fmap_compose.
Qed.

Lemma token_to_id_rows (tokens : list (list string)) :
token_to_id tk tokens
= Py.Ok ((λ row : list string, lookup_table v (oov_token_id tk) <$> row) <$> tokens).
Proof. unfold token_to_id. by rewrite Hv. Qed.

Lemma padded_row_roundtrip (s : string) (l r : nat) :
Forall (λ t, t ∈ v) (tokens_of tk s) → no_markers s = true →
detokenize_row_of tk v
  (replicate l 0%Z ++ (lookup_table v (oov_token_id tk) <$> tokens_of tk s)
     ++ replicate r 0%Z)%list = s.
Proof.
intros Hin Hs. unfold detokenize_row_of.
rewrite detokenize_row by done.
unfold tokens_of. rewrite pretokenize_join. unfold marked.
rewrite Heos. cbn [or_empty]. rewrite !append_assoc.
by apply cleanup_marked.
Qed.
End Roundtrip.




(** C10. Without an end token [Tokenizer.__init__] always
  raises before any vocabulary is built: [ValueError] when
  [sequence_length] is truthy and not an [int], and [TypeError] (from
  decrementing the [None] end token id) otherwise. *)
Theorem tokenizer_without_eos_raises vocabulary sl add_bos oov sep pm :
Tokenizer_init vocabulary sl add_bos false oov sep pm
= Py.mkM (Py.Raise (if Py.truthy sl && negb (Py.isinstance_int sl)
                    then Py.ValueError else Py.TypeError)) [].
Proof.
unfold Tokenizer_init.
by destruct (Py.truthy sl && negb (Py.isinstance_int sl)).
Qed.

Lemma tokenizer_without_eos_counterexample :
Py.outcome (Tokenizer_init None (Py.PyFloat (3 # 2)) false false OOV_TOKEN None "right")
= Py.Raise Py.ValueError
∧ Py.outcome (Tokenizer_init None (Py.PyFloat (3 # 2)) false false OOV_TOKEN None "right")
  ≠ Py.Raise Py.TypeError.
Proof. split; by vm_compute. Qed.

End Strings.


(** ** Facts about samplers.py *)

(** C6. Constructing a [Sampler] raises exactly when the tokenizer has no
    begin token or no end token (the attribute is [None] or empty); when
    both are there the sampler is returned, and construction does no
    work: its trace is empty. *)
Theorem sampler_init_raises_iff {Cache} (model : TransformerDecoder Cache)
    (tk : Tokenizer) (temperature : Q) (run_eagerly : bool) :
  let m := Sampler_init model tk temperature run_eagerly in
  (Py.is_raise (Py.outcome m) = true
   ↔ (bos_token tk = None ∨ bos_token tk = Some ""%string)
     ∨ (eos_token tk = None ∨ eos_token tk = Some ""%string))
  ∧ (Py.is_raise (Py.outcome m) = false →
     ∃ self, Py.outcome m = Py.Ok self
             ∧ Samplers.model self = model ∧ tokenizer self = tk)
  ∧ Py.trace m = [].
Proof.
  unfold Sampler_init.
  destruct (bos_token tk) as [[|c b]|], (eos_token tk) as [[|c' e]|]; cbn;
    (split; [|split; [|reflexivity]]);
    first [ split; [intros _; tauto | reflexivity]
          | split; [discriminate | intros [[?|?]|[?|?]]; discriminate]
          | discriminate
          | intros _; eexists; repeat split ].
Qed.

(** C7. [sample] raises [ValueError] before any tokenization,
    priming or decode step when the decoder sequence (or, the decoder
    sequence passing, the encoder sequence) is not a tensor and its
    conversion to a tensor is not a string tensor. *)
Theorem sample_rejects_converted_non_string {Cache Rng}
    (random_categorical : Rng → list (list Tf.float32) → nat → list (list Z) * Rng)
    (log_softmax : list Q → list Q) (exp : Q → Q)
    (self : Sampler Cache) (fuel : nat) (rng : Rng)
    (decoder_sequence : Tf.arg) (encoder_sequence : option Tf.arg) :
  checked_non_string decoder_sequence = true
  ∨ (∃ e, encoder_sequence = Some e ∧ checked_non_string e = true) →
  sample random_categorical log_softmax exp self fuel rng
    decoder_sequence encoder_sequence
  = Py.mkM (Py.Raise Py.ValueError) [].
Proof.
  unfold checked_non_string, sample.
  intros [Hd | (e & -> & He)].
  - apply andb_true_iff in Hd as [-> ->]. done.
  - apply andb_true_iff in He as [-> ->].
    destruct (negb (Tf.is_tensor decoder_sequence)); [|done].
    by destruct (negb (Tf.is_string (Tf.convert_to_tensor decoder_sequence))).
Qed.

Lemma sample_rejects_converted_non_string_witness :
  sample first_class (λ l, l) (λ x, x) scenario_sampler 2 ()
    (Tf.Value (Tf.Int32Tensor [1%Z])) None
  = Py.mkM (Py.Raise Py.ValueError) [].
Proof.
  apply sample_rejects_converted_non_string. left. reflexivity.
Defined.

Lemma sample_tensor_unchecked_counterexample :
  (Tf.is_string (Tf.Int32Tensor [1%Z]) = false
   ∧ Py.trace (sample first_class (λ l, l) (λ x, x) scenario_sampler 2 ()
                 (Tf.Tensor (Tf.Int32Tensor [1%Z])) None)
     = [Py.Tokenize])
  ∧ (Tf.is_string (Tf.Float32Tensor [1%Q]) = false
     ∧ Py.trace (sample first_class (λ l, l) (λ x, x) scenario_sampler 2 ()
                   (Tf.Value (Tf.StringTensor ["A"%string]))
                   (Some (Tf.Tensor (Tf.Float32Tensor [1%Q]))))
       = [Py.Tokenize; Py.InitializeAttentionCache;
          Py.InitializeAttentionCache; Py.ModelCall]).
Proof. split; (split; [reflexivity|by vm_compute]). Qed.

Lemma bind_Ok {A B} (m : Py.M A) (f : A → Py.M B) (b : B) :
  Py.outcome (Py.bind m f) = Py.Ok b →
  ∃ a, Py.outcome m = Py.Ok a ∧ Py.outcome (f a) = Py.Ok b.
Proof.
  unfold Py.bind. destruct (Py.outcome m) as [a| |]; [|done..]. simpl. eauto.
Qed.

(** C1. After priming, the self-attention cache update index [_prepare]
    returns is [0] for every batch element, whatever the prompt: not the
    element's prompt length, the number of tokens of the prompt without
    its end marker, which priming has just written to the cache. *)
Theorem prepare_resets_cache_index {Cache} (self : Sampler Cache)
    (decoder_input : Tf.tensor) (encoder_output : option Tf.tensor)
    (prepared : Prepared Cache) :
  Py.outcome (_prepare self decoder_input encoder_output) = Py.Ok prepared →
  prepared_self_attention_cache_update_index prepared
  = DenseIndex (replicate (Tf.shape0 decoder_input) [0%Z])
  ∧ ∃ token_ids,
      tokenize (tokenizer self) decoder_input true = Py.Ok token_ids
      ∧ prepared_decoder_input prepared
        = (λ row : list Z, take (length row - 1) row) <$> token_ids.
Proof.
  unfold _prepare. intros ([] & _ & H)%bind_Ok.
  apply bind_Ok in H as (token_ids & Htok & H). simpl in Htok.
  apply bind_Ok in H as ([] & _ & H).
  apply bind_Ok in H as ([cross_cache cross_index] & _ & H).
  apply bind_Ok in H as (current & _ & H).
  apply bind_Ok in H as (decoder_sequence & _ & H).
  apply bind_Ok in H as ([] & _ & H).
  apply bind_Ok in H as (attention_cache & _ & H).
  simpl in H. injection H as <-. simpl. eauto.
Qed.

Lemma prepare_resets_cache_index_witness :
  ∃ prepared,
    Py.outcome (_prepare scenario_sampler (Tf.StringTensor ["A"%string]) None)
    = Py.Ok prepared
    ∧ row_lengths (prepared_decoder_input prepared) = [2%nat]
    ∧ prepared_self_attention_cache_update_index prepared = DenseIndex [[0%Z]].
Proof.
  eexists. split; [vm_compute; reflexivity|]. split; [reflexivity|].
  apply (prepare_resets_cache_index scenario_sampler (Tf.StringTensor ["A"%string]) None).
  vm_compute. reflexivity.
Defined.

Section Fuel.
Lemma bind_more_fuel {A B} (m : Py.M A) (f g : A → Py.M B) :
  (∀ a, Py.outcome (f a) ≠ Py.OutOfFuel → g a = f a) →
  Py.outcome (Py.bind m f) ≠ Py.OutOfFuel → Py.bind m g = Py.bind m f.
Proof.
  unfold Py.bind. intros Hfg. destruct (Py.outcome m) as [a| |]; [|done..].
  simpl. intros Hf. by rewrite Hfg.
Qed.

Lemma bind_more_fuel_l {A B} (m m' : Py.M A) (f : A → Py.M B) :
  (Py.outcome m ≠ Py.OutOfFuel → m' = m) →
  Py.outcome (Py.bind m f) ≠ Py.OutOfFuel → Py.bind m' f = Py.bind m f.
Proof.
  intros Hm Hf. rewrite Hm; [done|]. intros Ho. apply Hf.
  unfold Py.bind. by rewrite Ho.
Qed.

Lemma while_loop_false {S} (cond : S → bool) (body : S → Py.M S) fuel s :
  cond s = false → while_loop fuel cond body s = Py.ret s.
Proof. intros H. destruct fuel; simpl; by rewrite H. Qed.

Lemma while_loop_more_fuel {S} (cond : S → bool) (body : S → Py.M S) n :
  ∀ fuel s,
    Py.outcome (while_loop fuel cond body s) ≠ Py.OutOfFuel →
    while_loop (fuel + n) cond body s = while_loop fuel cond body s.
Proof.
  induction fuel as [|fuel IH]; intros s.
  - destruct (cond s) eqn:Hc.
    + simpl. by rewrite Hc.
    + intros _. by rewrite !while_loop_false.
  - simpl. destruct (cond s); [|done].
    apply bind_more_fuel. intros s'. apply IH.
Qed.

Context {Cache Rng : Type}.
Variable random_categorical : Rng → list (list Tf.float32) → nat → list (list Z) * Rng.
Variables (log_softmax : list Q → list Q) (exp : Q → Q).
Variable self : Sampler Cache.

Lemma generate_more_fuel fuel n rng ct lp en sc si eo cc ci :
  Py.outcome (_generate random_categorical log_softmax exp self fuel rng
                ct lp en sc si eo cc ci) ≠ Py.OutOfFuel →
  _generate random_categorical log_softmax exp self (fuel + n) rng
    ct lp en sc si eo cc ci
  = _generate random_categorical log_softmax exp self fuel rng
      ct lp en sc si eo cc ci.
Proof.
  unfold _generate.
  apply bind_more_fuel; intros ?. apply bind_more_fuel; intros ?.
  apply bind_more_fuel; intros ?. apply while_loop_more_fuel.
Qed.

(** A run that finished keeps its outcome and trace with more fuel. *)
Lemma sample_more_fuel fuel n rng d e :
  Py.outcome (sample random_categorical log_softmax exp self fuel rng d e)
  ≠ Py.OutOfFuel →
  sample random_categorical log_softmax exp self (fuel + n) rng d e
  = sample random_categorical log_softmax exp self fuel rng d e.
Proof.
  unfold sample, Sampler_call.
  apply bind_more_fuel; intros ?. apply bind_more_fuel; intros ?.
  apply bind_more_fuel; intros ?. apply bind_more_fuel_l.
  apply generate_more_fuel.
Qed.
End Fuel.


Lemma scenario_sample_counterexample :
  Py.outcome (scenario_sample 2) = Py.Ok ["AAB"%string]
  ∧ Py.outcome (scenario_sample 2) ≠ Py.Ok ["AB"%string]
  ∧ self_attention_cache_update_index scenario_final_vars
    ≠ Some (DenseIndex [[3%Z]]).
Proof. split; [by vm_compute|]. split; [by vm_compute|discriminate]. Qed.

(** C2. The scenario: the prompt ["A"] tokenizes, without its
    end marker, to [[bos]], [A] (length 2); generation halts after
    exactly two decode steps, which emit [B] and [[eos]]; the cache update
    index at the end is its value after priming advanced twice; and the
    returned string is the detokenization of a row that begins with the
    prompt tokens and ends with the generated tokens. *)
Theorem scenario_sample_two_steps (n : nat) :
  ∃ prepared final middle,
    Py.outcome scenario_prepare = Py.Ok prepared
    ∧ prepared_decoder_input prepared = [[2; 4]]%Z
    ∧ Py.outcome (scenario_generate (2 + n) prepared) = Py.Ok final
    ∧ count_event Py.NextToken (Py.trace (scenario_generate (2 + n) prepared)) = 2%nat
    ∧ tokens final = [prepared_current_token prepared; [5]; [3]]%Z
    ∧ self_attention_cache_update_index final
      = Some (increment (increment
                (prepared_self_attention_cache_update_index prepared)))
    ∧ Py.outcome (scenario_sample (2 + n))
      = detokenize scenario_tokenizer [([2; 4] ++ middle ++ [5; 3])%Z].
Proof.
  set (p := {| prepared_current_token := [4%Z];
               prepared_decoder_input := [[2%Z; 4%Z]];
               prepared_self_attention_cache := Some ();
               prepared_self_attention_cache_update_index := DenseIndex [[0%Z]];
               prepared_encoder_output := None;
               prepared_cross_attention_cache := None;
               prepared_cross_attention_cache_update_index := None |}).
  assert (Hgen : scenario_generate (2 + n) p = scenario_generate 2 p).
  { unfold scenario_generate. apply generate_more_fuel. by vm_compute. }
  exists p. eexists. exists [4%Z]. split; [by vm_compute|]. split; [reflexivity|].
  rewrite Hgen. split; [by vm_compute|]. split; [by vm_compute|].
  split; [reflexivity|]. split; [reflexivity|].
  unfold scenario_sample. rewrite sample_more_fuel by (by vm_compute).
  by vm_compute.
Qed.

Lemma existsb_emitted (eos : Z) (stack : list (list Z)) (b : nat) :
  existsb (λ row : list Z,
             match row !! b with
             | Some t => Z.eqb t eos
             | None => false
             end) stack = true
  ↔ emitted eos stack b.
Proof.
  rewrite existsb_exists. unfold emitted. split.
  - intros (row & Hin%list_elem_of_In & Hrow). exists row. split; [done|].
    destruct (row !! b) as [t|]; [|done]. by apply Z.eqb_eq in Hrow as ->.
  - intros (row & Hin%list_elem_of_In & Hrow). exists row. split; [done|].
    rewrite Hrow. apply Z.eqb_refl.
Qed.

Lemma forallb_false {A} (P : A → bool) (l : list A) :
  forallb P l = false ↔ ∃ x, x ∈ l ∧ P x = false.
Proof.
  induction l as [|x l IH]; simpl.
  - split; [done|]. by intros (x & ?%elem_of_nil & _).
  - rewrite andb_false_iff, IH. split.
    + intros [Hx | (y & Hy & HP)]; [exists x|exists y]; split; try done.
      * apply list_elem_of_here.
      * by apply list_elem_of_further.
    + intros (y & [-> | Hy]%elem_of_cons & HP); [by left|right; eauto].
Qed.

Section Halting.
Context {Cache Rng : Type}.
Variable random_categorical : Rng → list (list Tf.float32) → nat → list (list Z) * Rng.
Variables (log_softmax : list Q → list Q) (exp : Q → Q).
Variable self : Sampler Cache.

Let eos := eos_token_id (tokenizer self).
Let loop := λ fuel, while_loop fuel (_cond self)
                      (_step random_categorical log_softmax exp self).

Lemma cond_true_iff (vars : LoopVars Cache Rng) :
  _cond self vars = true
  ↔ ∃ b, (b < stack_width (tokens vars))%nat ∧ ¬ emitted eos (tokens vars) b.
Proof.
  unfold _cond. rewrite negb_true_iff, forallb_false. split.
  - intros (b & Hb%elem_of_seq & Hex). exists b. split; [lia|].
    intros Hem%existsb_emitted. fold eos in Hex. congruence.
  - intros (b & Hb & Hne). exists b. split; [apply elem_of_seq; lia|].
    apply not_true_iff_false. intros Hex%existsb_emitted. done.
Qed.

Lemma cond_false_emitted (vars : LoopVars Cache Rng) (b : nat) :
  _cond self vars = false → (b < stack_width (tokens vars))%nat →
  emitted eos (tokens vars) b.
Proof.
  unfold _cond. rewrite negb_false_iff, forallb_forall. intros Hall Hb.
  apply existsb_emitted, Hall, list_elem_of_In, elem_of_seq. lia.
Qed.

Lemma while_loop_Ok_cond {S} (cond : S → bool) (body : S → Py.M S) :
  ∀ fuel s final,
    Py.outcome (while_loop fuel cond body s) = Py.Ok final → cond final = false.
Proof.
  induction fuel as [|fuel IH]; intros s final; simpl;
    destruct (cond s) eqn:Hc; try done.
  - by intros [= <-].
  - intros (s' & _ & Hs')%bind_Ok. by eapply IH.
  - by intros [= <-].
Qed.

Hypothesis model_rows : ∀ ds sc si eo cc ci,
  length (decoder_stack (model self) ds sc si eo cc ci).1.1 = length ds.
Hypothesis categorical_rows : ∀ g logits n,
  length (random_categorical g logits n).1 = length logits.

Lemma squeeze_1_length {A} (x : list (list A)) (r : list A) :
  squeeze_1 x = Py.Ok r → length r = length x.
Proof.
  unfold squeeze_1.
  destruct (mapM _ x) as [r'|] eqn:Hm; [|done]. intros [= <-].
  symmetry. by eapply length_mapM.
Qed.

Lemma top_k_length (x : list (list Q)) (k : nat) vals idx :
  top_k x k = Py.Ok (vals, idx) → length vals = length x ∧ length idx = length x.
Proof.
  unfold top_k. destruct (mapM _ x) as [best|] eqn:Hm; [|done].
  intros [= <- <-]. rewrite !length_fmap.
  apply length_mapM in Hm. by rewrite Hm.
Qed.

Lemma take_along_axis_length {A} (x : list (list A)) (i : list (list Z)) r :
  take_along_axis x i = Py.Ok r → length r = length x.
Proof.
  unfold take_along_axis. destruct (mapM _ (zip x i)) as [r'|] eqn:Hm; [|done].
  case_decide as Hlen; [|done]. intros [= <-].
  apply length_mapM in Hm. rewrite <- Hm, length_zip_with. lia.
Qed.

Lemma get_next_token_length g (logits : list (list Q)) tok g' :
  get_next_token random_categorical self g logits = Py.Ok (tok, g') →
  length tok = length logits.
Proof.
  unfold get_next_token, TopKSampler_get_next_token, Sampler_get_next_token.
  destruct (policy self) as [|k].
  - intros [= Heq].
    pose proof (categorical_rows g (scale (temperature self) logits) 1) as Hl.
    rewrite Heq in Hl. simpl in Hl. unfold scale in Hl. by rewrite Hl, length_fmap.
  - destruct (top_k logits k) as [[vals idx]| |] eqn:Htop; [|done..].
    apply top_k_length in Htop as [Hvals Hidx]. cbn [Py.and_then].
    destruct (random_categorical g _ 1) as [smp g''] eqn:Hrc.
    destruct (take_along_axis idx smp) as [t| |] eqn:Htake; [|done..].
    cbn [Py.and_then]. intros [= <- <-].
    apply take_along_axis_length in Htake. congruence.
Qed.

Lemma step_emits_for_every_row (vars vars' : LoopVars Cache Rng) :
  Py.outcome (_step random_categorical log_softmax exp self vars) = Py.Ok vars' →
  ∃ current next,
    last (tokens vars) = Some current
    ∧ tokens vars' = tokens vars ++ [next]
    ∧ length next = length current.
Proof.
  unfold _step. intros (current & Hcur & H)%bind_Ok.
  destruct (tokens vars !! (length (tokens vars) - 1)%nat) as [cur|] eqn:Hlast;
    [|done]. injection Hcur as <-.
  apply bind_Ok in H as ([] & _ & H).
  unfold TransformerDecoder_call in H.
  pose proof (model_rows ((λ t : Z, [t]) <$> cur)
                (self_attention_cache vars) (self_attention_cache_update_index vars)
                (encoder_output vars) (cross_attention_cache vars)
                (cross_attention_cache_update_index vars)) as Hrows.
  destruct (decoder_stack _ _ _ _ _ _ _) as [[x sc] cc]. simpl in Hrows.
  rewrite length_fmap in Hrows.
  assert (∃ sc' cc',
    Py.outcome
      (let* logits := Py.lift (squeeze_1 x) in
       let* _ := Py.tell Py.NextToken in
       let* next := Py.lift (get_next_token random_categorical self (rng vars) logits) in
       let '(next_token, rng) := next in
       let* next_token := Py.lift (squeeze_1 next_token) in
       let tokens := tokens vars ++ [next_token] in
       let log_prob := log_softmax <$> logits in
       let* log_probs :=
         match log_probs vars with
         | Some a => let* lp := Py.lift (_log_prob next_token log_prob) in
                     Py.ret (Some (TensorArray_write a (length (Samplers.tokens vars)) lp))
         | None => Py.ret None
         end in
       let entropies :=
         match entropies vars with
         | Some a => Some (TensorArray_write a (length (Samplers.tokens vars))
                               (_entropy exp log_prob))
         | None => None
         end in
       Py.ret {| tokens := tokens;
                 log_probs := log_probs;
                 entropies := entropies;
                 self_attention_cache := sc';
                 self_attention_cache_update_index :=
                   increment <$> self_attention_cache_update_index vars;
                 encoder_output := encoder_output vars;
                 cross_attention_cache := cc';
                 cross_attention_cache_update_index :=
                   increment <$> cross_attention_cache_update_index vars;
                 rng := rng |}) = Py.Ok vars') as (sc' & cc' & H').
  { destruct (negb _ && negb _); [eauto|]. destruct (_ && negb _); eauto. }
  clear H. apply bind_Ok in H' as (logits & Hsq & H). simpl in Hsq.
  apply squeeze_1_length in Hsq.
  apply bind_Ok in H as ([] & _ & H).
  apply bind_Ok in H as ([tok g'] & Hnext & H). simpl in Hnext.
  apply get_next_token_length in Hnext.
  apply bind_Ok in H as (next & Hsq' & H). simpl in Hsq'.
  apply squeeze_1_length in Hsq'.
  apply bind_Ok in H as (lp & _ & H). simpl in H. injection H as <-.
  exists cur, next. split; [|split; [done|congruence]].
  rewrite last_lookup. by replace (pred (length (tokens vars)))
    with (length (tokens vars) - 1)%nat by lia.
Qed.
End Halting.



Lemma foldl_max_spec (l : list (nat * Q)) : ∀ p,
  let r := foldl (λ best q, if Qlt_le_dec best.2 q.2 then q else best) p l in
  r ∈ p :: l ∧ ∀ q, q ∈ p :: l → (q.2 <= r.2)%Q.
Proof.
  induction l as [|x l IH]; intros p; simpl.
  - split; [apply list_elem_of_here|]. intros q ->%list_elem_of_singleton. apply Qle_refl.
  - destruct (Qlt_le_dec p.2 x.2) as [Hlt|Hle].
    + destruct (IH x) as [Hin Hmax]. split; [by apply list_elem_of_further|].
      intros q [-> | Hq]%elem_of_cons.
      * eapply Qle_trans; [apply Qlt_le_weak, Hlt|]. apply Hmax, list_elem_of_here.
      * by apply Hmax.
    + destruct (IH p) as [Hin Hmax]. split.
      * apply elem_of_cons in Hin as [-> | Hin]; [apply list_elem_of_here|].
        by do 2 apply list_elem_of_further.
      * intros q [-> | [-> | Hq]%elem_of_cons]%elem_of_cons.
        -- apply Hmax, list_elem_of_here.
        -- eapply Qle_trans; [apply Hle|]. apply Hmax, list_elem_of_here.
        -- by apply Hmax, list_elem_of_further.
Qed.

Lemma argmax_spec (l : list (nat * Q)) :
  l ≠ [] → ∃ r, argmax l = Some r ∧ r ∈ l ∧ ∀ q, q ∈ l → (q.2 <= r.2)%Q.
Proof.
  destruct l as [|p l]; [done|]. intros _. eexists. split; [reflexivity|].
  apply foldl_max_spec.
Qed.

Lemma best_spec (row : list Q) :
  row ≠ [] →
  argmax (imap (λ i v, (i, v)) row) = Some (best row)
  ∧ row !! (best row).1 = Some (best row).2
  ∧ ∀ j y, row !! j = Some y → (y <= (best row).2)%Q.
Proof.
  intros Hrow. unfold best.
  destruct (argmax_spec (imap (λ i v, (i, v)) row)) as (r & -> & Hin & Hmax).
  { destruct row; [done|]. done. }
  simpl. split; [done|]. split.
  - apply elem_of_lookup_imap in Hin as (i & x & -> & Hx). done.
  - intros j y Hy. apply (Hmax (j, y)). apply elem_of_lookup_imap. eauto.
Qed.

Lemma float32_div_within (x t : Q) :
  (0 < t)%Q → within_float32 (x / t) → Tf.float32_div x t = Tf.Finite (x / t).
Proof.
  intros Ht [Hlo Hhi]. unfold Tf.float32_div.
  destruct (Qeq_bool t 0) eqn:Hz.
  { apply Qeq_bool_eq in Hz. rewrite Hz in Ht. by apply Qlt_irrefl in Ht. }
  cbv zeta.
  destruct (Qle_bool Tf.FLOAT32_OVERFLOW (x / t)) eqn:Hup.
  { apply Qle_bool_imp_le in Hup. by apply Qlt_not_le in Hhi. }
  destruct (Qle_bool (x / t) (- Tf.FLOAT32_OVERFLOW)) eqn:Hdown; [|done].
  apply Qle_bool_imp_le in Hdown. by apply Qlt_not_le in Hlo.
Qed.

Section TopK.
Context {Rng : Type}.
Variable random_categorical :
  Rng → list (list Tf.float32) → nat → list (list Z) * Rng.
Hypothesis contract : categorical_contract random_categorical.

Lemma top_1 (logits : list (list Q)) :
  Forall (λ row, row ≠ []) logits →
  top_k logits 1
  = Py.Ok ((λ row : list Q, [(best row).2]) <$> logits,
           (λ row : list Q, [Z.of_nat (best row).1]) <$> logits).
Proof.
  intros Hne. unfold top_k.
  rewrite (mapM_total _ (λ row : list Q, [best row])).
  - by rewrite <- !list_fmap_compose.
  - intros row Hrow. rewrite list.Forall_forall in Hne.
    destruct (best_spec row (Hne row Hrow)) as (Hbest & _).
    simpl. by rewrite Hbest.
Qed.

(** Among the classes of rows of one finite logit only class [0] can
    be drawn. *)
Lemma categorical_single (g : Rng) (logits : list (list Tf.float32)) :
  Forall (λ row, ∃ q, row = [Tf.Finite q]) logits →
  (random_categorical g logits 1).1 = (λ _ : list Tf.float32, [0%Z]) <$> logits.
Proof.
  intros Hone. pose proof (contract g logits 1) as Hc.
  revert Hone. induction Hc as [|row ids logits' samples [Hlen Hids] _ IH];
    intros Hone; [done|].
  apply list.Forall_cons in Hone as [[q ->] Hone].
  rewrite fmap_cons, IH by done. f_equal.
  destruct ids as [|c [|??]]; try done.
  assert (Hne : [Tf.Finite q] ≠ []) by done.
  apply Hids in Hne. cbn [existsb Tf.is_finite orb] in Hne.
  apply list.Forall_cons in Hne as [Hc' _]. cbn [length] in Hc'.
  f_equal. lia.
Qed.

(** In a row of one infinite logit the kernel finds no class. *)
Lemma categorical_overflow (g : Rng) (negative : bool) :
  (random_categorical g [[Tf.Inf negative]] 1).1 = [[1%Z]].
Proof.
  pose proof (contract g [[Tf.Inf negative]] 1) as Hc.
  destruct (random_categorical g _ 1).1 as [|ids rest]; [by inversion Hc|].
  apply Forall2_cons in Hc as [[Hlen Hids] Hrest].
  apply Forall2_nil_inv_l in Hrest as ->.
  destruct ids as [|c [|??]]; try done.
  assert (Hne : [Tf.Inf negative] ≠ []) by done.
  apply Hids in Hne. cbn [existsb Tf.is_finite orb] in Hne.
  apply list.Forall_cons in Hne as [-> _]. done.
Qed.

Lemma take_first (logits : list (list Q)) :
  take_along_axis ((λ row : list Q, [Z.of_nat (best row).1]) <$> logits)
                  ((λ _ : list Q, [0%Z]) <$> logits)
  = Py.Ok ((λ row : list Q, [Z.of_nat (best row).1]) <$> logits).
Proof.
  unfold take_along_axis.
  rewrite zip_with_fmap_l, zip_with_fmap_r, zip_with_diag.
  rewrite (mapM_total _ (λ p : list Z * list Z, p.1)).
  - rewrite !length_fmap, decide_True by done.
    by rewrite <- list_fmap_compose.
  - intros p (row & -> & _)%list_elem_of_fmap. done.
Qed.

Lemma top_1_next_token (temperature : Q) (g : Rng) (logits : list (list Q)) :
  (0 < temperature)%Q →
  Forall (λ row, row ≠ []) logits →
  Forall (Forall (λ x, within_float32 (x / temperature))) logits →
  ∃ g', TopKSampler_get_next_token random_categorical 1 temperature g logits
        = Py.Ok ((λ row : list Q, [Z.of_nat (best row).1]) <$> logits, g').
Proof.
  intros Ht Hne Hin. unfold TopKSampler_get_next_token, Sampler_get_next_token.
  rewrite top_1 by done. cbn [Py.and_then].
  destruct (random_categorical g _ 1) as [smp g'] eqn:Hrc.
  pose proof (categorical_single g
    (scale temperature ((λ row : list Q, [(best row).2]) <$> logits))) as Hsmp.
  rewrite Hrc in Hsmp. cbn [fst] in Hsmp. rewrite Hsmp.
  - unfold scale. rewrite <- !list_fmap_compose.
    change ((λ _ : list Tf.float32, [0%Z]) ∘ _ ∘ _) with (λ _ : list Q, [0%Z]).
    rewrite take_first. cbn [Py.and_then]. eauto.
  - unfold scale. apply list.Forall_fmap, list.Forall_fmap.
    rewrite list.Forall_forall in Hne, Hin. apply list.Forall_forall.
    intros row Hrow. unfold compose. cbn [fmap list_fmap].
    exists ((best row).2 / temperature)%Q. f_equal.
    apply float32_div_within; [done|].
    destruct (best_spec row (Hne row Hrow)) as (_ & Hat & _).
    specialize (Hin row Hrow). rewrite list.Forall_forall in Hin.
    apply Hin. by eapply list_elem_of_lookup_2.
Qed.

(** When the highest logit of a row divided by the temperature is
    beyond the range of [float32], the one logit the kernel is given
    is an infinity, the id it returns is [1], and there is no entry
    [1] among the one index [top_k] kept. *)
Lemma top_1_overflow (temperature : Q) (g : Rng) (row : list Q) :
  (0 < temperature)%Q → row ≠ [] →
  (Tf.FLOAT32_OVERFLOW <= (best row).2 / temperature)%Q →
  Py.is_raise (TopKSampler_get_next_token random_categorical 1 temperature g [row])
  = true.
Proof.
  intros Ht Hne Hov. unfold TopKSampler_get_next_token, Sampler_get_next_token.
  rewrite top_1 by (by constructor). unfold scale. cbn [Py.and_then fmap list_fmap].
  assert (Tf.float32_div (best row).2 temperature = Tf.Inf false) as ->.
  { unfold Tf.float32_div.
    destruct (Qeq_bool temperature 0) eqn:Hz.
    { apply Qeq_bool_eq in Hz. rewrite Hz in Ht. by apply Qlt_irrefl in Ht. }
    cbv zeta. apply Qle_bool_iff in Hov. by rewrite Hov. }
  pose proof (categorical_overflow g false) as Hc.
  destruct (random_categorical g _ 1) as [smp g']. cbn [fst] in Hc. subst smp.
  reflexivity.
Qed.
End TopK.


Lemma finite_classes_elem_of (row : list Tf.float32) (i : nat) :
  i ∈ finite_classes row ↔ ∃ x, row !! i = Some x ∧ Tf.is_finite x = true.
Proof.
  unfold finite_classes. rewrite list_elem_of_fmap. split.
  - intros ([j x] & -> & [Hfin Hin]%list_elem_of_filter).
    apply elem_of_lookup_imap in Hin as (k & y & [= -> ->] & Hy). eauto.
  - intros (x & Hx & Hfin). exists (i, x). split; [done|].
    apply list_elem_of_filter. split; [done|].
    apply elem_of_lookup_imap. eauto.
Qed.

Lemma finite_classes_exists (row : list Tf.float32) :
  existsb Tf.is_finite row = true ↔ finite_classes row ≠ [].
Proof.
  rewrite existsb_exists. split.
  - intros (x & Hin & Hfin). apply list_elem_of_In, list_elem_of_lookup in Hin as [i Hi].
    assert (i ∈ finite_classes row) as Hmem by (apply finite_classes_elem_of; eauto).
    intros Hnil. rewrite Hnil in Hmem. by apply elem_of_nil in Hmem.
  - intros Hne. destruct (finite_classes row) as [|i l] eqn:Hl; [done|].
    assert (i ∈ finite_classes row) as Hmem by (rewrite Hl; left).
    apply finite_classes_elem_of in Hmem as (x & Hx & Hfin).
    exists x. split; [|done]. by eapply list_elem_of_In, list_elem_of_lookup_2.
Qed.

Lemma last_class_contract : categorical_contract last_class.
Proof.
  intros g logits n. unfold last_class. cbn [fst].
  apply Forall2_fmap_r, Forall_Forall2_diag, list.Forall_forall. intros row _.
  split; [apply length_replicate|]. intros Hne.
  destruct (existsb Tf.is_finite row) eqn:Hex; apply Forall_replicate.
  - apply finite_classes_exists in Hex.
    destruct (last (finite_classes row)) as [i|] eqn:Hlast.
    + apply last_Some_elem_of, finite_classes_elem_of in Hlast as (x & Hx & _).
      apply lookup_lt_Some in Hx. unfold default; cbn [from_option id]. lia.
    + by apply last_None in Hlast.
  - destruct (finite_classes row) as [|i l] eqn:Hl; [done|].
    assert (existsb Tf.is_finite row = true) as Hex'
      by (apply finite_classes_exists; by rewrite Hl).
    congruence.
Qed.




(** ** Further facts about tokenizers.py *)

Section Products.

#[local] Open Scope string_scope.

Lemma split_from_scan sep piece c r :
split_from sep 0 piece (String c r) =
if String.prefix sep (String c r)
then piece :: split_from sep (String.length sep - 1) "" r
else split_from sep 0 (piece ++ String c "") r.
Proof. done. Qed.

Lemma split_from_nonempty sep s : ∀ pending piece,
split_from sep pending piece s ≠ [].
Proof.
induction s as [|c r IH]; intros pending piece; [done|].
destruct pending; [|apply IH]. rewrite split_from_scan.
destruct (String.prefix sep (String c r)); [done|apply IH].
Qed.

Lemma concat_cons sep x l :
l ≠ [] → String.concat sep (x :: l) = x ++ sep ++ String.concat sep l.
Proof. by destruct l. Qed.

Lemma prefix_drop p : ∀ s,
String.prefix p s = true → s = p ++ string_drop (String.length p) s.
Proof.
induction p as [|a p IH]; intros s; [done|].
destruct s as [|b s]; simpl; [done|].
destruct (ascii_dec a b) as [->|]; [|done]. intros H.
rewrite append_cons. f_equal. by apply IH.
Qed.

(** Joining the pieces gives the text back, from any state of the scan. *)
Lemma split_from_join sep s : ∀ pending piece,
sep ≠ "" →
String.concat sep (split_from sep pending piece s) = piece ++ string_drop pending s.
Proof.
induction s as [|c r IH]; intros pending piece Hsep.
- simpl. destruct pending; by rewrite append_nil_r.
- destruct pending as [|k]; [rewrite split_from_scan|simpl].
  + destruct (String.prefix sep (String c r)) eqn:Hp.
    * rewrite concat_cons by apply split_from_nonempty.
      rewrite IH by done. rewrite append_nil_l. f_equal.
      apply prefix_drop in Hp. destruct sep as [|a sep]; [done|].
      cbn [String.length string_drop] in *.
      replace (S (String.length sep) - 1) with (String.length sep) by lia.
      by rewrite <- Hp.
    * rewrite IH by done. by rewrite append_snoc.
  + by rewrite IH.
Qed.

Lemma concat_snoc sep init q :
init ≠ [] → String.concat sep (init ++ [q]) = String.concat sep init ++ sep ++ q.
Proof.
induction init as [|x init IH]; [done|]. intros _.
destruct init as [|y init]; [done|].
change (String.concat sep ((x :: y :: init) ++ [q]))
  with (x ++ sep ++ String.concat sep ((y :: init) ++ [q])).
rewrite IH by done.
change (String.concat sep (x :: y :: init))
  with (x ++ sep ++ String.concat sep (y :: init)).
by rewrite !append_assoc.
Qed.

Lemma occurs_prefix m s : String.prefix m s = true → occurs m s = true.
Proof. intros H. destruct s; simpl in *; by rewrite H. Qed.

Lemma occurs_step m c r :
String.prefix m (String c r) = false → occurs m (String c r) = occurs m r.
Proof. intros H. change (occurs m (String c r)) with (String.prefix m (String c r) || occurs m r). by rewrite H. Qed.

(** The scan either finds no separator and returns the text as its one
  piece, or returns at least two pieces of which the last holds no
  separator. *)
Lemma split_from_last sep s : sep ≠ "" → ∀ pending piece,
(occurs sep (string_drop pending s) = false
 ∧ split_from sep pending piece s = [piece ++ string_drop pending s])
∨ (occurs sep (string_drop pending s) = true
   ∧ ∃ init q, split_from sep pending piece s = (init ++ [q])%list
               ∧ init ≠ [] ∧ occurs sep q = false).
Proof.
intros Hsep. induction s as [|c r IH]; intros pending piece.
- destruct (occurs sep "") eqn:Hocc.
  + by destruct sep.
  + left. destruct pending; simpl; by rewrite append_nil_r.
- destruct pending as [|k]; [|apply IH].
  rewrite split_from_scan. cbn [string_drop].
  destruct (String.prefix sep (String c r)) eqn:Hp.
  + right. split; [by apply occurs_prefix|].
    destruct (IH (String.length sep - 1) "") as [[Hocc ->]|(_ & init & q & -> & _ & Hq)].
    * exists [piece], ("" ++ string_drop (String.length sep - 1) r).
      by rewrite append_nil_l.
    * by exists (piece :: init), q.
  + rewrite (occurs_step _ _ _ Hp).
    destruct (IH 0 (piece ++ String c "")) as [[Hocc ->]|(Hocc & init & q & -> & Hi & Hq)].
    * left. split; [done|]. by rewrite append_snoc.
    * right. split; [done|]. by exists init, q.
Qed.

(** X1. [truncate_product] and [extract_product] cut a reaction string
  at its last separator: for a separator that is not empty both
  return, the product holds no separator, and when the separator
  occurs in the string the two results put together are the string
  again; when it does not occur, the product is the whole string and
  the truncated text is the separator alone. *)
Theorem product_split (s sep : string) :
sep ≠ "" →
∃ reactants product,
  truncate_product (Smiles s) sep = Py.Ok reactants
  ∧ extract_product (Smiles s) sep = Py.Ok product
  ∧ occurs sep product = false
  ∧ if occurs sep s then reactants ++ product = s
    else reactants = sep ∧ product = s.
Proof.
intros Hsep. unfold truncate_product, extract_product, str_split, str_join.
destruct (String.eqb_spec sep "") as [|_]; [done|]. cbn [Py.and_then].
pose proof (split_from_join sep s 0 "" Hsep) as Hjoin.
rewrite append_nil_l in Hjoin. cbn [string_drop] in Hjoin.
destruct (split_from_last sep s Hsep 0 "") as [[Hocc Hs]|(Hocc & init & q & Hs & Hi & Hq)];
  cbn [string_drop] in Hocc; rewrite Hocc, Hs.
- rewrite append_nil_l. cbn [string_drop]. exists sep, s.
  by rewrite append_nil_l.
- rewrite Hs in Hjoin. rewrite last_snoc, length_app. cbn [length].
  replace (length init + 1 - 1)%nat with (length init) by lia.
  rewrite take_app_length. eexists _, _. do 3 (split; [done|]).
  rewrite concat_snoc in Hjoin by done. by rewrite append_assoc.
Qed.

Lemma product_split_witness :
SEP_TOKEN ≠ ""
∧ ∃ reactants product,
    truncate_product (Smiles "CC[sep]CO[sep]O") SEP_TOKEN = Py.Ok reactants
    ∧ extract_product (Smiles "CC[sep]CO[sep]O") SEP_TOKEN = Py.Ok product
    ∧ occurs SEP_TOKEN product = false
    ∧ if occurs SEP_TOKEN "CC[sep]CO[sep]O" then reactants ++ product = "CC[sep]CO[sep]O"
      else reactants = SEP_TOKEN ∧ product = "CC[sep]CO[sep]O".
Proof. split; [done|]. apply (product_split "CC[sep]CO[sep]O" SEP_TOKEN). done. Defined.

End Products.

Section Vocabulary.

#[local] Open Scope string_scope.

(** *** The vocabulary built by the constructor *)

Lemma table_insert_keys table k v :
(table_insert table k v).*1 = if decide (k ∈ table.*1) then table.*1 else (table.*1 ++ [k])%list.
Proof.
induction table as [|[k' v'] table IH]; [done|]. cbn [table_insert].
destruct (String.eqb_spec k' k) as [->|Hne]; rewrite !fmap_cons; cbn [fst].
- rewrite decide_True by (left). done.
- rewrite IH. destruct (decide (k ∈ table.*1)) as [Hin|Hin].
  + by rewrite decide_True by (by right).
  + rewrite decide_False; [done|]. by intros [->|]%elem_of_cons.
Qed.

Lemma table_insert_fresh table k v :
k ∉ table.*1 → table_insert table k v = (table ++ [(k, v)])%list.
Proof.
induction table as [|[k' v'] table IH]; [done|]. simpl.
intros [Hne Hin]%not_elem_of_cons.
destruct (String.eqb_spec k' k) as [->|_]; [done|]. by rewrite IH.
Qed.

Lemma foldl_table_insert_NoDup (kvs : list (string * Z)) : ∀ table,
NoDup table.*1 →
NoDup (foldl (λ table kv, table_insert table kv.1 kv.2) table kvs).*1.
Proof.
induction kvs as [|[k v] kvs IH]; intros table Hnd; [done|].
simpl. apply IH. rewrite table_insert_keys. case_decide; [done|].
apply list.NoDup_app. split_and!; [done| |apply NoDup_singleton].
intros x Hx ->%list_elem_of_singleton. done.
Qed.

Lemma foldl_table_insert_fresh (kvs : list (string * Z)) : ∀ table,
NoDup (table.*1 ++ kvs.*1) →
foldl (λ table kv, table_insert table kv.1 kv.2) table kvs = (table ++ kvs)%list.
Proof.
induction kvs as [|[k v] kvs IH]; intros table Hnd; [by rewrite app_nil_r|].
simpl. rewrite table_insert_fresh.
- rewrite IH; [by rewrite <- app_assoc|].
  rewrite fmap_app. simpl. rewrite <- app_assoc. done.
- apply list.NoDup_app in Hnd as (_ & Hd & _). intros Hin. apply (Hd k Hin). simpl. left.
Qed.

Lemma sort_insert_perm x l : sort_insert x l ≡ₚ x :: l.
Proof.
induction l as [|y l IH]; [done|]. simpl. destruct (before x y); [done|].
rewrite IH. apply Permutation_swap.
Qed.

Lemma sort_table_perm l : sort_table l ≡ₚ l.
Proof.
induction l as [|x l IH]; [done|]. unfold sort_table in *. simpl.
by rewrite sort_insert_perm, IH.
Qed.

(** A table listed by strictly decreasing count is left as it is. *)
Lemma sort_table_counts (v : list string) (n : Z) : ∀ k,
sort_table (zip v ((λ i, n - Z.of_nat i)%Z <$> seq k (length v)))
= zip v ((λ i, n - Z.of_nat i)%Z <$> seq k (length v)).
Proof.
induction v as [|x v IH]; intros k; [done|].
unfold sort_table in *. cbn [length seq fmap list_fmap zip zip_with foldr].
rewrite (IH (S k)). destruct v as [|y v]; [done|].
cbn [length seq fmap list_fmap zip zip_with sort_insert]. unfold before. cbn [snd].
replace (n - Z.of_nat (S k) <? n - Z.of_nat k)%Z with true; [done|].
symmetry. apply Z.ltb_lt. lia.
Qed.

Lemma fst_zip_counts (v : list string) (n : Z) k :
(zip v ((λ i, n - Z.of_nat i)%Z <$> seq k (length v))).*1 = v.
Proof. apply fst_zip. by rewrite length_fmap, length_seq. Qed.

Lemma table_remove_keys table keys :
(table_remove table keys).*1 = filter (λ k, k ∉ keys) table.*1.
Proof.
unfold table_remove. induction table as [|[k v] table IH]; [done|].
rewrite fmap_cons, !filter_cons. cbn [fst]. case_decide; [|done].
by rewrite fmap_cons, IH.
Qed.

Lemma table_remove_disjoint table keys :
(∀ k, k ∈ table.*1 → k ∉ keys) → table_remove table keys = table.
Proof.
unfold table_remove. induction table as [|[k v] table IH]; intros H; [done|].
rewrite filter_cons. rewrite decide_True by (apply H; left).
rewrite IH; [done|]. intros k' Hk'. apply H. by right.
Qed.

(** The special tokens of a tokenizer, as [__init__] lists them. *)
Lemma special_tokens_init vocabulary sl add_bos add_eos oov sep pm tk :
Py.outcome (Tokenizer_init vocabulary sl add_bos add_eos oov sep pm) = Py.Ok tk →
add_eos = true
∧ Py.truthy sl && negb (Py.isinstance_int sl) = false
∧ _special_tokens tk = special_tokens_of add_bos oov
∧ oov_token tk = oov
∧ oov_token_id tk = 1%Z ∧ pad_token_id tk = 0%Z
∧ bos_token tk = (if add_bos then Some BOS_TOKEN else None)
∧ bos_token_id tk = (if add_bos then Some 2%Z else None)
∧ eos_token tk = Some EOS_TOKEN
∧ eos_token_id tk = (if add_bos then 3%Z else 2%Z)
∧ sequence_length tk = sl
∧ padding_mode tk = (if String.eqb pm "left" then PadLeft else PadRight)
∧ _vocabulary tk = match vocabulary with
                   | Some ((_ :: _) as v) => Some (vocabulary_of add_bos oov v)
                   | _ => None
                   end
∧ ∀ voc, _vocabulary tk = Some voc → NoDup voc.
Proof.
unfold Tokenizer_init.
destruct (Py.truthy sl && negb (Py.isinstance_int sl)); [done|].
destruct add_eos; [|done].
destruct vocabulary as [[|t vocabulary]|].
- intros [= <-]. destruct add_bos; by split_and!.
- cbn -[_create_vocab foldl zip seq]. unfold _create_lookup_tables.
  case_decide as Hnd; [|done]. cbn -[_create_vocab foldl zip seq].
  intros [= <-]. cbn -[_create_vocab foldl zip seq].
  destruct add_bos; cbn -[_create_vocab foldl zip seq];
    split_and!; try done; by intros voc [= <-].
- intros [= <-]. destruct add_bos; by split_and!.
Qed.

Lemma vocabulary_of_NoDup add_bos oov v :
NoDup (vocabulary_of add_bos oov v) ↔ NoDup (special_tokens_of add_bos oov).
Proof.
unfold vocabulary_of, _create_vocab. rewrite list.NoDup_app.
split; [by intros (? & _)|]. intros Hs. split_and!; [done| |].
- intros t Ht Hin. rewrite sort_table_perm, table_remove_keys in Hin.
  by apply list_elem_of_filter in Hin as [? _].
- rewrite sort_table_perm, table_remove_keys. apply NoDup_filter.
  apply foldl_table_insert_NoDup. constructor.
Qed.

(** A vocabulary that repeats no token and no special token is kept in
  the order given, after the special tokens. *)
Lemma vocabulary_of_fresh add_bos oov v :
NoDup (special_tokens_of add_bos oov ++ v) →
vocabulary_of add_bos oov v = (special_tokens_of add_bos oov ++ v)%list.
Proof.
intros (Hs & Hd & Hv)%list.NoDup_app. unfold vocabulary_of, _create_vocab.
rewrite foldl_table_insert_fresh by (by rewrite fst_zip_counts).
rewrite app_nil_l, table_remove_disjoint.
- by rewrite sort_table_counts, fst_zip_counts.
- intros k Hk Hin. rewrite fst_zip_counts in Hk. by apply (Hd k).
Qed.

(** With a vocabulary given, the constructor returns exactly when the
  vocabulary it builds repeats no token. *)
Lemma Tokenizer_init_cases v sl add_bos oov sep pm :
v ≠ [] → Py.truthy sl && negb (Py.isinstance_int sl) = false →
(NoDup (vocabulary_of add_bos oov v)
 ∧ ∃ tk, Py.outcome (Tokenizer_init (Some v) sl add_bos true oov sep pm) = Py.Ok tk)
∨ (¬ NoDup (vocabulary_of add_bos oov v)
   ∧ Py.outcome (Tokenizer_init (Some v) sl add_bos true oov sep pm)
     = Py.Raise Py.FailedPreconditionError).
Proof.
intros Hv Hsl. unfold Tokenizer_init. rewrite Hsl.
destruct v as [|t v]; [done|].
destruct (decide (NoDup (vocabulary_of add_bos oov (t :: v)))) as [Hnd|Hnd]; [left|right];
  (split; [done|]); destruct add_bos;
  cbn -[_create_vocab foldl zip seq]; unfold _create_lookup_tables;
  match goal with
  | |- context [decide (NoDup ?l)] =>
      change l with (vocabulary_of true oov (t :: v))
      || change l with (vocabulary_of false oov (t :: v))
  end.
- rewrite decide_True by done. by eexists.
- rewrite decide_True by done. by eexists.
- by rewrite decide_False by done.
- by rewrite decide_False by done.
Qed.

Lemma lookup_table_NoDup (voc : list string) (d : Z) (i : nat) (t : string) :
NoDup voc → voc !! i = Some t → lookup_table voc d t = Z.of_nat i.
Proof.
intros Hnd Hi. unfold lookup_table.
destruct (list_find (λ x, x = t) voc) as [[j x]|] eqn:Hfind.
- apply list_find_Some in Hfind as (Hj & -> & _).
  by rewrite (NoDup_lookup _ _ _ _ Hnd Hi Hj).
- apply list_find_None in Hfind. rewrite list.Forall_forall in Hfind.
  destruct (Hfind t); [|done]. by eapply list_elem_of_lookup_2.
Qed.

Lemma lookup_table_missing (voc : list string) (d : Z) (t : string) :
t ∉ voc → lookup_table voc d t = d.
Proof.
intros Hin. unfold lookup_table.
destruct (list_find (λ x, x = t) voc) as [[j x]|] eqn:Hfind; [|done].
apply list_find_Some in Hfind as (Hj & -> & _).
destruct Hin. by eapply list_elem_of_lookup_2.
Qed.

(** X3. A vocabulary without repeated tokens and without special tokens
  is kept in the order given: the constructor returns a tokenizer
  whose vocabulary is the special tokens followed by the given tokens,
  so the id of the [i]-th given token is [i] plus the number of
  special tokens. *)
Theorem vocabulary_layout (v : list string) sl add_bos oov sep pm :
v ≠ [] →
Py.truthy sl && negb (Py.isinstance_int sl) = false →
NoDup (special_tokens_of add_bos oov ++ v) →
∃ tk,
  Py.outcome (Tokenizer_init (Some v) sl add_bos true oov sep pm) = Py.Ok tk
  ∧ _vocabulary tk = Some (special_tokens_of add_bos oov ++ v)%list
  ∧ ∀ i t, v !! i = Some t →
      token_to_id tk [[t]]
      = Py.Ok [[Z.of_nat (length (special_tokens_of add_bos oov) + i)]].
Proof.
intros Hv Hsl Hnd.
pose proof (vocabulary_of_fresh _ _ _ Hnd) as Hvoc.
destruct (Tokenizer_init_cases v sl add_bos oov sep pm Hv Hsl)
  as [(_ & tk & Htk)|[Hno _]]; [|by rewrite Hvoc in Hno].
exists tk. split; [done|].
apply special_tokens_init in Htk as (_ & _ & _ & _ & _ & _ & _ & _ & _ & _ & _ & _ & Htab & _).
destruct v as [|t0 v]; [done|]. rewrite Hvoc in Htab.
split; [done|]. intros i t Hi. unfold token_to_id. rewrite Htab.
cbn [fmap list_fmap]. do 3 f_equal. apply lookup_table_NoDup; [done|].
by rewrite lookup_app_r, Nat.add_comm, Nat.add_sub by lia.
Qed.

Lemma vocabulary_layout_witness :
∃ tk,
  Py.outcome (Tokenizer_init (Some ["C"; "N"; "O"]) (Py.PyInt 8) true true OOV_TOKEN None "right")
  = Py.Ok tk
  ∧ _vocabulary tk = Some (special_tokens_of true OOV_TOKEN ++ ["C"; "N"; "O"])%list
  ∧ ∀ i t, ["C"; "N"; "O"] !! i = Some t →
      token_to_id tk [[t]]
      = Py.Ok [[Z.of_nat (length (special_tokens_of true OOV_TOKEN) + i)]].
Proof.
apply (vocabulary_layout ["C"; "N"; "O"] (Py.PyInt 8) true OOV_TOKEN None "right");
  [done|reflexivity|]. apply (bool_decide_unpack _). reflexivity.
Defined.

Lemma special_tokens_NoDup add_bos oov :
NoDup (special_tokens_of add_bos oov)
↔ oov ∉ ([PAD_TOKEN; EOS_TOKEN] ++ (if add_bos then [BOS_TOKEN] else []))%list.
Proof.
unfold special_tokens_of, PAD_TOKEN, EOS_TOKEN, BOS_TOKEN.
destruct (String.eqb_spec oov "") as [->|Hne]; destruct add_bos; cbn [negb app].
- split; [intros _|intros _; apply (bool_decide_unpack _); reflexivity].
  apply (bool_decide_unpack _); reflexivity.
- split; [intros _|intros _; apply (bool_decide_unpack _); reflexivity].
  apply (bool_decide_unpack _); reflexivity.
- rewrite !list.NoDup_cons, !not_elem_of_cons, !elem_of_nil.
  split.
  + intros ((Hp & _) & (Hb & He & _) & _). split_and!; first [done|congruence].
  + intros (Hp & He & Hb & _).
    split_and!; first [done|congruence|by intros ?|apply NoDup_nil_2].
- rewrite !list.NoDup_cons, !not_elem_of_cons, !elem_of_nil.
  split.
  + intros ((Hp & _) & (He & _) & _). split_and!; first [done|congruence].
  + intros (Hp & He & _).
    split_and!; first [done|congruence|by intros ?|apply NoDup_nil_2].
Qed.

(** X4. With a vocabulary given (and [add_eos=True], a valid
  [sequence_length]), the constructor raises exactly when the
  out-of-vocabulary token is one of the other special tokens: the
  lookup table then lists a key twice, which the hash table refuses
  with a [tf.errors.FailedPreconditionError]; otherwise it returns. *)
Theorem init_raises_iff_oov_clash (v : list string) sl (add_bos : bool) oov sep pm :
v ≠ [] →
Py.truthy sl && negb (Py.isinstance_int sl) = false →
(oov ∈ ([PAD_TOKEN; EOS_TOKEN] ++ (if add_bos then [BOS_TOKEN] else []))%list
 ∧ Py.outcome (Tokenizer_init (Some v) sl add_bos true oov sep pm)
   = Py.Raise Py.FailedPreconditionError)
∨ ((oov ∉ ([PAD_TOKEN; EOS_TOKEN] ++ (if add_bos then [BOS_TOKEN] else []))%list)
   ∧ ∃ tk, Py.outcome (Tokenizer_init (Some v) sl add_bos true oov sep pm) = Py.Ok tk).
Proof.
intros Hv Hsl.
destruct (Tokenizer_init_cases v sl add_bos oov sep pm Hv Hsl)
  as [(Hnd & tk & Htk)|[Hno Hraise]].
- right. split; [|by exists tk].
  apply special_tokens_NoDup. by apply vocabulary_of_NoDup in Hnd.
- left. split; [|done].
  rewrite vocabulary_of_NoDup, special_tokens_NoDup in Hno.
  destruct (decide (oov ∈ ([PAD_TOKEN; EOS_TOKEN] ++ (if add_bos then [BOS_TOKEN] else []))%list));
    [done|by destruct Hno].
Qed.

Lemma init_raises_iff_oov_clash_witness :
(PAD_TOKEN ∈ ([PAD_TOKEN; EOS_TOKEN] ++ [])%list
 ∧ Py.outcome (Tokenizer_init (Some ["C"]) Py.PyNone false true PAD_TOKEN None "right")
   = Py.Raise Py.FailedPreconditionError)
∨ ((PAD_TOKEN ∉ ([PAD_TOKEN; EOS_TOKEN] ++ [])%list)
   ∧ ∃ tk, Py.outcome (Tokenizer_init (Some ["C"]) Py.PyNone false true PAD_TOKEN None "right")
           = Py.Ok tk).
Proof.
apply (init_raises_iff_oov_clash ["C"] Py.PyNone false PAD_TOKEN None "right");
  [done|reflexivity].
Defined.

(** The lookup tables of a constructed tokenizer: the special tokens
  come first and no token is listed twice. *)
Lemma lookup_tables_init vocabulary sl add_bos add_eos oov sep pm tk voc :
Py.outcome (Tokenizer_init vocabulary sl add_bos add_eos oov sep pm) = Py.Ok tk →
_vocabulary tk = Some voc →
NoDup voc ∧ ∃ rest, voc = (special_tokens_of add_bos oov ++ rest)%list.
Proof.
intros Hinit Hvoc.
apply special_tokens_init in Hinit
  as (_ & _ & _ & _ & _ & _ & _ & _ & _ & _ & _ & _ & Htab & Hnd).
split; [by apply Hnd|]. rewrite Hvoc in Htab.
destruct vocabulary as [[|t v]|]; [done| |done].
injection Htab as ->. unfold vocabulary_of, _create_vocab. by eexists.
Qed.

Lemma token_to_id_row tk voc (row : list string) :
_vocabulary tk = Some voc →
token_to_id tk [row] = Py.Ok [lookup_table voc (oov_token_id tk) <$> row].
Proof. intros H. unfold token_to_id. by rewrite H. Qed.

Lemma id_to_token_row tk voc (row : list Z) :
_vocabulary tk = Some voc →
id_to_token tk [row] = Py.Ok [lookup_table_reverse voc (oov_token tk) <$> row].
Proof. intros H. unfold id_to_token. by rewrite H. Qed.

(** X5. The special token ids a tokenizer advertises agree with its
  lookup table when the out-of-vocabulary token is not empty: the
  special tokens are looked up as [pad_token_id], [oov_token_id],
  [bos_token_id] (when there is a begin token) and [eos_token_id]. *)
Theorem special_token_ids_agree vocabulary sl add_bos add_eos oov sep pm tk voc :
Py.outcome (Tokenizer_init vocabulary sl add_bos add_eos oov sep pm) = Py.Ok tk →
_vocabulary tk = Some voc →
oov ≠ "" →
token_to_id tk [_special_tokens tk]
= Py.Ok [([pad_token_id tk; oov_token_id tk]
          ++ from_option (λ id, [id]) [] (bos_token_id tk)
          ++ [eos_token_id tk])%list].
Proof.
intros Hinit Hvoc Hoov.
destruct (lookup_tables_init _ _ _ _ _ _ _ _ _ Hinit Hvoc) as (Hnd & rest & ->).
apply special_tokens_init in Hinit
  as (_ & _ & -> & _ & -> & -> & _ & -> & _ & -> & _).
rewrite (token_to_id_row _ _ _ Hvoc). do 2 f_equal.
revert Hnd. unfold special_tokens_of.
destruct (String.eqb_spec oov "") as [|_]; [done|].
destruct add_bos; cbn [negb app fmap list_fmap from_option]; intros Hnd.
- by rewrite (lookup_table_NoDup _ _ 0 PAD_TOKEN Hnd), (lookup_table_NoDup _ _ 1 oov Hnd),
    (lookup_table_NoDup _ _ 2 BOS_TOKEN Hnd), (lookup_table_NoDup _ _ 3 EOS_TOKEN Hnd).
- by rewrite (lookup_table_NoDup _ _ 0 PAD_TOKEN Hnd), (lookup_table_NoDup _ _ 1 oov Hnd),
    (lookup_table_NoDup _ _ 2 EOS_TOKEN Hnd).
Qed.

Lemma special_token_ids_agree_witness :
token_to_id scenario_tokenizer [_special_tokens scenario_tokenizer]
= Py.Ok [([pad_token_id scenario_tokenizer; oov_token_id scenario_tokenizer]
          ++ from_option (λ id, [id]) [] (bos_token_id scenario_tokenizer)
          ++ [eos_token_id scenario_tokenizer])%list].
Proof.
apply (special_token_ids_agree (Some ["A"; "B"]) Py.PyNone true true OOV_TOKEN None "right"
         scenario_tokenizer ["[pad]"; "[oov]"; "[bos]"; "[eos]"; "A"; "B"]);
  [reflexivity|reflexivity|done].
Defined.

(** X6. With an empty out-of-vocabulary token the advertised ids are
  off by one: no out-of-vocabulary entry is put in the vocabulary, so
  the begin token (when there is one) is looked up as
  [bos_token_id - 1], which is [oov_token_id], and the end token as
  [eos_token_id - 1]. *)
Theorem special_token_ids_shift vocabulary sl add_bos add_eos sep pm tk voc :
Py.outcome (Tokenizer_init vocabulary sl add_bos add_eos "" sep pm) = Py.Ok tk →
_vocabulary tk = Some voc →
token_to_id tk [_special_tokens tk]
= Py.Ok [([pad_token_id tk]
          ++ from_option (λ id, [id - 1]%Z) [] (bos_token_id tk)
          ++ [eos_token_id tk - 1]%Z)%list].
Proof.
intros Hinit Hvoc.
destruct (lookup_tables_init _ _ _ _ _ _ _ _ _ Hinit Hvoc) as (Hnd & rest & ->).
apply special_tokens_init in Hinit
  as (_ & _ & -> & _ & _ & -> & _ & -> & _ & -> & _).
rewrite (token_to_id_row _ _ _ Hvoc). do 2 f_equal.
revert Hnd. unfold special_tokens_of.
destruct add_bos; cbn [String.eqb negb app fmap list_fmap from_option]; intros Hnd.
- by rewrite (lookup_table_NoDup _ _ 0 PAD_TOKEN Hnd),
    (lookup_table_NoDup _ _ 1 BOS_TOKEN Hnd), (lookup_table_NoDup _ _ 2 EOS_TOKEN Hnd).
- by rewrite (lookup_table_NoDup _ _ 0 PAD_TOKEN Hnd),
    (lookup_table_NoDup _ _ 1 EOS_TOKEN Hnd).
Qed.

Lemma special_token_ids_shift_witness :
∃ tk voc,
  Py.outcome (Tokenizer_init (Some ["C"]) Py.PyNone true true "" None "right") = Py.Ok tk
  ∧ _vocabulary tk = Some voc
  ∧ token_to_id tk [_special_tokens tk]
    = Py.Ok [([pad_token_id tk]
              ++ from_option (λ id, [id - 1]%Z) [] (bos_token_id tk)
              ++ [eos_token_id tk - 1]%Z)%list].
Proof.
eexists _, _. split; [reflexivity|]. split; [reflexivity|].
eapply (special_token_ids_shift (Some ["C"]) Py.PyNone true true None "right");
  reflexivity.
Defined.

(** X7. Unknown tokens and ids: a token that is not in the vocabulary
  gets [oov_token_id], an id outside the vocabulary gives [oov_token],
  and, when the out-of-vocabulary token is not empty, [oov_token_id]
  is the id of [oov_token], so an unknown token comes back as
  [oov_token]. *)
Theorem unknown_token_is_oov vocabulary sl add_bos add_eos oov sep pm tk voc :
Py.outcome (Tokenizer_init vocabulary sl add_bos add_eos oov sep pm) = Py.Ok tk →
_vocabulary tk = Some voc →
(∀ t, t ∉ voc → token_to_id tk [[t]] = Py.Ok [[oov_token_id tk]])
∧ (∀ id, ¬ (0 ≤ id < Z.of_nat (length voc))%Z → id_to_token tk [[id]] = Py.Ok [[oov]])
∧ (oov ≠ "" →
   ∀ t, t ∉ voc →
     (let? ids := token_to_id tk [[t]] in id_to_token tk ids) = Py.Ok [[oov]]).
Proof.
intros Hinit Hvoc.
destruct (lookup_tables_init _ _ _ _ _ _ _ _ _ Hinit Hvoc) as (Hnd & rest & Hrest).
apply special_tokens_init in Hinit
  as (_ & _ & _ & Hoov & Hid & _).
split_and!.
- intros t Ht. rewrite (token_to_id_row _ _ _ Hvoc). cbn [fmap list_fmap].
  by rewrite lookup_table_missing.
- intros id Hid'. rewrite (id_to_token_row _ _ _ Hvoc), Hoov. cbn [fmap list_fmap].
  do 3 f_equal. unfold lookup_table_reverse. case_decide; [|done].
  rewrite lookup_ge_None_2; [done|]. lia.
- intros Hne t Ht. rewrite (token_to_id_row _ _ _ Hvoc). cbn [fmap list_fmap Py.and_then].
  rewrite lookup_table_missing by done.
  rewrite (id_to_token_row _ _ _ Hvoc), Hid. cbn [fmap list_fmap]. do 3 f_equal.
  unfold lookup_table_reverse. rewrite decide_True by done.
  rewrite Hrest. unfold special_tokens_of.
  by destruct (String.eqb_spec oov "") as [|_].
Qed.

Lemma unknown_token_is_oov_witness :
(∀ t, t ∉ ["[pad]"; "[oov]"; "[bos]"; "[eos]"; "A"; "B"] →
   token_to_id scenario_tokenizer [[t]] = Py.Ok [[oov_token_id scenario_tokenizer]])
∧ (∀ id, ¬ (0 ≤ id < Z.of_nat (length ["[pad]"; "[oov]"; "[bos]"; "[eos]"; "A"; "B"]))%Z →
     id_to_token scenario_tokenizer [[id]] = Py.Ok [[OOV_TOKEN]])
∧ (OOV_TOKEN ≠ "" →
   ∀ t, t ∉ ["[pad]"; "[oov]"; "[bos]"; "[eos]"; "A"; "B"] →
     (let? ids := token_to_id scenario_tokenizer [[t]] in
      id_to_token scenario_tokenizer ids) = Py.Ok [[OOV_TOKEN]]).
Proof.
apply (unknown_token_is_oov (Some ["A"; "B"]) Py.PyNone true true OOV_TOKEN None "right"
         scenario_tokenizer ["[pad]"; "[oov]"; "[bos]"; "[eos]"; "A"; "B"]);
  reflexivity.
Defined.

(** X8. Without a vocabulary (none given, or an empty one) the
  constructor builds no lookup tables, and every call of [tokenize],
  [token_to_id], [id_to_token] and [detokenize] raises a
  [ValueError]. *)
Theorem no_vocabulary_raises vocabulary sl add_bos add_eos oov sep pm tk
  (inputs : list string) (ragged : bool) (tokens : list (list string))
  (ids : list (list Z)) :
vocabulary = None ∨ vocabulary = Some [] →
Py.outcome (Tokenizer_init vocabulary sl add_bos add_eos oov sep pm) = Py.Ok tk →
tokenize tk (Tf.StringTensor inputs) ragged = Py.Raise Py.ValueError
∧ token_to_id tk tokens = Py.Raise Py.ValueError
∧ id_to_token tk ids = Py.Raise Py.ValueError
∧ detokenize tk ids = Py.Raise Py.ValueError.
Proof.
intros Hv Hinit.
apply special_tokens_init in Hinit
  as (_ & _ & _ & _ & _ & _ & _ & _ & _ & _ & _ & _ & Htab & _).
assert (_vocabulary tk = None) as Hnone by (by destruct Hv as [-> | ->]).
unfold tokenize, detokenize, token_to_id, id_to_token. by rewrite Hnone.
Qed.

Lemma no_vocabulary_raises_witness :
∃ tk,
  Py.outcome (Tokenizer_init None (Py.PyInt 4) false true OOV_TOKEN None "right") = Py.Ok tk
  ∧ tokenize tk (Tf.StringTensor ["CCO"]) false = Py.Raise Py.ValueError
  ∧ token_to_id tk [["C"]] = Py.Raise Py.ValueError
  ∧ id_to_token tk [[4%Z]] = Py.Raise Py.ValueError
  ∧ detokenize tk [[4%Z]] = Py.Raise Py.ValueError.
Proof.
eexists. split; [reflexivity|].
eapply (no_vocabulary_raises None (Py.PyInt 4) false true OOV_TOKEN None "right");
  [by left|reflexivity].
Defined.

End Vocabulary.

Section Shapes.

#[local] Open Scope string_scope.

Lemma reverse_fit_row_reverse {A} (n : nat) (d : A) (row : list A) :
reverse (fit_row n d (reverse row))
= (replicate (n - length row) d ++ drop (length row - n) row)%list.
Proof.
unfold fit_row.
by rewrite reverse_app, reverse_replicate, take_reverse, reverse_involutive, length_reverse.
Qed.

Lemma length_cut_and_pad mode n pad row : length (cut_and_pad mode n pad row) = n.
Proof.
destruct mode; cbn [cut_and_pad];
  rewrite length_app, length_replicate, ?length_take, ?length_drop; lia.
Qed.

(** X9. Dense tokenizing is ragged tokenizing followed by cutting or
  padding every row to [sequence_length]: right padding keeps the
  first token ids of a long row, left padding the last ones, and every
  row of the result has exactly [sequence_length] entries. *)
Theorem dense_tokenize_cuts_and_pads (tk : Tokenizer) (inputs : list string)
  (token_ids : list (list Z)) (n : nat) :
tokenize tk (Tf.StringTensor inputs) true = Py.Ok token_ids →
Py.truthy (sequence_length tk) = true →
as_dimension (sequence_length tk) = Py.Ok n →
tokenize tk (Tf.StringTensor inputs) false
= Py.Ok (cut_and_pad (padding_mode tk) n (pad_token_id tk) <$> token_ids)
∧ length token_ids = length inputs
∧ Forall (λ row, length row = n)
    (cut_and_pad (padding_mode tk) n (pad_token_id tk) <$> token_ids).
Proof.
unfold tokenize. intros Hragged Htruthy Hn. rewrite Htruthy.
destruct (token_to_id tk _) as [ids| |] eqn:Hids; [|done|done].
rewrite orb_true_r in Hragged. cbn [Py.and_then negb orb] in *.
injection Hragged as ->. split_and!.
- unfold dense_token_ids. rewrite Hn. cbn [Py.and_then]. f_equal.
  destruct (padding_mode tk); cbn [cut_and_pad].
  + rewrite <- !list_fmap_compose. apply list_fmap_ext. intros _ row _.
    apply reverse_fit_row_reverse.
  + done.
- unfold token_to_id in Hids. destruct (_vocabulary tk); [|done].
  injection Hids as <-. unfold pretokenize. by rewrite !length_fmap.
- apply list.Forall_fmap, Forall_true. intros row. apply length_cut_and_pad.
Qed.

Lemma dense_tokenize_cuts_and_pads_witness :
tokenize carbon_tokenizer (Tf.StringTensor ["CCCC"; "C"]) false
= Py.Ok (cut_and_pad (padding_mode carbon_tokenizer) 4 (pad_token_id carbon_tokenizer)
           <$> [[2; 4; 4; 4; 4; 3]; [2; 4; 3]]%Z)
∧ length [[2; 4; 4; 4; 4; 3]; [2; 4; 3]]%Z = length ["CCCC"; "C"]
∧ Forall (λ row, length row = 4%nat)
    (cut_and_pad (padding_mode carbon_tokenizer) 4 (pad_token_id carbon_tokenizer)
       <$> [[2; 4; 4; 4; 4; 3]; [2; 4; 3]]%Z).
Proof.
apply (dense_tokenize_cuts_and_pads carbon_tokenizer ["CCCC"; "C"]
         [[2; 4; 4; 4; 4; 3]; [2; 4; 3]]%Z 4); reflexivity.
Defined.

Lemma max_list_length_le {A} (rows : list (list A)) (row : list A) :
row ∈ rows → (length row ≤ max_list (length <$> rows))%nat.
Proof. intros H. apply max_list_elem_of_le. by apply list_elem_of_fmap_2. Qed.

(** X10. [pad] returns a rectangular block with one row per input row:
  with no sequence length (neither given nor set) every row is filled
  up with [pad_token_id] to the length of the longest row and keeps
  all its entries; with a sequence length [n] every row is cut or
  filled up on the right to [n] entries. *)
Theorem pad_rectangular (tk : Tokenizer) (inputs : list (list Z))
  (sequence_length_arg : option Py.obj) (rows : list (list Z)) :
pad tk inputs sequence_length_arg = Py.Ok rows →
∃ n,
  Forall2 (λ row out, length out = n
           ∧ out = (take n row ++ replicate (n - length row) (pad_token_id tk))%list)
          inputs rows
  ∧ match default (sequence_length tk) sequence_length_arg with
    | Py.PyNone => Forall (λ row, length row ≤ n)%nat inputs
    | sl => as_dimension sl = Py.Ok n
    end.
Proof.
unfold pad.
assert (∀ n, Forall2 (λ row out : list Z, length out = n
           ∧ out = (take n row ++ replicate (n - length row) (pad_token_id tk))%list)
          inputs (fit_row n (pad_token_id tk) <$> inputs)) as Hfit.
{ intros n. apply Forall2_fmap_r, Forall_Forall2_diag, Forall_true. intros row.
  split; [|done]. unfold fit_row.
  rewrite length_app, length_replicate, length_take. lia. }
replace (match sequence_length_arg with Some n => n | None => sequence_length tk end)
  with (default (sequence_length tk) sequence_length_arg) by (by destruct sequence_length_arg).
destruct (default (sequence_length tk) sequence_length_arg) as [|b|z|f|s] eqn:Hsl.
- intros [= <-]. exists (max_list (length <$> inputs)). split.
  + unfold Layers.to_tensor. apply Forall2_fmap_r, Forall_Forall2_diag, list.Forall_forall.
    intros row Hrow. pose proof (max_list_length_le _ _ Hrow).
    rewrite take_ge by done. split; [|done].
    rewrite length_app, length_replicate. lia.
  + apply list.Forall_forall. intros row Hrow. by apply max_list_length_le.
- destruct (as_dimension (Py.PyBool b)) as [n| |] eqn:Hn; [|done|done].
  intros [= <-]. by exists n.
- destruct (as_dimension (Py.PyInt z)) as [n| |] eqn:Hn; [|done|done].
  intros [= <-]. by exists n.
- done.
- done.
Qed.

Lemma pad_rectangular_witness :
∃ n,
  Forall2 (λ row out, length out = n
           ∧ out = (take n row ++ replicate (n - length row)
                                    (pad_token_id carbon_tokenizer))%list)
          [[2; 4; 3]; [2; 3]]%Z [[2; 4; 3]; [2; 3; 0]]%Z
  ∧ match default (sequence_length carbon_tokenizer) (Some Py.PyNone) with
    | Py.PyNone => Forall (λ row, length row ≤ n)%nat [[2; 4; 3]; [2; 3]]%Z
    | sl => as_dimension sl = Py.Ok n
    end.
Proof.
apply (pad_rectangular carbon_tokenizer [[2; 4; 3]; [2; 3]]%Z (Some Py.PyNone)
         [[2; 4; 3]; [2; 3; 0]]%Z). reflexivity.
Defined.

Lemma regex_split_from_nonempty delim keep s : ∀ pending tok,
Forall (λ t, t ≠ "") (regex_split_from delim keep pending tok s).
Proof.
assert (∀ tok, Forall (λ t, t ≠ "") (emit tok [])) as Hemit.
{ intros tok. unfold emit. destruct (String.eqb_spec tok ""); [done|].
  by apply Forall_singleton. }
assert (∀ tok c, tok ++ String c "" ≠ "") as Hsnoc.
{ intros tok c. by destruct tok. }
induction s as [|c r IH]; intros pending tok; [apply Hemit|].
destruct pending as [|[|k]]; cbn [regex_split_from].
- destruct (delim (String c r)) as [[|[|k]]|]; cbn [app]; rewrite ?Forall_app;
    repeat split; try apply IH; try apply Hemit.
  destruct (full_match keep _); [|done]. by apply Forall_singleton.
- cbn [app]. rewrite Forall_app. split; [|apply IH].
  destruct (full_match keep _); [|done]. by apply Forall_singleton.
- apply IH.
Qed.

(** X11. [pretokenize] loses nothing: for every input string the tokens,
  joined in order, are the string again, and no token is empty. *)
Theorem pretokenize_lossless (inputs : list string) :
reduce_join <$> pretokenize inputs = inputs
∧ Forall (Forall (λ t, t ≠ "")) (pretokenize inputs).
Proof.
unfold pretokenize. split.
- rewrite <- list_fmap_compose. rewrite <- (list_fmap_id inputs) at 2.
  apply list_fmap_ext. intros _ s _. apply pretokenize_join.
- apply list.Forall_fmap, Forall_true. intros s. apply regex_split_from_nonempty.
Qed.

End Shapes.

Section Configuration.

#[local] Open Scope string_scope.

Lemma lookup_table_prefix (special rest : list string) (d : Z) :
NoDup (special ++ rest) →
lookup_table (special ++ rest) d <$> special = Z.of_nat <$> seq 0 (length special).
Proof.
intros Hnd. apply list_eq. intros i. rewrite !list_lookup_fmap.
destruct (special !! i) as [t|] eqn:Hi.
- rewrite lookup_seq_lt by (by eapply lookup_lt_Some). cbn [fmap option_fmap option_map].
  f_equal. apply lookup_table_NoDup; [done|]. by apply lookup_app_l_Some.
- by rewrite lookup_seq_ge by (by apply lookup_ge_None).
Qed.

(** X12. Whenever the lookup tables exist, [special_token_ids] are the
  ids under which the special tokens are looked up, whatever the
  out-of-vocabulary token is. *)
Theorem special_token_ids_are_looked_up vocabulary sl add_bos add_eos oov sep pm tk voc :
Py.outcome (Tokenizer_init vocabulary sl add_bos add_eos oov sep pm) = Py.Ok tk →
_vocabulary tk = Some voc →
token_to_id tk [_special_tokens tk] = Py.Ok [special_token_ids tk].
Proof.
intros Hinit Hvoc.
destruct (lookup_tables_init _ _ _ _ _ _ _ _ _ Hinit Hvoc) as (Hnd & rest & ->).
apply special_tokens_init in Hinit as (_ & _ & Hs & _).
rewrite (token_to_id_row _ _ _ Hvoc). unfold special_token_ids. rewrite Hs.
by rewrite lookup_table_prefix.
Qed.

Lemma special_token_ids_are_looked_up_witness :
token_to_id scenario_tokenizer [_special_tokens scenario_tokenizer]
= Py.Ok [special_token_ids scenario_tokenizer].
Proof.
apply (special_token_ids_are_looked_up (Some ["A"; "B"]) Py.PyNone true true OOV_TOKEN None
         "right" scenario_tokenizer ["[pad]"; "[oov]"; "[bos]"; "[eos]"; "A"; "B"]);
  reflexivity.
Defined.

Lemma table_remove_app a b keys :
table_remove (a ++ b) keys = (table_remove a keys ++ table_remove b keys)%list.
Proof. apply filter_app. Qed.

Lemma table_remove_all table keys :
(∀ k, k ∈ table.*1 → k ∈ keys) → table_remove table keys = [].
Proof.
unfold table_remove. induction table as [|[k v] table IH]; intros H; [done|].
rewrite filter_cons. rewrite decide_False by (intros Hno; apply Hno, H; left).
apply IH. intros k' Hk'. apply H. by right.
Qed.

(** Building the vocabulary again from a built vocabulary changes
  nothing. *)
Lemma vocabulary_of_again add_bos oov rest :
NoDup (special_tokens_of add_bos oov ++ rest) →
vocabulary_of add_bos oov (special_tokens_of add_bos oov ++ rest)
= (special_tokens_of add_bos oov ++ rest)%list.
Proof.
intros Hnd. pose proof Hnd as (Hs & Hd & Hr)%list.NoDup_app.
unfold vocabulary_of, _create_vocab. f_equal.
rewrite foldl_table_insert_fresh by (by rewrite fst_zip_counts).
rewrite app_nil_l, length_app, seq_app, fmap_app.
rewrite zip_with_app by (by rewrite length_fmap, length_seq).
rewrite table_remove_app, table_remove_all, app_nil_l, table_remove_disjoint.
- by rewrite sort_table_counts, fst_zip_counts.
- intros k Hk Hin. rewrite Nat.add_0_l, fst_zip_counts in Hk. by apply (Hd k).
- intros k Hk. by rewrite fst_zip_counts in Hk.
Qed.

Lemma Tokenizer_eq (a b : Tokenizer) :
sequence_length a = sequence_length b → padding_mode a = padding_mode b →
pad_token a = pad_token b → bos_token a = bos_token b → eos_token a = eos_token b →
oov_token a = oov_token b → sep_token a = sep_token b →
pad_token_id a = pad_token_id b → oov_token_id a = oov_token_id b →
bos_token_id a = bos_token_id b → eos_token_id a = eos_token_id b →
_special_tokens a = _special_tokens b → _vocabulary a = _vocabulary b → a = b.
Proof. destruct a, b. cbn. by intros -> -> -> -> -> -> -> -> -> -> -> -> ->. Qed.

Lemma pad_sep_init vocabulary sl add_bos add_eos oov sep pm tk :
Py.outcome (Tokenizer_init vocabulary sl add_bos add_eos oov sep pm) = Py.Ok tk →
pad_token tk = PAD_TOKEN ∧ sep_token tk = sep.
Proof.
unfold Tokenizer_init.
destruct (Py.truthy sl && negb (Py.isinstance_int sl)); [done|].
destruct add_eos; [|done].
destruct vocabulary as [[|t vocabulary]|].
- by intros [= <-].
- cbn -[_create_vocab foldl zip seq]. unfold _create_lookup_tables.
  case_decide as Hnd; [|done]. cbn -[_create_vocab foldl zip seq].
  by intros [= <-].
- by intros [= <-].
Qed.

(** X13. Saving and restoring: a tokenizer rebuilt from its
  configuration is the tokenizer itself, with the same vocabulary and
  ids, except that its padding mode is always the default, right
  padding. *)
Theorem config_roundtrip vocabulary sl add_bos add_eos oov sep pm tk :
Py.outcome (Tokenizer_init vocabulary sl add_bos add_eos oov sep pm) = Py.Ok tk →
Py.outcome (from_config (get_config tk)) = Py.Ok (with_right_padding tk).
Proof.
intros Hinit. pose proof Hinit as Hfields.
apply special_tokens_init in Hfields
  as (-> & Hsl & Hs & Hoov & Hoid & Hpid & Hbos & Hbid & Heos & Heid & Hsl' & Hpm & Hvoc & Hnd).
unfold from_config, get_config, get_vocabulary. cbn [config_vocabulary
  config_sequence_length config_add_bos config_add_eos config_oov_token config_sep_token].
rewrite Hbos, Heos, Hoov, Hsl'.
replace (is_not_None (if add_bos then Some BOS_TOKEN else None)) with add_bos
  by (by destruct add_bos).
cbn [is_not_None].
assert (∃ tk', Py.outcome (Tokenizer_init (_vocabulary tk) sl add_bos true oov
                             (sep_token tk) "right") = Py.Ok tk'
               ∧ _vocabulary tk' = _vocabulary tk) as (tk' & Htk' & Hvoc').
{ destruct (_vocabulary tk) as [voc|] eqn:Htab.
  - destruct (lookup_tables_init _ _ _ _ _ _ _ _ _ Hinit Htab) as (Hnd' & rest & ->).
    pose proof (vocabulary_of_again _ _ _ Hnd') as Hagain.
    assert (special_tokens_of add_bos oov ++ rest ≠ [])%list as Hne by done.
    destruct (Tokenizer_init_cases _ sl add_bos oov (sep_token tk) "right" Hne Hsl)
      as [(_ & tk' & Htk')|[Hno _]]; [|by rewrite Hagain in Hno].
    exists tk'. split; [done|].
    apply special_tokens_init in Htk'
      as (_ & _ & _ & _ & _ & _ & _ & _ & _ & _ & _ & _ & Htab' & _).
    by rewrite Htab', Hagain.
  - unfold Tokenizer_init. rewrite Hsl. by eexists. }
rewrite Htk'. f_equal.
destruct (pad_sep_init _ _ _ _ _ _ _ _ Hinit) as [Hpad Hsep].
destruct (pad_sep_init _ _ _ _ _ _ _ _ Htk') as [Hpad2 Hsep2].
apply special_tokens_init in Htk'
  as (_ & _ & Hs2 & Hoov2 & Hoid2 & Hpid2 & Hbos2 & Hbid2 & Heos2 & Heid2 & Hsl2 & Hpm2 & _).
apply Tokenizer_eq; cbn [with_right_padding sequence_length padding_mode pad_token
  bos_token eos_token oov_token sep_token pad_token_id oov_token_id bos_token_id
  eos_token_id _special_tokens _vocabulary]; try congruence.
by rewrite Hpm2.
Qed.

Lemma config_roundtrip_witness :
∃ tk,
  Py.outcome (Tokenizer_init (Some ["A"; "B"]) (Py.PyInt 8) true true OOV_TOKEN None "left")
  = Py.Ok tk
  ∧ padding_mode tk = PadLeft
  ∧ Py.outcome (from_config (get_config tk)) = Py.Ok (with_right_padding tk).
Proof.
eexists. split; [reflexivity|]. split; [reflexivity|].
eapply (config_roundtrip (Some ["A"; "B"]) (Py.PyInt 8) true true OOV_TOKEN None "left").
reflexivity.
Defined.

End Configuration.

(** ** Further facts about samplers.py *)

Lemma bind_raise {A B} (m : Py.M A) (f : A → Py.M B) :
  Py.is_raise (Py.outcome m) = true → Py.is_raise (Py.outcome (Py.bind m f)) = true.
Proof. unfold Py.bind. by destruct (Py.outcome m). Qed.

Lemma bind_raise_r {A B} (m : Py.M A) (f : A → Py.M B) :
  Py.outcome m ≠ Py.OutOfFuel →
  (∀ a, Py.is_raise (Py.outcome (f a)) = true) →
  Py.is_raise (Py.outcome (Py.bind m f)) = true.
Proof. unfold Py.bind. intros Hm Hf. destruct (Py.outcome m); [apply Hf|done|done]. Qed.

Lemma bind_raise_at {A B} (m : Py.M A) (f : A → Py.M B) (a : A) :
  Py.outcome m = Py.Ok a → Py.is_raise (Py.outcome (f a)) = true →
  Py.is_raise (Py.outcome (Py.bind m f)) = true.
Proof. unfold Py.bind. by intros ->. Qed.

Lemma count_event_app ev (s t : list Py.event) :
  count_event ev (s ++ t) = (count_event ev s + count_event ev t)%nat.
Proof. unfold count_event. by rewrite filter_app, length_app. Qed.

Lemma bind_no_event {A B} ev (m : Py.M A) (f : A → Py.M B) :
  count_event ev (Py.trace m) = 0%nat →
  (∀ a, count_event ev (Py.trace (f a)) = 0%nat) →
  count_event ev (Py.trace (Py.bind m f)) = 0%nat.
Proof.
  unfold Py.bind. intros Hm Hf. destruct (Py.outcome m); [|done..].
  cbn [Py.trace]. by rewrite count_event_app, Hm, Hf.
Qed.

Lemma prepare_draws_no_token {Cache} (self : Sampler Cache) x e :
  count_event Py.NextToken (Py.trace (_prepare self x e)) = 0%nat.
Proof.
  unfold _prepare.
  apply bind_no_event; [done|]. intros _.
  apply bind_no_event; [done|]. intros token_ids.
  apply bind_no_event; [done|]. intros _.
  apply bind_no_event; [by destruct e|]. intros [cross_cache cross_index].
  apply bind_no_event; [done|]. intros current_token.
  apply bind_no_event; [done|]. intros decoder_sequence.
  apply bind_no_event; [done|]. intros _.
  apply bind_no_event; [|done].
  by destruct (TransformerDecoder_call _ _ _ _ _ _ _).
Qed.

Lemma tokenize_settled tk inputs ragged : tokenize tk inputs ragged ≠ Py.OutOfFuel.
Proof.
  unfold tokenize. destruct inputs; [|done|done]. unfold token_to_id.
  destruct (_vocabulary tk); [|done]. cbn [Py.and_then].
  destruct (negb _ || ragged); [done|]. unfold dense_token_ids.
  destruct (sequence_length tk) as [|b|z|q|s]; try done.
  cbn. by destruct (0 <=? z)%Z.
Qed.

Lemma last_tokens_settled rows : last_tokens rows ≠ Py.OutOfFuel.
Proof. unfold last_tokens. destruct (mapM _ _); [|done]. by case_decide. Qed.

Lemma pad_settled tk rows n : pad tk rows n ≠ Py.OutOfFuel.
Proof.
  unfold pad. destruct (match n with Some n0 => n0 | None => sequence_length tk end)
    as [|b|z|q|s]; try done. cbn. by destruct (0 <=? z)%Z.
Qed.

(** X14. Sampling with an encoder input never works: priming calls the
    model with both caches, the model then returns three values, and
    unpacking them into two raises; so [_prepare], [__call__] and
    [sample] raise for every input, before any token is drawn. *)
Theorem encoder_input_always_raises {Cache Rng : Type}
    (random_categorical : Rng → list (list Tf.float32) → nat → list (list Z) * Rng)
    (log_softmax : list Q → list Q) (exp : Q → Q)
    (self : Sampler Cache) (fuel : nat) (rng : Rng)
    (decoder_input encoder_output : Tf.tensor)
    (decoder_sequence encoder_sequence : Tf.arg) :
  Py.is_raise (Py.outcome (_prepare self decoder_input (Some encoder_output))) = true
  ∧ Py.is_raise (Py.outcome (Sampler_call random_categorical log_softmax exp self fuel rng
                               decoder_input (Some encoder_output))) = true
  ∧ Py.is_raise (Py.outcome (sample random_categorical log_softmax exp self fuel rng
                               decoder_sequence (Some encoder_sequence))) = true
  ∧ count_event Py.NextToken
      (Py.trace (sample random_categorical log_softmax exp self fuel rng
                   decoder_sequence (Some encoder_sequence))) = 0%nat.
Proof.
  assert (∀ x e, Py.is_raise (Py.outcome (_prepare self x (Some e))) = true) as Hprepare.
  { intros x e. unfold _prepare.
    apply bind_raise_r; [done|]. intros _.
    apply bind_raise_r; [apply tokenize_settled|]. intros token_ids.
    apply bind_raise_r; [done|]. intros _.
    eapply bind_raise_at; [reflexivity|].
    apply bind_raise_r; [apply last_tokens_settled|]. intros current_token.
    apply bind_raise_r; [apply pad_settled|]. intros decoder_sequence'.
    apply bind_raise_r; [done|]. intros _.
    apply bind_raise. unfold TransformerDecoder_call.
    by destruct (decoder_stack _ _ _ _ _ _ _) as [[logits c1] c2]. }
  assert (∀ x e, Py.is_raise (Py.outcome (Sampler_call random_categorical log_softmax exp
                                            self fuel rng x (Some e))) = true
                 ∧ count_event Py.NextToken
                     (Py.trace (Sampler_call random_categorical log_softmax exp
                                  self fuel rng x (Some e))) = 0%nat) as Hcall.
  { intros x e. specialize (Hprepare x e). unfold Sampler_call, Py.bind at 1.
    destruct (Py.outcome (_prepare self x (Some e))) eqn:Hp; [done| |done].
    split; [done|]. cbn [Py.trace].
    pose proof (prepare_draws_no_token self x (Some e)) as Hno.
    unfold Py.bind at 1. by rewrite Hp. }
  split; [apply Hprepare|]. split; [apply Hcall|].
  unfold sample.
  destruct (negb (Tf.is_tensor decoder_sequence)),
    (negb (Tf.is_string (Tf.convert_to_tensor decoder_sequence))),
    (negb (Tf.is_tensor encoder_sequence)),
    (negb (Tf.is_string (Tf.convert_to_tensor encoder_sequence)));
    try done; apply Hcall.
Qed.

Lemma bind_Ok_trace {A B} (m : Py.M A) (f : A → Py.M B) (b : B) :
  Py.outcome (Py.bind m f) = Py.Ok b →
  ∃ a, Py.outcome m = Py.Ok a ∧ Py.outcome (f a) = Py.Ok b
       ∧ Py.trace (Py.bind m f) = (Py.trace m ++ Py.trace (f a))%list.
Proof.
  unfold Py.bind. destruct (Py.outcome m) as [a| |]; [|done..]. simpl. eauto.
Qed.

Section Bookkeeping.
Context {Cache Rng : Type}.
Variable random_categorical : Rng → list (list Tf.float32) → nat → list (list Z) * Rng.
Variables (log_softmax : list Q → list Q) (exp : Q → Q).
Variable self : Sampler Cache.

(** What one successful decode step does to the loop variables: a
    step that keeps log-probabilities does not succeed. *)
Lemma step_bookkeeping (vars vars' : LoopVars Cache Rng) :
  Py.outcome (_step random_categorical log_softmax exp self vars) = Py.Ok vars' →
  (∃ next, tokens vars' = tokens vars ++ [next])%list
  ∧ self_attention_cache_update_index vars'
    = increment <$> self_attention_cache_update_index vars
  ∧ cross_attention_cache_update_index vars'
    = increment <$> cross_attention_cache_update_index vars
  ∧ encoder_output vars' = encoder_output vars
  ∧ log_probs vars = None ∧ log_probs vars' = None
  ∧ (entropies vars = None → entropies vars' = None)
  ∧ Py.trace (_step random_categorical log_softmax exp self vars)
    = [Py.ModelCall; Py.NextToken].
Proof.
  unfold _step. intros (current & Hcur & H & ->)%bind_Ok_trace.
  destruct (tokens vars !! (length (tokens vars) - 1)%nat) as [cur|] eqn:Hlast;
    [|done]. injection Hcur as <-. cbn [Py.trace Py.ret app].
  apply bind_Ok_trace in H as ([] & _ & H & ->). cbn [Py.trace Py.tell app].
  destruct (TransformerDecoder_call _ _ _ _ _ _ _) as [x|x sc|x sc cc];
    apply bind_Ok_trace in H as (logits & Hsq & H & ->); cbn [Py.trace Py.lift app] in *;
    apply bind_Ok_trace in H as ([] & _ & H & ->); cbn [Py.trace Py.tell app] in *;
    apply bind_Ok_trace in H as ([tok g'] & Hnext & H & ->); cbn [Py.trace Py.lift app] in *;
    apply bind_Ok_trace in H as (next & Hsq' & H & ->); cbn [Py.trace Py.lift app] in *;
    apply bind_Ok_trace in H as (lp & Hlp & H & ->); cbn [Py.outcome Py.ret] in H;
    injection H as <-; cbn [tokens self_attention_cache_update_index
      cross_attention_cache_update_index encoder_output log_probs entropies];
    (split; [by eexists|]); do 3 (split; [done|]);
    (destruct (log_probs vars) as [a|];
     [by apply bind_Ok_trace in Hlp as (l & Hl & _)|injection Hlp as <-]);
    (do 2 (split; [done|])); (split; [by intros ->|]);
    by destruct (entropies vars).
Qed.

Lemma while_loop_bookkeeping : ∀ fuel (vars final : LoopVars Cache Rng),
  Py.outcome (while_loop fuel (_cond self)
                (_step random_categorical log_softmax exp self) vars) = Py.Ok final →
  ∃ generated,
    tokens final = (tokens vars ++ generated)%list
    ∧ self_attention_cache_update_index final
      = Nat.iter (length generated) increment <$> self_attention_cache_update_index vars
    ∧ cross_attention_cache_update_index final
      = Nat.iter (length generated) increment <$> cross_attention_cache_update_index vars
    ∧ encoder_output final = encoder_output vars
    ∧ log_probs final = log_probs vars
    ∧ (entropies vars = None → entropies final = None)
    ∧ count_event Py.ModelCall
        (Py.trace (while_loop fuel (_cond self)
                     (_step random_categorical log_softmax exp self) vars))
      = length generated
    ∧ count_event Py.NextToken
        (Py.trace (while_loop fuel (_cond self)
                     (_step random_categorical log_softmax exp self) vars))
      = length generated.
Proof.
  assert (∀ vars final : LoopVars Cache Rng, Py.Ok vars = Py.Ok final →
    ∃ generated : list (list Z),
      tokens final = (tokens vars ++ generated)%list
      ∧ self_attention_cache_update_index final
        = Nat.iter (length generated) increment <$> self_attention_cache_update_index vars
      ∧ cross_attention_cache_update_index final
        = Nat.iter (length generated) increment <$> cross_attention_cache_update_index vars
      ∧ encoder_output final = encoder_output vars
      ∧ log_probs final = log_probs vars
      ∧ (entropies vars = None → entropies final = None)
      ∧ count_event Py.ModelCall [] = length generated
      ∧ count_event Py.NextToken [] = length generated) as Hstop.
  { intros vars final [= <-]. exists []. rewrite app_nil_r. cbn [length Nat.iter].
    split_and!; try done.
    - by destruct (self_attention_cache_update_index vars).
    - by destruct (cross_attention_cache_update_index vars). }
  induction fuel as [|fuel IH]; intros vars final; cbn [while_loop];
    destruct (_cond self vars) eqn:Hc; try done; try apply Hstop.
  intros (vars' & Hstep & Hloop & ->)%bind_Ok_trace.
  apply step_bookkeeping in Hstep
    as ((next & Htok) & Hidx & Hcidx & Henc & Hlp & Hlp' & Hen & ->).
  apply IH in Hloop
    as (generated & Htok' & Hidx' & Hcidx' & Henc' & Hlp'' & Hen' & Hm & Hn).
  exists (next :: generated). cbn [length]. split_and!.
  - by rewrite Htok', Htok, <- app_assoc.
  - rewrite Hidx', Hidx.
    destruct (self_attention_cache_update_index vars) as [i|]; [|done].
    cbn [fmap option_fmap option_map]. by rewrite Nat.iter_succ_r.
  - rewrite Hcidx', Hcidx.
    destruct (cross_attention_cache_update_index vars) as [i|]; [|done].
    cbn [fmap option_fmap option_map]. by rewrite Nat.iter_succ_r.
  - congruence.
  - congruence.
  - intros He. by apply Hen', Hen.
  - by rewrite count_event_app, Hm.
  - by rewrite count_event_app, Hn.
Qed.

Lemma generate_loop (fuel : nat) (rng : Rng) (current_token : list Z)
    (log_probs0 entropies0 : option (TensorArray (list Q)))
    (cache cross_cache : option Cache) (index cross_index : option CacheIndex)
    (encoder : option Tf.tensor) (final : LoopVars Cache Rng) :
  let run := _generate random_categorical log_softmax exp self fuel rng current_token
               log_probs0 entropies0 cache index encoder cross_cache cross_index in
  let loop := while_loop fuel (_cond self)
                (_step random_categorical log_softmax exp self)
                {| tokens := [current_token];
                   log_probs := log_probs0;
                   entropies := entropies0;
                   self_attention_cache := cache;
                   self_attention_cache_update_index := index;
                   encoder_output := None;
                   cross_attention_cache := None;
                   cross_attention_cache_update_index := None;
                   rng := rng |} in
  Py.outcome run = Py.Ok final →
  (encoder = None ∧ cross_cache = None ∧ cross_index = None)
  ∧ Py.outcome loop = Py.Ok final
  ∧ Py.trace run = Py.trace loop.
Proof.
  intros run loop. subst run loop. unfold _generate.
  destruct encoder; [done|]. destruct cross_cache; [done|]. destruct cross_index; [done|].
  cbn [or_unit]. unfold Py.bind at 1 2 3. cbn [Py.outcome Py.trace Py.ret app].
  by intros ->.
Qed.

Lemma generate_inv (fuel : nat) (rng : Rng) (current_token : list Z)
    (log_probs0 entropies0 : option (TensorArray (list Q)))
    (cache cross_cache : option Cache) (index cross_index : option CacheIndex)
    (encoder : option Tf.tensor) (final : LoopVars Cache Rng) :
  Py.outcome (_generate random_categorical log_softmax exp self fuel rng current_token
                log_probs0 entropies0 cache index encoder cross_cache cross_index)
  = Py.Ok final →
  ∃ generated, tokens final = current_token :: generated.
Proof.
  intros (_ & Hloop & _)%generate_loop.
  apply while_loop_bookkeeping in Hloop as (generated & Htok & _).
  by exists generated.
Qed.

(** X15. The bookkeeping of generation as [__call__] runs it, without
    log-probability and entropy arrays, encoder output and
    cross-attention cache: when [_generate] returns, the token buffer
    is the seed token followed by the tokens drawn, the self-attention
    cache index has been advanced once per token drawn, the model was
    called once and a token drawn once per token in the buffer after
    the seed, and the loop variables that were absent at the start
    (log-probabilities, entropies, encoder output, cross-attention
    index) are absent at the end. *)
Theorem generate_bookkeeping (fuel : nat) (rng : Rng) (current_token : list Z)
    (cache : option Cache) (index : option CacheIndex) (final : LoopVars Cache Rng) :
  let run := _generate random_categorical log_softmax exp self fuel rng current_token
               None None cache index None None None in
  Py.outcome run = Py.Ok final →
  ∃ generated,
    tokens final = current_token :: generated
    ∧ self_attention_cache_update_index final
      = Nat.iter (length generated) increment <$> index
    ∧ count_event Py.ModelCall (Py.trace run) = length generated
    ∧ count_event Py.NextToken (Py.trace run) = length generated
    ∧ log_probs final = None
    ∧ entropies final = None
    ∧ encoder_output final = None
    ∧ cross_attention_cache_update_index final = None.
Proof.
  intros run Hrun. subst run.
  pose proof Hrun as (_ & Hloop & Htrace)%generate_loop.
  rewrite Htrace.
  apply while_loop_bookkeeping in Hloop
    as (generated & Htok & Hidx & Hcidx & Henc & Hlp & Hen & Hm & Hn).
  exists generated. split_and!; try done. by apply Hen.
Qed.

End Bookkeeping.

Lemma generate_bookkeeping_witness :
  ∃ generated,
    tokens scenario_final_vars = [4%Z] :: generated
    ∧ self_attention_cache_update_index scenario_final_vars
      = Nat.iter (length generated) increment <$> Some (DenseIndex [[0%Z]])
    ∧ count_event Py.ModelCall
        (Py.trace (_generate first_class (λ l, l) (λ x, x) scenario_sampler 2 () [4%Z]
                     None None (Some ()) (Some (DenseIndex [[0%Z]])) None None None))
      = length generated
    ∧ count_event Py.NextToken
        (Py.trace (_generate first_class (λ l, l) (λ x, x) scenario_sampler 2 () [4%Z]
                     None None (Some ()) (Some (DenseIndex [[0%Z]])) None None None))
      = length generated
    ∧ log_probs scenario_final_vars = None
    ∧ entropies scenario_final_vars = None
    ∧ encoder_output scenario_final_vars = None
    ∧ cross_attention_cache_update_index scenario_final_vars = None.
Proof.
  apply (generate_bookkeeping first_class (λ l, l) (λ x, x) scenario_sampler 2 () [4%Z]
           (Some ()) (Some (DenseIndex [[0%Z]])) scenario_final_vars).
  by vm_compute.
Defined.


Lemma tokenize_length tk (inputs : list string) ragged rows :
  tokenize tk (Tf.StringTensor inputs) ragged = Py.Ok rows → length rows = length inputs.
Proof.
  unfold tokenize, token_to_id. destruct (_vocabulary tk) as [v|]; [|done].
  cbn [Py.and_then]. destruct (negb _ || ragged).
  - intros [= <-]. unfold pretokenize. by rewrite !length_fmap.
  - unfold dense_token_ids. destruct (as_dimension _) as [n| |]; [|done..].
    cbn [Py.and_then]. intros [= <-].
    destruct (padding_mode tk); unfold pretokenize; by rewrite !length_fmap.
Qed.

Lemma tail_length (row : list Z) : (length (drop (length row - 1) row) ≤ 1)%nat.
Proof. rewrite length_drop. lia. Qed.

Lemma tail_padded (row : list Z) :
  (drop (length row - 1) row ++ replicate (1 - length (drop (length row - 1) row)) 0%Z)%list
    !! 0%nat
  = Some (default 0%Z (last row)).
Proof.
  destruct row as [|x row _] using rev_ind; [done|].
  rewrite last_snoc, length_app. cbn [length default].
  replace (length row + 1 - 1)%nat with (length row) by lia.
  by rewrite drop_app_length.
Qed.

(** [last_tokens] is the last token of every row, [0] for an empty
    row. *)
Lemma last_tokens_spec (rows : list (list Z)) (column : list Z) :
  last_tokens rows = Py.Ok column →
  column = (λ row, default 0%Z (last row)) <$> rows.
Proof.
  unfold last_tokens, to_tensor.
  set (tails := (λ row : list Z, drop (length row - 1) row) <$> rows).
  destruct (mapM _ _) as [col|] eqn:Hm; [|done]. case_decide as Hne; [done|].
  intros [= <-]. apply mapM_Some in Hm.
  assert (max_list (length <$> tails) = 1%nat) as Hmax.
  { assert (max_list (length <$> tails) ≤ 1)%nat as Hle.
    { destruct (decide (length <$> tails = [])) as [->|Hne']; [cbn; lia|].
      apply max_list_elem_of in Hne'. apply list_elem_of_fmap in Hne' as (t & -> & Ht).
      subst tails. apply list_elem_of_fmap in Ht as (r & -> & _). apply tail_length. }
    destruct rows as [|r rows]; [done|].
    subst tails. rewrite !fmap_cons in Hm. apply Forall2_cons_inv_l in Hm
      as (c & col' & Hc & _ & _).
    apply lookup_lt_Some in Hc. rewrite length_app, length_replicate in Hc.
    assert (length (drop (length r - 1) r)
            ≤ max_list (length <$> ((λ row : list Z, drop (length row - 1) row) <$> r :: rows)))%nat.
    { apply max_list_elem_of_le. rewrite !fmap_cons. left. }
    rewrite !fmap_cons in *. lia. }
  rewrite Hmax in Hm. subst tails. rewrite <- list_fmap_compose in Hm.
  apply Forall2_fmap_l in Hm. clear Hne Hmax.
  induction Hm as [|row c rows col Hc _ IH]; [done|].
  rewrite fmap_cons, <- IH. f_equal. cbn [compose] in Hc.
  rewrite tail_padded in Hc. by injection Hc.
Qed.

Section Call.
Context {Cache Rng : Type}.
Variable random_categorical : Rng → list (list Tf.float32) → nat → list (list Z) * Rng.
Variables (log_softmax : list Q → list Q) (exp : Q → Q).
Variable self : Sampler Cache.

Lemma prepare_inv (decoder_input : Tf.tensor) (encoder_output : option Tf.tensor)
    (prepared : Prepared Cache) :
  Py.outcome (_prepare self decoder_input encoder_output) = Py.Ok prepared →
  ∃ token_ids,
    tokenize (tokenizer self) decoder_input true = Py.Ok token_ids
    ∧ prepared_decoder_input prepared
      = (λ row : list Z, take (length row - 1) row) <$> token_ids
    ∧ last_tokens (prepared_decoder_input prepared)
      = Py.Ok (prepared_current_token prepared).
Proof.
  unfold _prepare. intros ([] & _ & H)%bind_Ok.
  apply bind_Ok in H as (token_ids & Htok & H). simpl in Htok.
  apply bind_Ok in H as ([] & _ & H).
  apply bind_Ok in H as ([cross_cache cross_index] & _ & H).
  apply bind_Ok in H as (current & Hcur & H). simpl in Hcur.
  apply bind_Ok in H as (decoder_sequence & _ & H).
  apply bind_Ok in H as ([] & _ & H).
  apply bind_Ok in H as (attention_cache & _ & H).
  simpl in H. injection H as <-. simpl. eauto.
Qed.

Lemma unpack_array_cons (current : list Z) (generated : list (list Z)) :
  _unpack_array (current :: generated)
  = (λ b, nth b current 0%Z :: ((λ row : list Z, nth b row 0%Z) <$> generated))
      <$> seq 0 (length current).
Proof. done. Qed.


End Call.


(** *** Top-k *)

Lemma filter_split_length {A} (P Q' : A → Prop) `{∀ x, Decision (P x)}
    `{∀ x, Decision (Q' x)} (l : list A) :
  length (filter P l)
  = (length (filter P (filter Q' l)) + length (filter P (filter (λ x, ¬ Q' x) l)))%nat.
Proof.
  induction l as [|x l IH]; [done|].
  rewrite (filter_cons Q'), (filter_cons (λ x, ¬ Q' x)), (filter_cons P x l).
  destruct (decide (Q' x)) as [Hq|Hq], (decide (¬ Q' x)) as [Hn|Hn]; try done;
    rewrite ?(filter_cons P x); destruct (decide (P x)); cbn [length]; try lia.
  all: by destruct Hn.
Qed.

Lemma filter_index_length (row : list (nat * Q)) (i : nat) :
  NoDup row.*1 → (length (filter (λ p : nat * Q, ¬ p.1 ≠ i) row) ≤ 1)%nat.
Proof.
  induction row as [|[j x] row IH]; [cbn; lia|].
  rewrite fmap_cons. intros [Hj Hnd]%list.NoDup_cons. rewrite filter_cons. cbn [fst].
  destruct (decide (¬ j ≠ i)) as [Heq|Hne]; [|by apply IH].
  assert (j = i) as -> by (destruct (decide (j = i)); [done|by destruct Heq]).
  cbn [length]. replace (filter _ row) with (@nil (nat * Q)); [cbn; lia|].
  symmetry. clear IH Hnd Heq. induction row as [|[j y] row IH]; [done|].
  rewrite fmap_cons in Hj. apply not_elem_of_cons in Hj as [Hne Hj].
  rewrite filter_cons. cbn [fst]. rewrite decide_False; [by apply IH|].
  intros Hnn. by apply Hnn.
Qed.

Lemma filter_index_removes_one (row : list (nat * Q)) (best : nat * Q) :
  NoDup row.*1 → best ∈ row →
  S (length (filter (λ p : nat * Q, p.1 ≠ best.1) row)) = length row.
Proof.
  intros Hnd Hin. induction row as [|[j x] row IH]; [by apply elem_of_nil in Hin|].
  rewrite fmap_cons in Hnd. apply list.NoDup_cons in Hnd as [Hj Hnd].
  rewrite filter_cons. cbn [fst length].
  apply elem_of_cons in Hin as [->|Hin].
  - cbn [fst]. rewrite decide_False by (intros Hn; by apply Hn). f_equal.
    clear IH Hnd. induction row as [|[i y] row IH]; [done|].
    rewrite fmap_cons in Hj. apply not_elem_of_cons in Hj as [Hne Hj].
    rewrite filter_cons. cbn [fst]. rewrite decide_True by (by apply not_eq_sym).
    cbn [length]. f_equal. by apply IH.
  - rewrite decide_True.
    + cbn [length]. f_equal. by apply IH.
    + intros ->. apply Hj. apply list_elem_of_fmap. by exists best.
Qed.

Lemma NoDup_fst_filter (P : nat * Q → Prop) `{∀ x, Decision (P x)} (row : list (nat * Q)) :
  NoDup row.*1 → NoDup (filter P row).*1.
Proof.
  induction row as [|p row IH]; [done|].
  rewrite fmap_cons. intros [Hp Hnd]%list.NoDup_cons. rewrite filter_cons.
  destruct (decide (P p)); [|by apply IH].
  rewrite fmap_cons. apply list.NoDup_cons. split; [|by apply IH].
  intros (q & Hq & Hin)%list_elem_of_fmap. apply list_elem_of_filter in Hin as [_ Hin].
  apply Hp. apply list_elem_of_fmap. by exists q.
Qed.

Lemma filter_none {A} (P : A → Prop) `{∀ x, Decision (P x)} (l : list A) :
  Forall (λ x, ¬ P x) l → filter P l = [].
Proof.
  induction 1 as [|x l Hx _ IH]; [done|]. by rewrite filter_cons, decide_False.
Qed.

(** The [j]-th entry [top_k_row] returns is an entry of the row, and at
    most [j] entries of the row are strictly greater. *)
Lemma top_k_row_rank (k : nat) : ∀ (row res : list (nat * Q)),
  NoDup row.*1 → top_k_row k row = Some res →
  length res = k
  ∧ ∀ j b, res !! j = Some b → b ∈ row ∧ (count_above row b.2 ≤ j)%nat.
Proof.
  induction k as [|k IH]; intros row res Hnd; cbn [top_k_row].
  - intros [= <-]. split; [done|]. by intros j b.
  - destruct (argmax row) as [best|] eqn:Hbest; [|done]. cbn [mbind option_bind].
    destruct (top_k_row k _) as [rest|] eqn:Hrest; [|done]. cbn [mbind option_bind].
    intros [= <-].
    assert (row ≠ []) as Hne by (by destruct row).
    destruct (argmax_spec row Hne) as (r & Hr & Hin & Hmax).
    rewrite Hbest in Hr. injection Hr as <-.
    apply IH in Hrest as [Hlen Hrank].
    2:{ by apply NoDup_fst_filter. }
    split; [cbn [length]; by rewrite Hlen|].
    intros [|j] b Hb.
    + injection Hb as <-. split; [done|]. unfold count_above.
      rewrite filter_none; [done|]. apply list.Forall_forall. intros q Hq.
      apply not_false_iff_true, Qle_bool_iff. by apply Hmax.
    + cbn [lookup list_lookup] in Hb. apply Hrank in Hb as [Hb Hcount].
      split; [by apply list_elem_of_filter in Hb as [_ ?]|].
      unfold count_above in *.
      rewrite (filter_split_length _ (λ p : nat * Q, p.1 ≠ best.1) row).
      pose proof (filter_index_length row best.1 Hnd) as Hone.
      pose proof (length_filter (λ p : nat * Q, Qle_bool p.2 b.2 = false)
                    (filter (λ p : nat * Q, ¬ p.1 ≠ best.1) row)). lia.
Qed.

Lemma top_k_row_Some (k : nat) : ∀ row : list (nat * Q),
  NoDup row.*1 → is_Some (top_k_row k row) ↔ (k ≤ length row)%nat.
Proof.
  induction k as [|k IH]; intros row Hnd; cbn [top_k_row].
  - split; [lia|by eexists].
  - destruct row as [|p row]; [cbn; split; [by intros [? ?]|lia]|].
    destruct (argmax_spec (p :: row)) as (best & Hbest & Hin & _); [done|].
    rewrite Hbest. cbn [mbind option_bind].
    pose proof (filter_index_removes_one _ _ Hnd Hin) as Hlen.
    specialize (IH (filter (λ q : nat * Q, q.1 ≠ best.1) (p :: row))
                  (NoDup_fst_filter _ _ Hnd)).
    destruct (top_k_row k _) as [rest|]; cbn [mbind option_bind].
    + split; [intros _|by eexists]. assert (k ≤ length (filter (λ q : nat * Q, q.1 ≠ best.1)
        (p :: row)))%nat by (apply IH; by eexists). lia.
    + split; [by intros [? ?]|]. intros Hk.
      assert (is_Some (@None (list (nat * Q)))) as [? ?]; [apply IH; lia|done].
Qed.

Lemma imap_indices (row : list Q) : NoDup (imap (λ i v, (i, v)) row).*1.
Proof.
  replace ((imap (λ i v, (i, v)) row).*1) with (seq 0 (length row)); [apply NoDup_seq|].
  apply list_eq. intros i. rewrite list_lookup_fmap, list_lookup_imap.
  destruct (row !! i) as [x|] eqn:Hi; cbn.
  - apply lookup_seq. split; [done|]. by eapply lookup_lt_Some.
  - apply lookup_seq_ge. by apply lookup_ge_None.
Qed.

Lemma count_above_imap (row : list Q) (x : Q) :
  count_above (imap (λ i v, (i, v)) row) x = outranking row x.
Proof.
  unfold count_above, outranking.
  assert (∀ n, length (filter (λ p : nat * Q, Qle_bool p.2 x = false)
                         (imap (λ i v, (n + i, v)%nat) row))
               = length (filter (λ y, Qle_bool y x = false) row)) as H.
  { induction row as [|y row IH]; intros n; [done|].
    cbn [imap]. rewrite !filter_cons. cbn [snd].
    rewrite (imap_ext _ (λ i v, (S n + i, v)%nat)) by (intros; cbn; f_equal; lia).
    destruct (decide (Qle_bool y x = false)); cbn [length]; by rewrite IH. }
  apply (H 0%nat).
Qed.

(** X17. What [TopKSampler.get_next_token] can choose: every token id
    it returns for a row of logits is the place of an entry of that row
    that fewer than [k] entries of the row exceed -- whatever the random
    generator draws. *)
Theorem top_k_draws_among_k_best {Rng : Type}
    (random_categorical : Rng → list (list Tf.float32) → nat → list (list Z) * Rng)
    (k : nat) (temperature : Q) (g g' : Rng) (logits : list (list Q))
    (token : list (list Z)) :
  TopKSampler_get_next_token random_categorical k temperature g logits
  = Py.Ok (token, g') →
  Forall2 (λ (row : list Q) (ids : list Z),
             Forall (λ id, ∃ i x, id = Z.of_nat i ∧ row !! i = Some x
                                  ∧ (outranking row x < k)%nat) ids)
          logits token.
Proof.
  unfold TopKSampler_get_next_token, top_k.
  destruct (mapM _ logits) as [best|] eqn:Hbest; [|done]. cbn [Py.and_then].
  destruct (Sampler_get_next_token _ _ _ _) as [sample g''].
  unfold take_along_axis. destruct (mapM _ (zip _ sample)) as [r|] eqn:Htake; [|done].
  case_decide as Hlen; [|done]. cbn [Py.and_then]. intros [= <- <-].
  apply mapM_Some in Hbest. apply mapM_Some in Htake.
  rewrite length_fmap in Hlen.
  apply Forall2_same_length_lookup_2.
  { apply Forall2_length in Hbest, Htake. rewrite length_zip_with, length_fmap in Htake. lia. }
  intros b row ids Hrow Hids.
  destruct (Forall2_lookup_l _ _ _ _ _ Hbest Hrow) as (res & Hres & Htop).
  destruct (Forall2_lookup_r _ _ _ _ _ Htake Hids) as ([idx smp] & Hzip & Hmap).
  apply lookup_zip_with_Some in Hzip as (idx' & smp' & [= <- <-] & Hidx & Hsmp).
  rewrite list_lookup_fmap, Hres in Hidx. injection Hidx as <-.
  cbn [fst snd] in Hmap. apply mapM_Some in Hmap.
  apply (top_k_row_rank k _ _ (imap_indices row)) in Htop as [Hk Hrank].
  apply list.Forall_forall. intros id Hid.
  apply list_elem_of_lookup in Hid as (n & Hn).
  destruct (Forall2_lookup_r _ _ _ _ _ Hmap Hn) as (c & Hc & Hat).
  destruct (wrap_index _ c) as [j|]; [|done]. cbn [mbind option_bind] in Hat.
  rewrite list_lookup_fmap in Hat.
  destruct (res !! j) as [[i x]|] eqn:Hj; [|done]. injection Hat as <-.
  pose proof (lookup_lt_Some _ _ _ Hj) as Hlt.
  apply Hrank in Hj as [Hin Hcount]. cbn [fst snd compose] in *.
  apply elem_of_lookup_imap in Hin as (i' & x' & [= <- <-] & Hx).
  exists i, x. split; [done|]. split; [done|].
  rewrite count_above_imap in Hcount. lia.
Qed.

Lemma top_k_draws_among_k_best_witness :
  Forall2 (λ (row : list Q) (ids : list Z),
             Forall (λ id, ∃ i x, id = Z.of_nat i ∧ row !! i = Some x
                                  ∧ (outranking row x < 2)%nat) ids)
          [[1; 3; 2]; [5; 0; 0]]%Q [[2]; [1]]%Z.
Proof.
  apply (top_k_draws_among_k_best last_class 2 (7 # 10) () () [[1; 3; 2]; [5; 0; 0]]%Q
           [[2]; [1]]%Z).
  by vm_compute.
Defined.

(** X18. [top_k] needs [k] columns: it raises when a row of logits has
    fewer than [k] entries, and so does [TopKSampler.get_next_token],
    before anything is drawn; when every row has at least [k] entries it
    returns [k] values and [k] places for every row. *)
Theorem top_k_needs_k_columns {Rng : Type}
    (random_categorical : Rng → list (list Tf.float32) → nat → list (list Z) * Rng)
    (k : nat) (temperature : Q) (g : Rng) (logits : list (list Q)) :
  (Exists (λ row, length row < k)%nat logits →
   top_k logits k = Py.Raise Py.InvalidArgumentError
   ∧ TopKSampler_get_next_token random_categorical k temperature g logits
     = Py.Raise Py.InvalidArgumentError)
  ∧ (Forall (λ row, k ≤ length row)%nat logits →
     ∃ values indices,
       top_k logits k = Py.Ok (values, indices)
       ∧ Forall2 (λ (row vs : list Q), length vs = k) logits values
       ∧ Forall2 (λ (row : list Q) (places : list Z), length places = k) logits indices).
Proof.
  split.
  - intros Hex. assert (top_k logits k = Py.Raise Py.InvalidArgumentError) as Htop.
    { unfold top_k. destruct (mapM _ logits) as [best|] eqn:Hbest; [|done].
      apply mapM_Some in Hbest. apply list.Exists_exists in Hex as (row & Hrow & Hlt).
      apply list_elem_of_lookup in Hrow as (b & Hb).
      destruct (Forall2_lookup_l _ _ _ _ _ Hbest Hb) as (res & _ & Hres).
      assert (is_Some (top_k_row k (imap (λ i v, (i, v)) row))) as Hsome by (by eexists).
      apply top_k_row_Some in Hsome; [|apply imap_indices].
      rewrite length_imap in Hsome. lia. }
    split; [done|]. unfold TopKSampler_get_next_token. by rewrite Htop.
  - intros Hall. unfold top_k.
    destruct (mapM _ logits) as [best|] eqn:Hbest.
    + eexists _, _. split; [done|]. apply mapM_Some in Hbest.
      split; apply Forall2_fmap_r; eapply Forall2_impl; [exact Hbest| |exact Hbest|];
        intros row res Hres; cbn beta in Hres;
        apply (top_k_row_rank k _ _ (imap_indices row)) in Hres as [Hk _];
        unfold compose; cbn beta; by rewrite length_fmap.
    + exfalso. apply mapM_None in Hbest. apply list.Exists_exists in Hbest as (row & Hrow & Hn).
      rewrite list.Forall_forall in Hall. specialize (Hall row Hrow).
      assert (is_Some (top_k_row k (imap (λ i v, (i, v)) row))) as [res Hres].
      { apply top_k_row_Some; [apply imap_indices|]. by rewrite length_imap. }
      by rewrite Hres in Hn.
Qed.

Lemma top_k_needs_k_columns_witness :
  top_k [[1; 3; 2]; [5; 0]]%Q 3 = Py.Raise Py.InvalidArgumentError
  ∧ TopKSampler_get_next_token last_class 3 (7 # 10) () [[1; 3; 2]; [5; 0]]%Q
    = Py.Raise Py.InvalidArgumentError.
Proof.
  apply (top_k_needs_k_columns last_class 3 (7 # 10) () [[1; 3; 2]; [5; 0]]%Q).
  apply Exists_cons_tl, Exists_cons_hd. cbn. lia.
Defined.

(** ** Further facts about layers.py *)

Section MoreMasks.

#[local] Open Scope Z_scope.

(** X19. Priming a batch of prompts of different lengths: the ragged
    cache index is filled up with [-1], so in the causal mask a query
    place beyond the length of its row may attend to no key at all. *)
Theorem padded_queries_attend_nothing (batch_size input_length output_length : nat)
    (rows : list (list Z)) (b q j : nat) (row : list Z) :
  rows !! b = Some row →
  (length row ≤ q < max_list (length <$> rows))%nat →
  (j < input_length)%nat →
  permits (BoolMask (_compute_causal_mask batch_size input_length output_length
                       (Some (RaggedIndex rows)))) b q j
  = Some false.
Proof.
  intros Hb Hq Hj. unfold permits, _compute_causal_mask, to_tensor.
  rewrite !list_lookup_fmap, Hb. cbn [fmap option_fmap option_map mbind option_bind].
  rewrite list_lookup_fmap, lookup_app_r by lia.
  rewrite lookup_replicate_2 by lia.
  cbn [fmap option_fmap option_map mbind option_bind].
  rewrite list_lookup_fmap, lookup_arange by done.
  cbn [fmap option_fmap option_map]. f_equal. rewrite Z.geb_leb. apply Z.leb_gt. lia.
Qed.

Lemma padded_queries_attend_nothing_witness :
  permits (BoolMask (_compute_causal_mask 2 4 3 (Some (RaggedIndex [[0; 1; 2]; [0]]))))
    1 2 0 = Some false.
Proof.
  apply (padded_queries_attend_nothing 2 4 3 [[0; 1; 2]; [0]] 1 2 0 [0]);
    [reflexivity|cbn; lia|lia].
Defined.

(** X20. Merging a padding mask over the keys with an attention mask:
    an explicit padding mask takes the place of the mask attached to
    the inputs, and the merged mask permits a query to attend to a key
    exactly when the padding mask permits the key and the attention
    mask permits the pair. *)
Theorem merged_mask_is_conjunction (inputs : Sequence)
    (padding_mask : option (list (list bool)))
    (pm : list (list bool)) (am : list (list (list bool))) (T : nat) :
  match padding_mask with Some m => Some m | None => _keras_mask inputs end = Some pm →
  length pm = length am →
  Forall (λ r, length r = T) pm →
  Forall (Forall (λ r, length r = T)) am →
  ∃ m, _merge_padding_and_attention_mask inputs padding_mask (Some am) = Py.Ok (Some m)
    ∧ ∀ b q j pb ab,
        (r ← pm !! b; r !! j) = Some pb →
        (row ← am !! b; r ← row !! q; r !! j) = Some ab →
        permits (IntMask m) b q j = Some (pb && ab).
Proof.
  intros Hmask Hlen Hpm Ham. unfold _merge_padding_and_attention_mask.
  replace (match padding_mask with None => _keras_mask inputs | Some _ => padding_mask end)
    with (Some pm) by (by destruct padding_mask).
  cbn [fmap option_fmap option_map compose].
  destruct (minimum_padding pm am T Hlen Hpm Ham) as (m & -> & Hentries).
  exists m. split; [done|]. intros b q j pb ab Hpb Hab. unfold permits.
  specialize (Hentries b q j pb ab Hpb Hab).
  destruct (m !! b) as [row|]; [|done]. cbn [mbind option_bind] in *.
  destruct (row !! q) as [r|]; [|done]. cbn [mbind option_bind] in *.
  rewrite Hentries. cbn. by destruct pb, ab.
Qed.

Lemma merged_mask_is_conjunction_witness :
  ∃ m, _merge_padding_and_attention_mask
         {| seq_batch := 1; seq_length := 2; _keras_mask := Some [[false; false]] |}
         (Some [[true; false]]) (Some [[[true; true]; [false; true]]]) = Py.Ok (Some m)
    ∧ permits (IntMask m) 0 0 0 = Some true
    ∧ permits (IntMask m) 0 0 1 = Some false
    ∧ permits (IntMask m) 0 1 0 = Some false.
Proof.
  destruct (merged_mask_is_conjunction
              {| seq_batch := 1; seq_length := 2; _keras_mask := Some [[false; false]] |}
              (Some [[true; false]]) [[true; false]] [[[true; true]; [false; true]]] 2)
    as (m & Hm & Hpermits); [reflexivity|reflexivity| | |].
  - by repeat constructor.
  - by repeat constructor.
  - exists m. split; [exact Hm|]. split_and!.
    + by apply (Hpermits 0%nat 0%nat 0%nat true true).
    + by apply (Hpermits 0%nat 0%nat 1%nat false true).
    + by apply (Hpermits 0%nat 1%nat 0%nat true false).
Defined.

End MoreMasks.

Section CacheShape.
Context {V : Type}.

Lemma scatter_update_shape (ix : list (nat * Z)) : ∀ (c c' : list (list V)) vals,
  scatter_update c ix vals = Some c' → length <$> c' = length <$> c.
Proof.
  induction ix as [|[b p] ix IH]; intros c c' [|v vals]; cbn [scatter_update]; try done.
  - by intros [= <-].
  - destruct (scatter_one c b p v) as [c1|] eqn:H1; [|done].
    cbn [mbind option_bind]. intros H%IH. rewrite H. by eapply scatter_one_shape.
Qed.

(** X21. A cache update never changes the shape of the cache: the
    updated cache has the same rows, each with the same number of
    slots, for dense and for ragged indices. *)
Theorem cache_update_keeps_shape (cache cache' update : list (list V))
    (index : CacheIndex) :
  _cache_update cache index update = Some cache' →
  length cache' = length cache
  ∧ length <$> cache' = length <$> cache.
Proof.
  unfold _cache_update. destruct (gather_nd update _) as [vals|] eqn:Hg; [|done].
  cbn [mbind option_bind]. intros Hs%scatter_update_shape.
  split; [|done]. by rewrite <- (length_fmap length cache'), Hs, length_fmap.
Qed.

End CacheShape.

Lemma cache_update_keeps_shape_witness :
  length [[10; 7; 8]; [9; 21; 22]]%Z = length [[0; 0; 0]; [9; 0; 0]]%Z
  ∧ length <$> [[10; 7; 8]; [9; 21; 22]]%Z = length <$> [[0; 0; 0]; [9; 0; 0]]%Z.
Proof.
  apply (cache_update_keeps_shape [[0; 0; 0]; [9; 0; 0]]%Z [[10; 7; 8]; [9; 21; 22]]%Z
           [[10; 7; 8]; [21; 22]]%Z (RaggedIndex [[0; 1; 2]; [1; 2]]%Z)).
  reflexivity.
Defined.

(** ** Adapting a tokenizer to data *)

Section Adapt.

#[local] Open Scope string_scope.

Lemma batch_from_concat {A} (size : nat) (l : list A) : ∀ room current,
  concat (batch_from size room current l) = (current ++ l)%list.
Proof.
  induction l as [|x l IH]; intros room current; cbn [batch_from].
  - destruct current; cbn [concat]; by rewrite ?app_nil_r.
  - destruct room as [|[|room]]; cbn [concat]; rewrite IH, <- ?app_assoc; done.
Qed.

Lemma foldl_table_insert_keys (kvs : list (string * Z)) : ∀ table t,
  t ∈ (foldl (λ table kv, table_insert table kv.1 kv.2) table kvs).*1
  ↔ t ∈ table.*1 ∨ t ∈ kvs.*1.
Proof.
  induction kvs as [|[k v] kvs IH]; intros table t; cbn [foldl].
  - rewrite fmap_nil, elem_of_nil. tauto.
  - rewrite IH, table_insert_keys, fmap_cons, elem_of_cons. cbn [fst].
    case_decide as Hk; [|rewrite elem_of_app, list_elem_of_singleton]; [|tauto].
    split; [tauto|]. intros [?|[->|?]]; tauto.
Qed.

Lemma unique_with_counts_keys (tokens : list string) (t : string) :
  t ∈ (unique_with_counts tokens).*1 ↔ t ∈ tokens.
Proof.
  unfold unique_with_counts.
  assert (∀ acc : list (string * Z),
    t ∈ (foldl (λ acc t, table_insert acc t (table_lookup acc t + 1)%Z) acc tokens).*1
    ↔ t ∈ acc.*1 ∨ t ∈ tokens) as H.
  { induction tokens as [|x tokens IH]; intros acc; cbn [foldl].
    - rewrite elem_of_nil. tauto.
    - rewrite IH, table_insert_keys, elem_of_cons.
      case_decide as Hk; [|rewrite elem_of_app, list_elem_of_singleton]; [|tauto].
      split; [tauto|]. intros [?|[->|?]]; tauto. }
  rewrite H, fmap_nil, elem_of_nil. tauto.
Qed.

Lemma adapt_fn_keys (table : list (string * Z)) (inputs : list string) :
  NoDup table.*1 →
  NoDup (adapt_fn table inputs).1.*1
  ∧ ∀ t, t ∈ (adapt_fn table inputs).1.*1
         ↔ t ∈ table.*1 ∨ t ∈ flat_values (pretokenize inputs).
Proof.
  intros Hnd. unfold adapt_fn. cbn [fst]. split.
  - by apply foldl_table_insert_NoDup.
  - intros t. rewrite foldl_table_insert_keys, fst_zip, unique_with_counts_keys; [done|].
    rewrite length_zip_with, !length_fmap. lia.
Qed.

Lemma max_list_app (a b : list nat) :
  max_list (a ++ b) = (max_list a `max` max_list b)%nat.
Proof. induction a as [|x a IH]; simpl; [done|]. rewrite IH. lia. Qed.

Lemma adapt_loop (ds : list (list string)) : ∀ (table : list (string * Z)) (g : nat),
  NoDup table.*1 →
  let final :=
    foldl (λ (state : list (string * Z) * nat) x,
             let '(table, max_sequence_length) := adapt_fn state.1 x in
             (table, state.2 `max` max_sequence_length)%nat)
          (table, g) ds in
  NoDup final.1.*1
  ∧ (∀ t, t ∈ final.1.*1 ↔ t ∈ table.*1 ∨ t ∈ flat_values (pretokenize (concat ds)))
  ∧ final.2 = (g `max` max_list (length <$> pretokenize (concat ds)))%nat.
Proof.
  induction ds as [|x ds IH]; intros table g Hnd final; subst final;
    cbn [foldl concat fst snd].
  - cbn. split; [done|]. split; [|lia]. intros t. rewrite elem_of_nil. tauto.
  - destruct (adapt_fn_keys table x Hnd) as [Hnd' Hkeys].
    destruct (adapt_fn table x) as [table' m] eqn:Hfn. cbn [fst snd] in *.
    assert (m = max_list (length <$> pretokenize x)) as ->.
    { unfold adapt_fn in Hfn. by injection Hfn as _ <-. }
    destruct (IH table' (g `max` max_list (length <$> pretokenize x))%nat Hnd')
      as (Hnd'' & Hkeys'' & Hmax).
    split; [done|]. split.
    + intros t. rewrite Hkeys'', Hkeys. unfold pretokenize, flat_values.
      rewrite fmap_app, concat_app, elem_of_app. tauto.
    + rewrite Hmax. unfold pretokenize. rewrite !fmap_app, max_list_app. lia.
Qed.

Lemma elem_of_concat {A} (x : A) (ls : list (list A)) :
  x ∈ concat ls ↔ ∃ l, x ∈ l ∧ l ∈ ls.
Proof.
  induction ls as [|l ls IH]; cbn [concat].
  - rewrite elem_of_nil. split; [done|]. by intros (l & _ & ?%elem_of_nil).
  - rewrite elem_of_app, IH. split.
    + intros [?|(l' & ? & ?)]; [exists l; split; [done|left]|].
      exists l'. split; [done|by right].
    + intros (l' & Hx & [->|?]%elem_of_cons); [by left|]. right. by exists l'.
Qed.

Lemma create_vocab_spec (special : list string) (table : list (string * Z)) :
  NoDup table.*1 →
  (NoDup (_create_vocab special table) ↔ NoDup special)
  ∧ ∀ t, t ∈ _create_vocab special table ↔ t ∈ special ∨ t ∈ table.*1.
Proof.
  intros Hnd. unfold _create_vocab. split.
  - rewrite list.NoDup_app. split; [by intros (? & _)|]. intros Hs. split_and!; [done| |].
    + intros t Ht Hin. rewrite sort_table_perm, table_remove_keys in Hin.
      by apply list_elem_of_filter in Hin as [? _].
    + rewrite sort_table_perm, table_remove_keys. by apply NoDup_filter.
  - intros t. rewrite elem_of_app, sort_table_perm, table_remove_keys, list_elem_of_filter.
    destruct (decide (t ∈ special)); tauto.
Qed.

(** X22. [adapt] on a list of strings builds a vocabulary that holds
    the special tokens and every token of every string of the data,
    each once, and (when asked to) sets [sequence_length] to the
    largest number of tokens of a string of the data -- the begin and
    end tokens that [tokenize] adds are not counted; it raises a
    [tf.errors.FailedPreconditionError] when a special token is
    listed twice (the out-of-vocabulary token is another special
    token); and on a
    dataset it fails on the unbound local variable [ds]. *)
Theorem adapt_covers_data (tk : Tokenizer) (data : list string)
    (elements : list (list string)) (adapt_sequence_length : bool) :
  (NoDup (_special_tokens tk) →
   ∃ tk' vocabulary,
     adapt tk (DataList data) adapt_sequence_length = Adapted (Py.Ok tk')
     ∧ _vocabulary tk' = Some vocabulary
     ∧ NoDup vocabulary
     ∧ (∀ t, t ∈ vocabulary
             ↔ t ∈ _special_tokens tk ∨ ∃ s, s ∈ data ∧ t ∈ tokens_of_text s)
     ∧ sequence_length tk'
       = if adapt_sequence_length
         then Py.PyInt (Z.of_nat (max_list (length ∘ tokens_of_text <$> data)))
         else sequence_length tk)
  ∧ (¬ NoDup (_special_tokens tk) →
     adapt tk (DataList data) adapt_sequence_length
     = Adapted (Py.Raise Py.FailedPreconditionError))
  ∧ adapt tk (DataDataset elements) adapt_sequence_length = UnboundLocalError.
Proof.
  split; [|split; [|done]].
  - intros Hs. unfold adapt.
    pose proof (adapt_loop (batch DEFAULT_ADAPT_BATCH_SIZE data) [] 0 (NoDup_nil_2))
      as (Hnd & Hkeys & Hmax).
    destruct (foldl _ _ _) as [table g]. cbn [fst snd] in *.
    unfold batch in Hkeys, Hmax. rewrite batch_from_concat, app_nil_l in Hkeys, Hmax.
    destruct (create_vocab_spec (_special_tokens tk) table Hnd) as [Hvoc Hin].
    unfold _create_lookup_tables. rewrite decide_True by (by apply Hvoc).
    cbn [Py.and_then]. eexists _, _. split; [done|]. cbn [_vocabulary sequence_length].
    split; [done|]. split; [by apply Hvoc|]. split.
    + intros t. rewrite Hin, Hkeys, fmap_nil, elem_of_nil.
      unfold flat_values, pretokenize. rewrite elem_of_concat.
      split.
      * intros [?|[[]|(row & Ht & (s & -> & Hs')%list_elem_of_fmap)]]; [tauto|].
        right. by exists s.
      * intros [?|(s & Hs' & Ht)]; [tauto|]. right. right.
        eexists. split; [done|]. apply list_elem_of_fmap. by exists s.
    + destruct adapt_sequence_length; [|done]. rewrite Hmax.
      unfold pretokenize. by rewrite <- list_fmap_compose.
  - intros Hs. unfold adapt.
    pose proof (adapt_loop (batch DEFAULT_ADAPT_BATCH_SIZE data) [] 0 (NoDup_nil_2))
      as (Hnd & _).
    destruct (foldl _ _ _) as [table g]. cbn [fst snd] in *.
    destruct (create_vocab_spec (_special_tokens tk) table Hnd) as [Hvoc _].
    unfold _create_lookup_tables. rewrite decide_False; [done|].
    intros H. by apply Hs, Hvoc.
Qed.

Lemma adapt_covers_data_witness :
  ∃ tk' vocabulary,
    adapt carbon_tokenizer (DataList ["CCO"; "CN"]) true = Adapted (Py.Ok tk')
    ∧ _vocabulary tk' = Some vocabulary
    ∧ NoDup vocabulary
    ∧ (∀ t, t ∈ vocabulary
            ↔ t ∈ _special_tokens carbon_tokenizer
              ∨ ∃ s, s ∈ ["CCO"; "CN"] ∧ t ∈ tokens_of_text s)
    ∧ sequence_length tk'
      = Py.PyInt (Z.of_nat (max_list (length ∘ tokens_of_text <$> ["CCO"; "CN"]))).
Proof.
  apply (adapt_covers_data carbon_tokenizer ["CCO"; "CN"] [] true).
  apply (bool_decide_unpack _). reflexivity.
Defined.

(** *** Counting *)

Lemma table_lookup_cons k v table t :
  table_lookup ((k, v) :: table) t = if decide (k = t) then v else table_lookup table t.
Proof.
  unfold table_lookup. cbn [list_find fst]. case_decide; [done|].
  by destruct (list_find _ table) as [[i kv]|].
Qed.

Lemma table_lookup_insert table k v t :
  table_lookup (table_insert table k v) t
  = if decide (k = t) then v else table_lookup table t.
Proof.
  induction table as [|[k' v'] table IH]; cbn [table_insert].
  - by rewrite table_lookup_cons.
  - destruct (String.eqb_spec k' k) as [->|Hne]; rewrite !table_lookup_cons.
    + by case_decide.
    + rewrite IH. repeat case_decide; congruence.
Qed.

Lemma table_lookup_missing table t : t ∉ table.*1 → table_lookup table t = 0%Z.
Proof.
  induction table as [|[k v] table IH]; [done|].
  rewrite fmap_cons. intros [Hne Hin]%not_elem_of_cons.
  rewrite table_lookup_cons, decide_False by done. by apply IH.
Qed.

Lemma table_lookup_elem table k v :
  NoDup table.*1 → (k, v) ∈ table → table_lookup table k = v.
Proof.
  induction table as [|[k' v'] table IH]; [by intros _ ?%elem_of_nil|].
  rewrite fmap_cons. intros [Hk Hnd]%list.NoDup_cons [[= -> ->]|Hin]%elem_of_cons;
    rewrite table_lookup_cons.
  - by rewrite decide_True.
  - rewrite decide_False; [by apply IH|]. intros ->. apply Hk.
    apply list_elem_of_fmap. by exists (k, v).
Qed.

Lemma count_of_cons t x tokens :
  count_of t (x :: tokens) = ((if decide (x = t) then 1 else 0) + count_of t tokens)%Z.
Proof.
  unfold count_of. rewrite filter_cons. case_decide; cbn [length]; lia.
Qed.

Lemma count_of_app t a b : count_of t (a ++ b) = (count_of t a + count_of t b)%Z.
Proof. unfold count_of. rewrite filter_app, length_app. lia. Qed.

Lemma unique_with_counts_spec (tokens : list string) :
  NoDup (unique_with_counts tokens).*1
  ∧ ∀ t, table_lookup (unique_with_counts tokens) t = count_of t tokens.
Proof.
  unfold unique_with_counts.
  assert (∀ acc : list (string * Z), NoDup acc.*1 →
    NoDup (foldl (λ acc t, table_insert acc t (table_lookup acc t + 1)%Z) acc tokens).*1
    ∧ ∀ t, table_lookup
             (foldl (λ acc t, table_insert acc t (table_lookup acc t + 1)%Z) acc tokens) t
           = (table_lookup acc t + count_of t tokens)%Z) as H.
  { induction tokens as [|x tokens IH]; intros acc Hnd; cbn [foldl].
    - split; [done|]. intros t. unfold count_of. cbn. lia.
    - destruct (IH (table_insert acc x (table_lookup acc x + 1)%Z)) as [Hnd' Hcount].
      { rewrite table_insert_keys. case_decide; [done|].
        apply list.NoDup_app. split_and!; [done| |apply NoDup_singleton].
        by intros y Hy ->%list_elem_of_singleton. }
      split; [done|]. intros t. rewrite Hcount, table_lookup_insert, count_of_cons.
      case_decide; subst; lia. }
  destruct (H [] (NoDup_nil_2)) as [Hnd Hcount]. split; [done|].
  intros t. by rewrite Hcount.
Qed.

Lemma foldl_table_insert_lookup (kvs : list (string * Z)) : ∀ table t,
  NoDup kvs.*1 →
  table_lookup (foldl (λ table kv, table_insert table kv.1 kv.2) table kvs) t
  = if decide (t ∈ kvs.*1) then table_lookup kvs t else table_lookup table t.
Proof.
  induction kvs as [|[k v] kvs IH]; intros table t; [done|].
  rewrite fmap_cons. intros [Hk Hnd]%list.NoDup_cons. cbn [foldl fst snd].
  rewrite IH, table_lookup_insert, table_lookup_cons by done.
  destruct (decide (k = t)) as [->|Hne].
  - rewrite decide_False by done. by rewrite decide_True by left.
  - destruct (decide (t ∈ kvs.*1)) as [Hin|Hin].
    + by rewrite decide_True by (by right).
    + rewrite decide_False; [done|]. by intros [->|?]%elem_of_cons.
Qed.

Lemma zip_added_counts (unique : list (string * Z)) (f : string → Z) :
  zip unique.*1 (zip_with Z.add unique.*2 (f <$> unique.*1))
  = (λ kv : string * Z, (kv.1, kv.2 + f kv.1)%Z) <$> unique.
Proof. induction unique as [|[k v] unique IH]; [done|]. cbn. by f_equal. Qed.

Lemma table_lookup_added (unique : list (string * Z)) (f : string → Z) t :
  t ∈ unique.*1 →
  table_lookup ((λ kv : string * Z, (kv.1, kv.2 + f kv.1)%Z) <$> unique) t
  = (table_lookup unique t + f t)%Z.
Proof.
  induction unique as [|[k v] unique IH]; [by intros ?%elem_of_nil|].
  rewrite !fmap_cons. cbn [fst snd]. rewrite !table_lookup_cons.
  intros [->|Hin]%elem_of_cons; [by rewrite !decide_True|].
  case_decide; [by subst|by apply IH].
Qed.

Lemma adapt_fn_counts (table : list (string * Z)) (inputs : list string) t :
  table_lookup (adapt_fn table inputs).1 t
  = (table_lookup table t + count_of t (flat_values (pretokenize inputs)))%Z.
Proof.
  unfold adapt_fn. cbn [fst].
  destruct (unique_with_counts_spec (flat_values (pretokenize inputs))) as [Hnd Hcount].
  rewrite zip_added_counts.
  rewrite foldl_table_insert_lookup.
  2:{ rewrite <- list_fmap_compose.
      by rewrite (list_fmap_ext _ fst (unique_with_counts (flat_values (pretokenize inputs)))). }
  rewrite <- list_fmap_compose.
  rewrite (list_fmap_ext _ fst (unique_with_counts (flat_values (pretokenize inputs))))
    by done.
  case_decide as Hin.
  - rewrite table_lookup_added, Hcount by done. lia.
  - rewrite <- Hcount, (table_lookup_missing _ _ Hin). lia.
Qed.

Lemma adapt_loop_counts (ds : list (list string)) :
  ∀ (table : list (string * Z)) (g : nat) t,
    table_lookup
      (foldl (λ (state : list (string * Z) * nat) x,
                let '(table, max_sequence_length) := adapt_fn state.1 x in
                (table, state.2 `max` max_sequence_length)%nat)
             (table, g) ds).1 t
    = (table_lookup table t + count_of t (flat_values (pretokenize (concat ds))))%Z.
Proof.
  induction ds as [|x ds IH]; intros table g t; cbn [foldl concat fst snd].
  - unfold count_of. cbn. lia.
  - pose proof (adapt_fn_counts table x t) as Hx.
    destruct (adapt_fn table x) as [table' m]. cbn [fst] in Hx.
    rewrite IH, Hx. unfold pretokenize, flat_values.
    rewrite fmap_app, concat_app, count_of_app. lia.
Qed.

(** *** Order *)

Lemma sort_insert_counts (x : string * Z) (l : list (string * Z)) :
  (∀ i j a b, (i < j)%nat → l !! i = Some a → l !! j = Some b → (b.2 ≤ a.2)%Z) →
  ∀ i j a b, (i < j)%nat → sort_insert x l !! i = Some a → sort_insert x l !! j = Some b →
             (b.2 ≤ a.2)%Z.
Proof.
  induction l as [|y l IH]; intros Hsorted i j a b Hij Ha Hb.
  - cbn in *. destruct i, j; try done; lia.
  - cbn [sort_insert] in *. destruct (before x y) eqn:Hxy.
    + destruct i as [|i], j as [|j]; try lia.
      * cbn in Ha. injection Ha as <-. cbn [lookup list_lookup] in Hb.
        assert (y.2 ≤ x.2)%Z as Hy.
        { unfold before in Hxy. apply orb_true_iff in Hxy as [?%Z.ltb_lt|[?%Z.eqb_eq _]%andb_true_iff]; lia. }
        destruct j as [|j]; [injection Hb as <-; done|].
        cbn [lookup list_lookup] in Hb.
        specialize (Hsorted 0%nat (S j) y b ltac:(lia) eq_refl Hb). lia.
      * cbn [lookup list_lookup] in Ha, Hb. apply (Hsorted i j); [lia|done..].
    + assert (x.2 ≤ y.2)%Z as Hy.
      { unfold before in Hxy. apply orb_false_iff in Hxy as [?%Z.ltb_ge _]. lia. }
      destruct i as [|i], j as [|j]; try lia.
      * cbn in Ha. injection Ha as <-. cbn [lookup list_lookup] in Hb.
        apply list_elem_of_lookup_2 in Hb. rewrite sort_insert_perm in Hb.
        apply elem_of_cons in Hb as [->|Hb]; [done|].
        apply list_elem_of_lookup in Hb as (n & Hn).
        apply (Hsorted 0%nat (S n)); [lia|done..].
      * cbn [lookup list_lookup] in Ha, Hb.
        apply (IH (λ i j a b Hij Ha Hb, Hsorted (S i) (S j) a b ltac:(lia) Ha Hb) i j);
          [lia|done..].
Qed.

(** The sorted table lists the counts in non-increasing order. *)
Lemma sort_table_counts_sorted (l : list (string * Z)) :
  ∀ i j a b, (i < j)%nat → sort_table l !! i = Some a → sort_table l !! j = Some b →
             (b.2 ≤ a.2)%Z.
Proof.
  induction l as [|x l IH]; [by intros [|?] [|?]|].
  unfold sort_table in *. cbn [foldr]. by apply sort_insert_counts.
Qed.

(** X23. [adapt] numbers the tokens by frequency: of two tokens of
    the data that are no special tokens, the one that occurs more
    often in the data gets the smaller id, and both ids come after the
    ids of the special tokens. *)
Theorem adapt_orders_by_frequency (tk tk' : Tokenizer) (data : list string)
    (adapt_sequence_length : bool) (t1 t2 : string) :
  adapt tk (DataList data) adapt_sequence_length = Adapted (Py.Ok tk') →
  t1 ∉ _special_tokens tk → t2 ∉ _special_tokens tk →
  (0 < occurrences data t2 < occurrences data t1)%Z →
  ∃ id1 id2,
    token_to_id tk' [[t1; t2]] = Py.Ok [[id1; id2]]
    ∧ (Z.of_nat (length (_special_tokens tk)) ≤ id1 < id2)%Z.
Proof.
  unfold adapt, occurrences. intros Hadapt Ht1 Ht2 Hocc.
  pose proof (adapt_loop (batch DEFAULT_ADAPT_BATCH_SIZE data) [] 0 (NoDup_nil_2))
    as (Hnd & _ & _).
  pose proof (adapt_loop_counts (batch DEFAULT_ADAPT_BATCH_SIZE data) [] 0) as Hcount.
  destruct (foldl _ _ _) as [table g]. cbn [fst snd] in *.
  unfold batch in Hcount. rewrite batch_from_concat, app_nil_l in Hcount.
  unfold _create_lookup_tables in Hadapt. case_decide as Hvoc; [|done].
  cbn [Py.and_then] in Hadapt. injection Hadapt as <-.
  unfold token_to_id. cbn [_vocabulary oov_token_id fmap list_fmap].
  unfold _create_vocab in *.
  set (special := _special_tokens tk) in *.
  set (sorted := sort_table (table_remove table special)) in *.
  assert (∀ t, t ∉ special → (0 < count_of t (flat_values (pretokenize data)))%Z →
            ∃ p, sorted !! p = Some (t, count_of t (flat_values (pretokenize data))))
    as Hplace.
  { intros t Ht Hpos. assert (t ∈ table.*1) as Hin.
    { destruct (decide (t ∈ table.*1)) as [|Hno]; [done|].
      apply table_lookup_missing in Hno. rewrite Hcount in Hno. cbn in Hno. lia. }
    apply list_elem_of_fmap in Hin as ([k c] & -> & Hin). cbn [fst] in *.
    pose proof (table_lookup_elem _ _ _ Hnd Hin) as Hc.
    rewrite Hcount in Hc. cbn in Hc.
    replace (0 + count_of k (flat_values (pretokenize data)))%Z
      with (count_of k (flat_values (pretokenize data))) in Hc by lia.
    rewrite Hc. apply list_elem_of_lookup. subst sorted. rewrite sort_table_perm.
    unfold table_remove. apply list_elem_of_filter. by split. }
  destruct (Hplace t1 Ht1 ltac:(lia)) as (p1 & Hp1).
  destruct (Hplace t2 Ht2 ltac:(lia)) as (p2 & Hp2).
  assert (p1 < p2)%nat as Hlt.
  { destruct (decide (p1 < p2)%nat) as [|Hge]; [done|].
    destruct (decide (p1 = p2)) as [->|Hne].
    - rewrite Hp1 in Hp2. injection Hp2 as -> _. lia.
    - pose proof (sort_table_counts_sorted _ p2 p1 _ _ ltac:(lia) Hp2 Hp1) as Hle.
      cbn [snd] in Hle. lia. }
  exists (Z.of_nat (length special + p1)), (Z.of_nat (length special + p2)).
  split; [|lia]. do 3 f_equal.
  - apply lookup_table_NoDup; [done|].
    rewrite lookup_app_r, Nat.add_comm, Nat.add_sub, list_lookup_fmap, Hp1 by lia. done.
  - f_equal. apply lookup_table_NoDup; [done|].
    rewrite lookup_app_r, Nat.add_comm, Nat.add_sub, list_lookup_fmap, Hp2 by lia. done.
Qed.

Lemma adapt_orders_by_frequency_witness :
  ∃ tk' id1 id2,
    adapt carbon_tokenizer (DataList ["CCO"; "CN"]) true = Adapted (Py.Ok tk')
    ∧ token_to_id tk' [["C"; "N"]] = Py.Ok [[id1; id2]]
    ∧ (Z.of_nat (length (_special_tokens carbon_tokenizer)) ≤ id1 < id2)%Z.
Proof.
  eexists. 
  destruct (adapt_orders_by_frequency carbon_tokenizer _ ["CCO"; "CN"] true "C" "N"
              eq_refl) as (id1 & id2 & Hids & Hlt).
  - apply (bool_decide_unpack _). reflexivity.
  - apply (bool_decide_unpack _). reflexivity.
  - by vm_compute.
  - exists id1, id2. split; [reflexivity|]. by split.
Defined.

End Adapt.

(** ** Detokenizing generated rows *)

Section AfterEnd.

#[local] Open Scope string_scope.

Lemma regex_replace_eos_line (t : string) :
  line_length t = String.length t →
  regex_replace_from REGEX_PATTERN_CLEANUP 0 (EOS_TOKEN ++ t) = "".
Proof.
  intros Hline. pose proof (cleanup_at_eos t) as Hm. rewrite Hline in Hm.
  unfold EOS_TOKEN in *. revert Hm. repeat rewrite ?append_cons, ?append_nil_l. intros Hm.
  cbn [regex_replace_from]. rewrite Hm. apply regex_replace_skip. simpl. lia.
Qed.

(** X24. What follows the first end token never reaches the output:
    for a tokenizer with lookup tables and a non-empty out-of-vocabulary
    token, a row made of the begin token id (when there is a begin
    token), token ids whose text holds none of the marker texts, the
    end token id, and then any token ids whose text holds no line
    break, is detokenized to the text before the end token. *)
Theorem detokenize_stops_at_end_token vocabulary sl add_bos add_eos oov sep pm tk voc
    (body rest : list Z) :
  Py.outcome (Tokenizer_init vocabulary sl add_bos add_eos oov sep pm) = Py.Ok tk →
  _vocabulary tk = Some voc →
  oov ≠ "" →
  let text := reduce_join (lookup_table_reverse voc oov <$> body) in
  let tail := reduce_join (lookup_table_reverse voc oov <$> rest) in
  no_markers text = true →
  line_length tail = String.length tail →
  detokenize tk [(from_option (λ id, [id]) [] (bos_token_id tk)
                  ++ body ++ [eos_token_id tk] ++ rest)%list]
  = Py.Ok [text].
Proof.
  intros Hinit Hvoc Hoov text tail Htext Htail.
  destruct (lookup_tables_init _ _ _ _ _ _ _ _ _ Hinit Hvoc) as (Hnd & more & ->).
  apply special_tokens_init in Hinit
    as (_ & _ & _ & Hoov' & _ & _ & _ & Hbid & _ & Heid & _).
  unfold detokenize. rewrite (id_to_token_row _ _ _ Hvoc), Hoov'.
  cbn [Py.and_then fmap list_fmap]. do 2 f_equal.
  rewrite !fmap_app, !reduce_join_app. fold text. fold tail.
  rewrite Hbid, Heid. unfold special_tokens_of in *.
  destruct (String.eqb_spec oov "") as [|_]; [done|].
  destruct add_bos; cbn [negb app from_option fmap list_fmap reduce_join foldr];
    unfold lookup_table_reverse at 1; cbn [decide]; rewrite ?decide_True by lia.
  - change (Z.to_nat 2) with 2%nat. cbn [lookup list_lookup app].
    unfold lookup_table_reverse at 1. rewrite decide_True by lia.
    change (Z.to_nat 3) with 3%nat. cbn [lookup list_lookup app].
    rewrite !append_nil_r. unfold regex_replace.
    rewrite regex_replace_bos, regex_replace_body, regex_replace_eos_line by done.
    apply append_nil_r.
  - change (Z.to_nat 2) with 2%nat. cbn [lookup list_lookup app].
    rewrite !append_nil_r, append_nil_l. unfold regex_replace.
    rewrite regex_replace_body, regex_replace_eos_line by done.
    apply append_nil_r.
Qed.

Lemma detokenize_stops_at_end_token_witness :
  detokenize scenario_tokenizer [[2; 4; 5; 3; 4; 0; 5; 3]%Z] = Py.Ok ["AB"].
Proof.
  apply (detokenize_stops_at_end_token (Some ["A"; "B"]) Py.PyNone true true OOV_TOKEN None
           "right" scenario_tokenizer ["[pad]"; "[oov]"; "[bos]"; "[eos]"; "A"; "B"]
           [4; 5]%Z [4; 0; 5; 3]%Z); reflexivity || done.
Defined.

End AfterEnd.

(** ** Priming *)

Section Priming.

#[local] Open Scope string_scope.

Lemma regex_split_bos (r : string) :
  regex_split SMILES_REGEX_PATTERN SMILES_REGEX_PATTERN (BOS_TOKEN ++ r)
  = BOS_TOKEN :: regex_split SMILES_REGEX_PATTERN SMILES_REGEX_PATTERN r.
Proof.
  unfold regex_split, BOS_TOKEN. repeat rewrite ?append_cons, ?append_nil_l.
  reflexivity.
Qed.

Lemma tokens_of_bos_length (eos : option string) (s : string) :
  (2 ≤ length (regex_split SMILES_REGEX_PATTERN SMILES_REGEX_PATTERN
                 (BOS_TOKEN ++ s ++ or_empty eos)))%nat
  ∨ s ++ or_empty eos = "".
Proof.
  rewrite regex_split_bos. cbn [length].
  destruct (regex_split SMILES_REGEX_PATTERN SMILES_REGEX_PATTERN (s ++ or_empty eos))
    as [|t l] eqn:Hsplit; [right|left; cbn [length]; lia].
  by rewrite <- (pretokenize_join (s ++ or_empty eos)), Hsplit.
Qed.

Lemma max_list_all_one (l : list nat) :
  l ≠ [] → Forall (λ n, n = 1%nat) l → max_list l = 1%nat.
Proof.
  induction l as [|n l IH]; [done|]. intros _ [-> Hl]%list.Forall_cons.
  destruct l as [|m l]; [done|]. simpl in *. rewrite IH by done. lia.
Qed.

Lemma last_tokens_total (rows : list (list Z)) :
  rows ≠ [] → Forall (λ row, row ≠ []) rows →
  last_tokens rows = Py.Ok ((λ row, default 0%Z (last row)) <$> rows).
Proof.
  intros Hne Hrows. unfold last_tokens, to_tensor.
  set (tails := (λ row : list Z, drop (length row - 1) row) <$> rows).
  assert (Forall (λ t : list Z, length t = 1%nat) tails) as Hone.
  { subst tails. apply list.Forall_fmap. eapply list.Forall_impl; [exact Hrows|].
    intros row Hrow. cbn. rewrite length_drop. destruct row; [done|]. cbn [length]. lia. }
  assert (max_list (length <$> tails) = 1%nat) as ->.
  { apply max_list_all_one; [subst tails; by destruct rows|]. by apply list.Forall_fmap. }
  rewrite (mapM_total _ (λ t : list Z, default 0%Z (t !! 0%nat))).
  - rewrite decide_False by done. f_equal. subst tails.
    rewrite <- !list_fmap_compose. apply list_fmap_ext. intros i row Hrow.
    unfold compose. by rewrite tail_padded.
  - intros t (t' & -> & Hin)%list_elem_of_fmap.
    rewrite list.Forall_forall in Hone.
    specialize (Hone t' Hin). by destruct t' as [|x [|??]].
Qed.

Lemma outcome_bind_Ok {A B} (m : Py.M A) (f : A → Py.M B) (a : A) :
  Py.outcome m = Py.Ok a → Py.outcome (Py.bind m f) = Py.outcome (f a).
Proof. unfold Py.bind. by intros ->. Qed.

Lemma trace_bind_Ok {A B} (m : Py.M A) (f : A → Py.M B) (a : A) :
  Py.outcome m = Py.Ok a →
  Py.trace (Py.bind m f) = (Py.trace m ++ Py.trace (f a))%list.
Proof. unfold Py.bind. by intros ->. Qed.

Lemma trace_bind_Raise {A B} (m : Py.M A) (f : A → Py.M B) (e : Py.exn) :
  Py.outcome m = Py.Raise e → Py.trace (Py.bind m f) = Py.trace m.
Proof. unfold Py.bind. by intros ->. Qed.

Section Prompts.
Context {Cache : Type}.
Variables (self : Sampler Cache) (voc : list string).
Hypothesis Hbos : bos_token (tokenizer self) = Some BOS_TOKEN.
Hypothesis Heos : eos_token (tokenizer self) = Some EOS_TOKEN.
Hypothesis Hvoc : _vocabulary (tokenizer self) = Some voc.

(** The prompts without their end tokens. *)
Let rows (inputs : list string) : list (list Z) :=
  (λ row : list Z, take (length row - 1) row)
    <$> ((λ s, lookup_table voc (oov_token_id (tokenizer self))
                 <$> regex_split SMILES_REGEX_PATTERN SMILES_REGEX_PATTERN
                       (BOS_TOKEN ++ s ++ EOS_TOKEN)) <$> inputs).

Lemma prompts_tokenize (inputs : list string) :
  tokenize (tokenizer self) (Tf.StringTensor inputs) true
  = Py.Ok ((λ s, lookup_table voc (oov_token_id (tokenizer self))
                   <$> regex_split SMILES_REGEX_PATTERN SMILES_REGEX_PATTERN
                         (BOS_TOKEN ++ s ++ EOS_TOKEN)) <$> inputs).
Proof.
  unfold tokenize, token_to_id. rewrite Hvoc, Hbos, Heos, orb_true_r.
  cbn [Py.and_then or_empty]. unfold pretokenize. by rewrite <- !list_fmap_compose.
Qed.

Lemma prompts_rows (inputs : list string) :
  Forall (λ row : list Z, row ≠ []) (rows inputs).
Proof.
  subst rows. cbn beta. rewrite <- list_fmap_compose.
  apply list.Forall_fmap, Forall_true.
  intros s. unfold compose. rewrite length_fmap.
  destruct (tokens_of_bos_length (Some EOS_TOKEN) s) as [Hlen|Hnil].
  - cbn [or_empty] in Hlen.
    destruct (regex_split _ _ _) as [|t1 [|t2 l]]; cbn [length] in *; try lia. done.
  - by destruct s.
Qed.

Lemma prompts_last_tokens (inputs : list string) :
  inputs ≠ [] → ∃ current, last_tokens (rows inputs) = Py.Ok current.
Proof.
  intros Hne. eexists. apply last_tokens_total; [|apply prompts_rows].
  subst rows. cbn beta. by destruct inputs.
Qed.

(** What priming returns when the model returns. *)
Lemma priming_outcome (inputs : list string) :
  inputs ≠ [] →
  ∃ prepared,
    Py.outcome (_prepare self (Tf.StringTensor inputs) None) = Py.Ok prepared
    ∧ length (prepared_decoder_input prepared) = length inputs
    ∧ Forall2 (λ (row : list Z) (t : Z), last row = Some t)
        (prepared_decoder_input prepared) (prepared_current_token prepared).
Proof.
  intros Hne. unfold _prepare.
  rewrite (outcome_bind_Ok _ _ ()) by done.
  erewrite outcome_bind_Ok by (cbn [Py.lift Py.outcome]; apply prompts_tokenize).
  rewrite (outcome_bind_Ok _ _ ()) by done.
  erewrite outcome_bind_Ok by reflexivity. cbn beta iota zeta.
  fold (rows inputs).
  erewrite outcome_bind_Ok
    by (cbn [Py.lift Py.outcome]; apply last_tokens_total;
        [subst rows; cbn beta; by destruct inputs|apply prompts_rows]).
  erewrite outcome_bind_Ok by reflexivity.
  rewrite (outcome_bind_Ok _ _ ()) by done.
  unfold TransformerDecoder_call.
  destruct (decoder_stack _ _ _ _ _ _ _) as [[logits c1] c2]. cbn [is_not_None negb andb].
  erewrite outcome_bind_Ok by reflexivity.
  eexists. split; [reflexivity|].
  cbn [prepared_decoder_input prepared_current_token]. split.
  - subst rows. cbn beta. by rewrite !length_fmap.
  - apply Forall2_fmap_r, Forall_Forall2_diag.
    eapply list.Forall_impl; [apply prompts_rows|].
    intros row Hrow. cbn beta. destruct row as [|x row _] using rev_ind; [done|].
    unfold compose. by rewrite last_snoc.
Qed.

(** The work of priming up to the call of the model. *)
Lemma priming_trace (inputs : list string) :
  inputs ≠ [] →
  ∃ rest,
    Py.trace (_prepare self (Tf.StringTensor inputs) None)
    = (Py.Tokenize :: Py.InitializeAttentionCache :: Py.ModelCall :: rest)%list.
Proof.
  intros Hne. unfold _prepare.
  rewrite (trace_bind_Ok _ _ ()) by done.
  erewrite trace_bind_Ok by (cbn [Py.lift Py.outcome]; apply prompts_tokenize).
  rewrite (trace_bind_Ok _ _ ()) by done.
  erewrite trace_bind_Ok by reflexivity. cbn beta iota zeta.
  fold (rows inputs).
  erewrite trace_bind_Ok
    by (cbn [Py.lift Py.outcome]; apply last_tokens_total;
        [subst rows; cbn beta; by destruct inputs|apply prompts_rows]).
  erewrite trace_bind_Ok by reflexivity.
  rewrite (trace_bind_Ok _ _ ()) by done.
  cbn [Py.trace Py.tell Py.lift Py.ret app]. by eexists.
Qed.

Lemma priming_empty :
  Py.outcome (_prepare self (Tf.StringTensor []) None)
  = Py.Raise Py.InvalidArgumentError
  ∧ Py.trace (_prepare self (Tf.StringTensor []) None)
    = [Py.Tokenize; Py.InitializeAttentionCache].
Proof.
  unfold _prepare. split.
  - rewrite (outcome_bind_Ok _ _ ()) by done.
    erewrite outcome_bind_Ok by (cbn [Py.lift Py.outcome]; apply prompts_tokenize).
    rewrite (outcome_bind_Ok _ _ ()) by done.
    erewrite outcome_bind_Ok by reflexivity. cbn beta iota zeta.
    done.
  - rewrite (trace_bind_Ok _ _ ()) by done.
    erewrite trace_bind_Ok by (cbn [Py.lift Py.outcome]; apply prompts_tokenize).
    rewrite (trace_bind_Ok _ _ ()) by done.
    erewrite trace_bind_Ok by reflexivity. cbn beta iota zeta.
    erewrite trace_bind_Raise by reflexivity. done.
Qed.
End Prompts.


End Priming.


(** ** The decoder stack *)

Section DecoderFacts.
Context {X C : Type}.
Implicit Types (layer : Models.TransformerDecoderLayer X C).

Lemma and_then_Returned {A B} (m : Models.attempt A) (f : A → Models.attempt B) (b : B) :
  Models.and_then m f = Models.Returned b →
  ∃ a, m = Models.Returned a ∧ f a = Models.Returned b.
Proof. destruct m as [a|e]; [|done]. cbn. eauto. Qed.

Lemma attention_cache {Value} (block : Models.AttentionBlock X C Value) x value
    (cache : option C) index x' cache' :
  Models.attention X C block x value cache index = Models.Returned (x', cache') →
  is_Some cache' ↔ is_Some cache.
Proof.
  unfold Models.attention. destruct cache as [c|].
  - intros (xc & _ & [= <- <-])%and_then_Returned. split; by eexists.
  - intros (x1 & _ & [= <- <-])%and_then_Returned. done.
Qed.

(** What a decoder layer returns, by the caches it is given and the
    way it was built. *)
Lemma layer_call_output layer x eo (sc : option C) si (cc : option C) ci out :
  Models.TransformerDecoderLayer_call layer x eo sc si cc ci = Models.Returned out →
  match sc with
  | None => ∃ x', out = Models.Alone x'
  | Some _ =>
      match Models.cross_attention_layer layer with
      | Some _ => ∃ x' s c', out = Models.WithBoth x' s c' ∧ (is_Some cc → is_Some c')
      | None => ∃ x' s, out = Models.WithSelf x' s
      end
  end.
Proof.
  unfold Models.TransformerDecoderLayer_call.
  intros ([x1 sc1] & Hself & H)%and_then_Returned.
  apply attention_cache in Hself. cbn [fst snd] in H.
  apply and_then_Returned in H as ([x2 cc2] & Hcross & H). cbn [fst snd] in H.
  destruct sc as [s|].
  - destruct sc1 as [s1|]; [|by destruct Hself as [_ [? ?]]; [eexists|]].
    destruct (Models.cross_attention_layer layer) as [block|].
    + injection H as <-. eexists _, _, _. split; [done|].
      apply attention_cache in Hcross. by apply Hcross.
    + injection H as <-. by eexists _, _.
  - destruct sc1 as [s1|]; [by destruct Hself as [[? ?] _]; [eexists|]|].
    injection H as <-. by eexists.
Qed.

Lemma layer_slice_Some (cache : list C) i (slice : option C) :
  Models.layer_slice (Some cache) i = Models.Returned slice → is_Some slice.
Proof. unfold Models.layer_slice. destruct (cache !! i); [|done]. intros [= <-]. by eexists. Qed.

(** One layer of the loop when the self-attention cache is given. *)
Lemma layer_step_caching (sc : list C) (cc : option (list C)) si ci eo
    (st st' : Models.LoopState X C) i layer :
  Models.layer_step (Some sc) cc si ci eo st i layer = Models.Returned st' →
  ∃ s c,
    Models.updated_self_attention_cache st'
    = (Models.updated_self_attention_cache st ++ [Some s])%list
    ∧ Models.updated_cross_attention_cache st'
      = (Models.updated_cross_attention_cache st ++ c)%list
    ∧ match cc with
      | Some _ => (∃ c', c = [Some c']) ∧ is_Some (Models.cross_attention_layer layer)
      | None => c = []
      end.
Proof.
  unfold Models.layer_step. intros (s_slice & Hs & H)%and_then_Returned.
  apply layer_slice_Some in Hs as [s0 ->].
  apply and_then_Returned in H as (c_slice & Hc & H).
  apply and_then_Returned in H as (out & Hout & H).
  apply layer_call_output in Hout. cbn [is_not_None] in H.
  destruct (Models.cross_attention_layer layer) as [block|].
  - destruct Hout as (x' & s & c' & -> & Hc').
    cbn [Models.cache_item lookup list_lookup Models.and_then] in H.
    destruct cc as [cc|]; cbn [is_not_None Models.cache_item lookup list_lookup
                                Models.and_then] in H.
    + apply layer_slice_Some in Hc. destruct (Hc' Hc) as [c1 ->].
      injection H as <-. exists s, [Some c1]. cbn.
      split; [done|]. split; [done|]. split; by eexists.
    + injection H as <-. exists s, []. cbn. by rewrite app_nil_r.
  - destruct Hout as (x' & s & ->).
    cbn [Models.cache_item lookup list_lookup Models.and_then] in H.
    destruct cc as [cc|]; cbn [is_not_None Models.cache_item lookup list_lookup
                                Models.and_then] in H; [done|].
    injection H as <-. exists s, []. cbn. by rewrite app_nil_r.
Qed.

(** One layer of the loop when no self-attention cache is given and
    no layer has returned a tuple yet. *)
Lemma layer_step_plain (cc : option (list C)) si ci eo
    (st st' : Models.LoopState X C) i layer :
  Models.updated_attention_cache st = None →
  Models.layer_step None cc si ci eo st i layer = Models.Returned st' →
  cc = None
  ∧ Models.updated_attention_cache st' = None
  ∧ Models.updated_self_attention_cache st' = Models.updated_self_attention_cache st
  ∧ Models.updated_cross_attention_cache st' = Models.updated_cross_attention_cache st.
Proof.
  unfold Models.layer_step. intros Hvar (s_slice & [= <-] & H)%and_then_Returned.
  apply and_then_Returned in H as (c_slice & Hc & H).
  apply and_then_Returned in H as (out & Hout & H).
  apply layer_call_output in Hout as (x' & ->). rewrite Hvar in H.
  cbn [is_not_None Models.and_then] in H.
  destruct cc as [cc|]; cbn [is_not_None Models.cache_item Models.and_then] in H; [done|].
  by injection H as <-.
Qed.

Lemma layers_loop_caching (sc : list C) (cc : option (list C)) si ci eo
    (layers : list (Models.TransformerDecoderLayer X C)) :
  ∀ (st st' : Models.LoopState X C) i,
    Models.layers_loop (Models.layer_step (Some sc) cc si ci eo) st i layers
    = Models.Returned st' →
    ∃ s c : list C,
      Models.updated_self_attention_cache st'
      = (Models.updated_self_attention_cache st ++ (Some <$> s))%list
      ∧ Models.updated_cross_attention_cache st'
        = (Models.updated_cross_attention_cache st ++ (Some <$> c))%list
      ∧ length s = length layers
      ∧ match cc with
        | Some _ => length c = length layers
                    ∧ Forall (λ layer, is_Some (Models.cross_attention_layer layer)) layers
        | None => c = []
        end.
Proof.
  induction layers as [|layer layers IH]; intros st st' i; cbn [Models.layers_loop].
  - intros [= <-]. exists [], []. rewrite !app_nil_r. by destruct cc.
  - intros (st1 & Hstep & Hloop)%and_then_Returned.
    apply layer_step_caching in Hstep as (s1 & c1 & Hs1 & Hc1 & Hcross).
    apply IH in Hloop as (s & c & Hs & Hc & Hlen & Hrest).
    destruct cc as [cc|].
    + destruct Hcross as [[c' ->] Hlayer]. destruct Hrest as [Hlenc Hlayers].
      exists (s1 :: s), (c' :: c). rewrite Hs, Hs1, Hc, Hc1, <- !app_assoc.
      cbn [length]. split_and!; try done; [by rewrite Hlen|by rewrite Hlenc|].
      by apply list.Forall_cons.
    + subst c c1. exists (s1 :: s), []. rewrite Hs, Hs1, Hc, Hc1, <- !app_assoc.
      cbn [length]. split_and!; try done. by rewrite Hlen.
Qed.

Lemma layers_loop_plain (cc : option (list C)) si ci eo
    (layers : list (Models.TransformerDecoderLayer X C)) :
  ∀ (st st' : Models.LoopState X C) i,
    Models.updated_attention_cache st = None →
    Models.layers_loop (Models.layer_step None cc si ci eo) st i layers
    = Models.Returned st' →
    (cc = None ∨ layers = [])
    ∧ Models.updated_self_attention_cache st' = Models.updated_self_attention_cache st
    ∧ Models.updated_cross_attention_cache st' = Models.updated_cross_attention_cache st.
Proof.
  induction layers as [|layer layers IH]; intros st st' i Hvar; cbn [Models.layers_loop].
  - intros [= <-]. split; [by right|done].
  - intros (st1 & Hstep & Hloop)%and_then_Returned.
    apply layer_step_plain in Hstep as (-> & Hvar1 & Hs1 & Hc1); [|done].
    apply IH in Hloop as (_ & Hs & Hc); [|done].
    split; [by left|]. by rewrite Hs, Hc.
Qed.

Lemma stack_Some (caches : list C) :
  caches ≠ [] → Models.stack (Some <$> caches) = Models.Returned caches.
Proof.
  intros Hne. unfold Models.stack. destruct caches as [|c caches]; [done|].
  rewrite fmap_cons. rewrite <- fmap_cons.
  rewrite (mapM_total _ (λ o : option C, default c o)).
  - f_equal. rewrite <- list_fmap_compose. by rewrite list_fmap_id.
  - by intros o (c' & -> & _)%list_elem_of_fmap.
Qed.

Lemma stack_nil : Models.stack (@nil (option C)) = Models.Failed (Models.Raised Py.ValueError).
Proof. done. Qed.

(** X26. What [TransformerDecoder.call] returns, over the loop of its
    layers: without caches the logits alone; with a self-attention
    cache the logits and a cache with one entry per layer, of which
    there is at least one; with both caches the logits and two caches
    with one entry per layer, and then every layer has a cross-attention
    layer; and with a cross-attention cache but no self-attention cache
    it never returns. *)
Theorem decoder_call_returns (self : Models.TransformerDecoder X C)
    (decoder_sequence : list (list Z)) (sc cc : option (list C))
    (si ci : option CacheIndex) (eo : option Tf.tensor)
    (out : ModelOutput (list C)) :
  Models.TransformerDecoder_call_layers self decoder_sequence sc si eo cc ci
  = Models.Returned out →
  match sc, cc with
  | None, None => ∃ logits, out = Out1 logits
  | Some _, None =>
      ∃ logits cache,
        out = Out2 logits (Some cache)
        ∧ length cache = length (Models.decoder_layers self)
        ∧ Models.decoder_layers self ≠ []
  | Some _, Some _ =>
      ∃ logits cache cross_cache,
        out = Out3 logits (Some cache) (Some cross_cache)
        ∧ length cache = length (Models.decoder_layers self)
        ∧ length cross_cache = length (Models.decoder_layers self)
        ∧ Models.decoder_layers self ≠ []
        ∧ Forall (λ layer, is_Some (Models.cross_attention_layer layer))
            (Models.decoder_layers self)
  | None, Some _ => False
  end.
Proof.
  unfold Models.TransformerDecoder_call_layers.
  intros (x & _ & H)%and_then_Returned.
  apply and_then_Returned in H as (st & Hloop & H).
  destruct sc as [sc|].
  - apply layers_loop_caching in Hloop as (s & c & Hs & Hc & Hlen & Hcross).
    cbn [Models.updated_self_attention_cache Models.updated_cross_attention_cache app] in Hs, Hc.
    rewrite Hs, Hc in H. cbn [is_not_None] in H.
    apply and_then_Returned in H as (sc' & Hstack & H).
    apply and_then_Returned in Hstack as (stacked & Hstack & [= <-]).
    assert (s ≠ []) as Hne by (intros ->; by rewrite fmap_nil, stack_nil in Hstack).
    rewrite stack_Some in Hstack by done. injection Hstack as <-.
    assert (Models.decoder_layers self ≠ []) as Hlayers.
    { intros Hnil. rewrite Hnil in Hlen. by destruct s. }
    destruct cc as [cc|]; cbn [is_not_None] in H.
    + destruct Hcross as [Hlenc Hall].
      apply and_then_Returned in H as (cc' & Hstack & H).
      apply and_then_Returned in Hstack as (stacked & Hstack & [= <-]).
      assert (c ≠ []) as Hnec by (intros ->; by rewrite fmap_nil, stack_nil in Hstack).
      rewrite stack_Some in Hstack by done. injection Hstack as <-.
      cbn in H. injection H as <-. by eexists _, _, _.
    + apply and_then_Returned in H as (cc' & [= <-] & H).
      cbn in H. injection H as <-. by eexists _, _.
  - apply layers_loop_plain in Hloop as (Hcc & Hs & Hc); [|done].
    cbn [Models.updated_self_attention_cache Models.updated_cross_attention_cache] in Hs, Hc.
    rewrite Hc in H. cbn [is_not_None] in H.
    apply and_then_Returned in H as (sc' & [= <-] & H).
    destruct cc as [cc|]; cbn [is_not_None] in H.
    + by rewrite stack_nil in H.
    + apply and_then_Returned in H as (cc' & [= <-] & H).
      cbn in H. injection H as <-. by eexists.
Qed.

End DecoderFacts.


Lemma decoder_call_returns_witness :
  ∃ logits cache,
    @Out2 (list nat) [] (Some [6%nat]) = Out2 logits (Some cache)
    ∧ length cache = length (Models.decoder_layers counting_decoder)
    ∧ Models.decoder_layers counting_decoder ≠ [].
Proof.
  apply (decoder_call_returns counting_decoder [[4%Z]] (Some [5%nat]) None
           (Some (DenseIndex [[0%Z]])) None None (Out2 [] (Some [6%nat]))).
  reflexivity.
Defined.
